(** * UnitedFlightSearcher: the browser-driven search-and-capture engine

    A shallow embedding of [src/united.js] (class [UnitedFlightSearcher]):
    the qualifying-response predicate, the interception handlers, the
    navigation retrier, the completion detector, the result normaliser and
    the two search entry points, followed by the properties the
    specification states about them.

    Conventions of the embedding.
    - JavaScript strings are [string]; a character stands for one code unit.
      Every pattern the program searches for is ASCII, so containment is not
      affected by the encoding of the other characters.
    - JavaScript numbers are binary64 floats ([float]); counts and sizes
      ([Array.prototype.length], [String.prototype.length]) are [nat].
    - Instants ([Date.now()], [new Date().toISOString()]) are milliseconds
      on a virtual clock, in [Z].
    - An exception is the [Throw] case of [result] in code that touches no
      state, and the [Throws] case of [completion] in code that runs on the
      machine ([M]); [Unfinished] is the model's own third case, for a loop
      that ran out of fuel, and the program is proved never to end in it. *)

From Stdlib Require Import List String Ascii Bool ZArith Lia PeanoNat DecimalString Sorted.
From Stdlib Require Import Floats.PrimFloat.
Import ListNotations.
Open Scope string_scope.
Set Warnings "-register-all".

(* ================================================================== *)
(** * Strings *)

Module Str.

(** [s.startsWith(p)] *)
Fixpoint startsWith (p s : string) : bool :=
  match p, s with
  | EmptyString, _ => true
  | String a p', String b s' => Ascii.eqb a b && startsWith p' s'
  | String _ _, EmptyString => false
  end.

(** [s.includes(p)]: [p] occurs at some offset of [s]. *)
Fixpoint includes (s p : string) : bool :=
  startsWith p s ||
  match s with
  | EmptyString => false
  | String _ s' => includes s' p
  end.

(** [s === ""] *)
Definition is_empty (s : string) : bool :=
  match s with EmptyString => true | _ => false end.

End Str.

(* ================================================================== *)
(** * The qualifying-response predicate *)

(** [isFetchFlightsAPI(url)], lines 297-303. *)
Definition isFetchFlightsAPI (url : string) : bool :=
  Str.includes url "/api/flight/FetchFlights" ||
  Str.includes url "FetchFlights" ||
  (Str.includes url "united.com" && Str.includes url "/api/flight/").

(* ================================================================== *)
(** * JavaScript values, as [JSON.parse] produces them *)

Module Js.

Inductive value : Type :=
| VUndefined
| VNull
| VBool (b : bool)
| VNum (n : float)
| VStr (s : string)
| VArr (items : list value)
| VObj (fields : list (string * value)).

(** A thrown value: an [Error] object with its [name] and [message]. *)
Record error : Type := mkError { name : string; message : string }.

Definition TypeError (msg : string) : error := mkError "TypeError" msg.
Definition ReferenceError (msg : string) : error := mkError "ReferenceError" msg.
(** [new Error(msg)] *)
Definition Error (msg : string) : error := mkError "Error" msg.

Inductive result (A : Type) : Type :=
| Ok (a : A)
| Throw (e : error).
Arguments Ok {A} a.
Arguments Throw {A} e.

Definition bind {A B} (r : result A) (k : A -> result B) : result B :=
  match r with
  | Ok a => k a
  | Throw e => Throw e
  end.

(** ToBoolean *)
Definition truthy (v : value) : bool :=
  match v with
  | VUndefined | VNull => false
  | VBool b => b
  | VNum n => negb (PrimFloat.is_zero n || PrimFloat.is_nan n)
  | VStr s => negb (Str.is_empty s)
  | VArr _ | VObj _ => true
  end.

(** [Array.isArray(v)] *)
Definition isArray (v : value) : bool :=
  match v with VArr _ => true | _ => false end.

(** [typeof v === "object"] *)
Definition typeof_object (v : value) : bool :=
  match v with VNull | VArr _ | VObj _ => true | _ => false end.

Fixpoint lookup (k : string) (fields : list (string * value)) : value :=
  match fields with
  | [] => VUndefined
  | (k', v) :: rest => if String.eqb k k' then v else lookup k rest
  end.

(** [v.k], for a name [k] that no prototype defines (every property the
    program reads from a payload is such a name: [Trips], [data],
    [Origin], ...).  Reading from [undefined] or [null] throws; an object
    answers with its own property; every other value answers
    [undefined]. *)
Definition get (v : value) (k : string) : result value :=
  match v with
  | VUndefined =>
      Throw (TypeError ("Cannot read properties of undefined (reading '" ++ k ++ "')"))
  | VNull =>
      Throw (TypeError ("Cannot read properties of null (reading '" ++ k ++ "')"))
  | VObj fields => Ok (lookup k fields)
  | _ => Ok VUndefined
  end.

(** [a || b] with [b] already evaluated (used where [b] cannot throw). *)
Definition or_else (a b : value) : value := if truthy a then a else b.

(** The values a [for (const x of v)] loop visits: the elements of an
    array, the characters of a string; anything else is not iterable. *)
Fixpoint chars (s : string) : list value :=
  match s with
  | EmptyString => []
  | String c s' => VStr (String c EmptyString) :: chars s'
  end.

Definition iterate (what : string) (v : value) : result (list value) :=
  match v with
  | VArr items => Ok items
  | VStr s => Ok (chars s)
  | _ => Throw (TypeError (what ++ " is not iterable"))
  end.

(** [xs.map(f)] where [f] may throw: stops at the first exception. *)
Fixpoint mapM {A B} (f : A -> result B) (xs : list A) : result (list B) :=
  match xs with
  | [] => Ok []
  | x :: xs' => bind (f x) (fun y => bind (mapM f xs') (fun ys => Ok (y :: ys)))
  end.

(** [v.map(f)] for a payload value [v]: only arrays have a callable
    [map]. *)
Definition array_map {B} (what : string) (v : value) (f : value -> result B)
  : result (list B) :=
  match v with
  | VArr items => mapM f items
  | _ => Throw (TypeError (what ++ ".map is not a function"))
  end.

End Js.
Import Js.

Declare Scope result_scope.
Delimit Scope result_scope with result.
Notation "x <- c ;; k" := (Js.bind c (fun x => k))
  (at level 61, c at next level, right associativity) : result_scope.

(* ================================================================== *)
(** * The data model *)

(** The item pushed by the response handler (lines 255-262). *)
Record CapturedResponse : Type := mkCapture {
  url : string;
  timestamp : Z;
  status : Z;
  headers : list (string * string);
  data : value;
  size : nat
}.

(** The item pushed by the request-failure handler (lines 216-220). *)
Record FailedRequestRecord : Type := mkFailed {
  failed_url : string;
  failed_error : string;
  failed_timestamp : Z
}.

(** The fields of a [UnitedFlightSearcher] instance.  The constructor does
    not create [failedRequests]: it is [undefined] ([None]) until
    [setupInterception] assigns it. *)
Record UnitedFlightSearcher : Type := mkSearcher {
  headless : bool;
  timeout : Z;
  interceptedData : list CapturedResponse;
  saveResponses : bool;
  outputDir : string;
  failedRequests : option (list FailedRequestRecord)
}.

Definition set_interceptedData (l : list CapturedResponse)
  (this : UnitedFlightSearcher) : UnitedFlightSearcher :=
  mkSearcher (headless this) (timeout this) l (saveResponses this)
             (outputDir this) (failedRequests this).

Definition set_failedRequests (l : option (list FailedRequestRecord))
  (this : UnitedFlightSearcher) : UnitedFlightSearcher :=
  mkSearcher (headless this) (timeout this) (interceptedData this)
             (saveResponses this) (outputDir this) l.

(** ** The normalised result *)

Record FareOption : Type := mkFare {
  fare_type : value;
  fare_description : value;
  fare_fareFamily : value;
  fare_isRefundable : value;
  fare_cabinClass : value;
  fare_fareContent : value;
  fare_marketingText : value
}.

Record AirportPrice : Type := mkPrice {
  price_airport : value;
  price_description : value;
  price_price : float;
  price_currency : value;
  price_fareFamily : value
}.

Record Equipment : Type := mkEquipment {
  equipment_code : value;
  equipment_description : value
}.

Record SearchFilters : Type := mkFilters {
  priceRange_min : value;
  priceRange_max : value;
  priceRange_currency : value;
  duration_min : value;
  duration_max : value;
  stops_min : value;
  stops_max : value;
  carriers_marketing : value;
  carriers_operating : value
}.

(** [searchFilters] is [None] for the initial [{}]. *)
Record FlightOption : Type := mkFlight {
  tripIndex : value;
  origin : value;
  destination : value;
  originDecoded : value;
  destinationDecoded : value;
  departDate : value;
  departTime : value;
  fares : list FareOption;
  pricing : list AirportPrice;
  aircraft : list Equipment;
  searchFilters : option SearchFilters
}.

Record SearchInfo : Type := mkSearchInfo {
  sessionId : value;
  lastCallDateTime : value;
  warnings : value;
  errors : value;
  marketingCarriers : value;
  operatingCarriers : value;
  searchStatus : value;
  version : value
}.

(** The two shapes of [metadata] that [parseInterceptedData] writes. *)
Inductive Metadata : Type :=
| MetaNoData (interceptedResponses : nat) (timestamp : Z)
| MetaCapture (interceptedResponses : nat) (responseTimestamp : Z)
              (responseSize : nat) (apiUrl : string) (parseTimestamp : Z).

(** The object [extractFlightInfo] / [parseInterceptedData] return; an
    absent property is [None]. *)
Record NormalizedResult : Type := mkResult {
  flights : list FlightOption;
  error : option string;
  searchInfo : option SearchInfo;
  rawData : option value;
  metadata : option Metadata
}.

Definition set_metadata (m : Metadata) (r : NormalizedResult) : NormalizedResult :=
  mkResult (flights r) (error r) (searchInfo r) (rawData r) (Some m).

(* ================================================================== *)
(** * The browser, the network and the machine state *)

(** What a [response] event carries before its body is read. *)
Record Response : Type := mkResponse {
  response_id : nat;
  response_url : string;
  response_status : Z;
  response_headers : list (string * string)
}.

(** Events of the page that the installed handlers observe.  [BodyRead id b]
    is the moment [response.text()] of response [id] settles, with the body
    or with an exception.  Outbound [request] events are left out: their
    handler continues the request and logs, and touches no field of the
    instance. *)
Inductive net_event : Type :=
| RequestFailed (url : string) (errorText : option string)
| ResponseReceived (r : Response)
| BodyRead (id : nat) (body : result string).

(** The two selector lists of [checkPageStateAndRetrigger]: the error
    elements (line 365) and the search button (line 386). *)
Inductive selector : Type := ErrorElements | SearchButton.

(** Calls into the browser-automation library, as they are issued. *)
Inductive host_call : Type :=
| Launch
| NewPage
| SetUserAgent
| SetExtraHTTPHeaders
| EvaluateOnNewDocument
| SetViewport
| SetRequestInterception
| Goto (url : string)
| WaitFor (ms : Z)
| Title
| Query (selector : selector)
| Click
| WaitForTimeout (ms : Z)
| NavigationEntry
| FillForm
| SubmitForm
| Close.

(** Lines written with [console.log]. *)
Inductive log_entry : Type :=
| LogNavigating (url : string)
| LogTryingForm
| LogAttempt (attempt maxRetries : nat)
| LogLoaded (title : string)
| LogAttemptFailed (attempt : nat) (msg : string)
| LogApiResponse (status : Z) (url : string)
| LogBadStatus (status : Z) (url : string)
| LogEmptyBody (url : string)
| LogIntercepted (status : Z)
| LogSize (size : nat)
| LogParseFailed (url msg : string)
| LogStatus (status : Z)
| LogPartial (body : string)
| LogNoBody (msg : string)
| LogRequestFailed (url : string)
| LogFailureReason (reason : string)
| LogWaiting
| LogReceived (count : nat)
| LogCompleted
| LogFailedCount (count : nat)
| LogFailedRequest (url error : string)
| LogSearchButton
| LogRetriggered
| LogCouldNotClick (msg : string)
| LogPageLoadStatus (type : string)
| LogPageStateError (msg : string).

(** How the browser answers.  The virtual clock advances only by the delays
    the program asks for, and those timers are assumed to fire: a delay
    ([waitFor]) always completes. *)
Record Browser : Type := mkBrowser {
  reply : host_call -> result unit;          (* calls that return nothing *)
  goto_result : nat -> result unit;          (* the n-th page.goto, from 1 *)
  title_result : nat -> result string;       (* page.title() after the n-th goto *)
  query_result : selector -> Z -> result bool; (* page.$(selector) at an instant: found? *)
  click_result : Z -> result unit;
  navigation_type : Z -> result (option string)
}.

Record Machine : Type := mkMachine {
  this : UnitedFlightSearcher;
  now : Z;                          (* the virtual clock, ms *)
  console : list log_entry;         (* oldest first *)
  calls : list host_call;           (* oldest first *)
  network : list (Z * net_event);   (* events to come, with their instants *)
  listening : bool;                 (* the handlers are installed on the page *)
  reading : list Response;          (* handlers suspended in [await response.text()] *)
  gotos : nat                       (* page.goto calls so far *)
}.

Definition set_this (x : UnitedFlightSearcher) (m : Machine) : Machine :=
  mkMachine x (now m) (console m) (calls m) (network m) (listening m) (reading m) (gotos m).
Definition set_now (x : Z) (m : Machine) : Machine :=
  mkMachine (this m) x (console m) (calls m) (network m) (listening m) (reading m) (gotos m).
Definition set_console (x : list log_entry) (m : Machine) : Machine :=
  mkMachine (this m) (now m) x (calls m) (network m) (listening m) (reading m) (gotos m).
Definition set_calls (x : list host_call) (m : Machine) : Machine :=
  mkMachine (this m) (now m) (console m) x (network m) (listening m) (reading m) (gotos m).
Definition set_network (x : list (Z * net_event)) (m : Machine) : Machine :=
  mkMachine (this m) (now m) (console m) (calls m) x (listening m) (reading m) (gotos m).
Definition set_listening (x : bool) (m : Machine) : Machine :=
  mkMachine (this m) (now m) (console m) (calls m) (network m) x (reading m) (gotos m).
Definition set_reading (x : list Response) (m : Machine) : Machine :=
  mkMachine (this m) (now m) (console m) (calls m) (network m) (listening m) x (gotos m).
Definition set_gotos (x : nat) (m : Machine) : Machine :=
  mkMachine (this m) (now m) (console m) (calls m) (network m) (listening m) (reading m) x.

Definition say (e : log_entry) (m : Machine) : Machine :=
  set_console (console m ++ [e]) m.
Definition record_call (c : host_call) (m : Machine) : Machine :=
  set_calls (calls m ++ [c]) m.

(** ** Computations on the machine *)

(** How a computation ends: it returns, it throws, or the model's fuel ran
    out before it did either. *)
Inductive completion (A : Type) : Type :=
| Returns (a : A)
| Throws (e : Js.error)
| Unfinished.
Arguments Returns {A} a.
Arguments Throws {A} e.
Arguments Unfinished {A}.

Definition M (A : Type) : Type := Machine -> completion A * Machine.

Definition ret {A} (a : A) : M A := fun m => (Returns a, m).
Definition throw {A} (e : Js.error) : M A := fun m => (Throws e, m).
Definition unfinished {A} : M A := fun m => (Unfinished, m).

Definition bindM {A B} (c : M A) (k : A -> M B) : M B :=
  fun m =>
    match c m with
    | (Returns a, m') => k a m'
    | (Throws e, m') => (Throws e, m')
    | (Unfinished, m') => (Unfinished, m')
    end.

(** [try { c } catch (e) { h e }] *)
Definition try_catch {A} (c : M A) (h : Js.error -> M A) : M A :=
  fun m =>
    match c m with
    | (Throws e, m') => h e m'
    | other => other
    end.

(** [try { c } finally { f }]: [f] runs however [c] ends; an exception of
    [f] replaces the completion of [c]. *)
Definition try_finally {A} (c : M A) (f : M unit) : M A :=
  fun m =>
    match c m with
    | (Unfinished, m') => (Unfinished, m')
    | (r, m') =>
        match f m' with
        | (Returns _, m'') => (r, m'')
        | (Throws e, m'') => (Throws e, m'')
        | (Unfinished, m'') => (Unfinished, m'')
        end
    end.

Definition lift {A} (r : result A) : M A :=
  match r with
  | Ok a => ret a
  | Throw e => throw e
  end.

Definition update (f : Machine -> Machine) : M unit := fun m => (Returns tt, f m).
Definition read {A} (f : Machine -> A) : M A := fun m => (Returns (f m), m).

Declare Scope machine_scope.
Delimit Scope machine_scope with machine.
Notation "x <- c ;; k" := (bindM c (fun x => k))
  (at level 61, c at next level, right associativity) : machine_scope.
Notation "c ;; k" := (bindM c (fun _ => k))
  (at level 61, right associativity) : machine_scope.

(** A computation relates every state to the state it leaves. *)
Definition preserves (R : Machine -> Machine -> Prop) {A} (c : M A) : Prop :=
  forall m, R m (snd (c m)).

(** A computation ends (within the model's fuel). *)
Definition finishes {A} (c : M A) : Prop :=
  forall m, fst (c m) <> Unfinished.

(** A computation lets no exception out. *)
Definition never_throws {A} (c : M A) : Prop :=
  forall m e, fst (c m) <> Throws e.

(** The clock never runs backwards. *)
Definition later (m m' : Machine) : Prop := (now m <= now m')%Z.

(** The trace of browser calls only grows. *)
Definition extends_calls (m m' : Machine) : Prop :=
  exists added, calls m' = (calls m ++ added)%list.

(** The capture list only grows, at its end. *)
Definition extends_captures (m m' : Machine) : Prop :=
  exists added,
    interceptedData (this m') = (interceptedData (this m) ++ added)%list.

(** The captures are in the order of their timestamps (the instants at
    which their bodies had been read), none of them in the future. *)
Definition chronological (m : Machine) : Prop :=
  Sorted.StronglySorted Z.le (map timestamp (interceptedData (this m))) /\
  Forall (fun c => (timestamp c <= now m)%Z) (interceptedData (this m)).

Definition stays_chronological (m m' : Machine) : Prop :=
  chronological m -> chronological m'.

(** What the completion detector can see of a machine: the instant, the
    number of captures, the events to come; the handlers are installed and
    none of them is waiting for a body. *)
Definition observes (m : Machine) (t : Z) (n : nat)
  (net : list (Z * net_event)) : Prop :=
  now m = t /\ listening m = true /\ reading m = [] /\
  List.length (interceptedData (this m)) = n /\ network m = net.

(** A response that the handler will capture once its body [body] is
    read. *)
Definition capturable (trim : string -> string)
  (JSON_parse : string -> result value) (r : Response) (body : string) : Prop :=
  isFetchFlightsAPI (response_url r) = true /\ response_status r = 200%Z /\
  Str.is_empty body || Str.is_empty (trim body) = false /\
  exists payload, JSON_parse body = Ok payload.

(** [`${n}`] for a count. *)
Definition show (n : nat) : string :=
  DecimalString.NilEmpty.string_of_uint (Nat.to_uint n).

(* ================================================================== *)
(** * The URL builder: [urlBuilder.js] *)

Module UnitedURLBuilder.

Local Open Scope result_scope.

(** Built-ins of the host that the builder calls.  [String_of] is
    [String(v)] for a value that is not a string; [Date_iso v] is
    [new Date(v).toISOString().split('T')[0]], and [None] when the date is
    invalid; [native_text k] is the text of the member [k] of
    [Object.prototype]; [URL_searchParams] is [new URL(url).searchParams],
    as the list of its pairs. *)
Record Builtins : Type := mkBuiltins {
  toUpperCase : string -> string;
  toLowerCase : string -> string;
  String_of : value -> string;
  Date_iso : value -> option string;
  native_text : string -> string;
  URLSearchParams_toString : list (string * string) -> string;
  URL_searchParams : string -> result (list (string * string));
  parseInt : option string -> float
}.

(** ** The tables of the constructor, lines 2-29 *)

Definition baseUrl : string := "https://www.united.com/en/us/fsr/choose-flights".

Definition cabinClasses : list (string * nat) :=
  [("economy", 1); ("premium-economy", 2); ("business", 3); ("first", 7);
   ("premium", 7)].

Definition sortTypes : list (string * string) :=
  [("bestmatches", "bestmatches"); ("price", "price"); ("duration", "duration");
   ("departure", "departure"); ("arrival", "arrival")].

Definition tripTypes : list (string * string) :=
  [("roundtrip", "R"); ("oneway", "O"); ("multicity", "M")].

(** ** Property access on an object literal *)

(** The own property [key] of a table. *)
Fixpoint own {A} (table : list (string * A)) (key : string) : option A :=
  match table with
  | [] => None
  | (k, v) :: rest => if String.eqb key k then Some v else own rest key
  end.

(** The names that every object inherits from [Object.prototype]. *)
Definition Object_prototype : list string :=
  ["constructor"; "hasOwnProperty"; "isPrototypeOf"; "propertyIsEnumerable";
   "toLocaleString"; "toString"; "valueOf"; "__defineGetter__";
   "__defineSetter__"; "__lookupGetter__"; "__lookupSetter__"; "__proto__"].

Definition inherited (key : string) : bool :=
  existsb (String.eqb key) Object_prototype.

(** [`${table[key] || default}`] for a table whose values, shown by
    [show], are all truthy: an own property, else an inherited member (a
    function or an object, hence truthy), else the default. *)
Definition entry {A} (H : Builtins) (show : A -> string)
  (table : list (string * A)) (key : string) (default : string) : string :=
  match own table key with
  | Some v => show v
  | None => if inherited key then native_text H key else default
  end.

(** [String(v)] *)
Definition text (H : Builtins) (v : value) : string :=
  match v with
  | VStr s => s
  | VUndefined => "undefined"
  | VNull => "null"
  | VBool true => "true"
  | VBool false => "false"
  | _ => String_of H v
  end.

(** ** [URLSearchParams] *)

Definition has_name (name : string) (p : string * string) : bool :=
  String.eqb (fst p) name.

(** [params.set(name, value)]: the first pair named [name] takes the
    value and the others go; without such a pair, one is appended. *)
Fixpoint set_first (name value : string) (params : list (string * string))
  : list (string * string) :=
  match params with
  | [] => []
  | p :: rest =>
      if has_name name p
      then (fst p, value) :: filter (fun q => negb (has_name name q)) rest
      else p :: set_first name value rest
  end.

Definition params_set (name value : string) (params : list (string * string))
  : list (string * string) :=
  if existsb (has_name name) params then set_first name value params
  else (params ++ [(name, value)])%list.

(** [params.get(name)], [None] for [null]. *)
Definition param (name : string) (params : list (string * string)) : option string :=
  match find (has_name name) params with
  | Some p => Some (snd p)
  | None => None
  end.

(** ** [formatDestination], lines 97-119 *)

Definition is_capital (c : ascii) : bool :=
  (65 <=? nat_of_ascii c)%nat && (nat_of_ascii c <=? 90)%nat.

(** [destination.length === 3 && /^[A-Z]{3}$/.test(destination)] *)
Definition is_airport_code (s : string) : bool :=
  match s with
  | String a (String b (String c EmptyString)) =>
      is_capital a && is_capital b && is_capital c
  | _ => false
  end.

Definition cityMap : list (string * string) :=
  [("NYC", "NEW YORK, NY, US"); ("LAX", "LOS ANGELES, CA, US");
   ("CHI", "CHICAGO, IL, US"); ("WAS", "WASHINGTON, DC, US");
   ("SFO", "SAN FRANCISCO, CA, US"); ("BOS", "BOSTON, MA, US");
   ("MIA", "MIAMI, FL, US"); ("LAS", "LAS VEGAS, NV, US");
   ("SEA", "SEATTLE, WA, US"); ("DEN", "DENVER, CO, US")].

(** The default [true] of the parameter [useAllAirports] stands for
    [undefined] only. *)
Definition all_airports (useAllAirports : value) : bool :=
  match useAllAirports with
  | VUndefined => true
  | v => truthy v
  end.

(** A value that is not a string has no [length] of 3 that the pattern
    matches (an array of three elements reads as text with two commas), so
    it is returned as it is; [undefined] and [null] have no [length]. *)
Definition formatDestination (H : Builtins) (destination useAllAirports : value)
  : result value :=
  match destination with
  | VUndefined =>
      Throw (TypeError "Cannot read properties of undefined (reading 'length')")
  | VNull =>
      Throw (TypeError "Cannot read properties of null (reading 'length')")
  | VStr s =>
      if is_airport_code s then
        let cityName := entry H (fun city => city) cityMap (toUpperCase H s)
                              (toUpperCase H s) in
        Ok (VStr (if all_airports useAllAirports
                  then cityName ++ " (ALL AIRPORTS)" else cityName))
      else Ok destination
  | _ => Ok destination
  end.

(** ** [formatDate], lines 124-135 *)

Definition is_digit (c : ascii) : bool :=
  (48 <=? nat_of_ascii c)%nat && (nat_of_ascii c <=? 57)%nat.

Definition is_hyphen (c : ascii) : bool := Ascii.eqb c "-"%char.

(** [/^\d{4}-\d{2}-\d{2}$/.test(s)] *)
Definition is_iso_date (s : string) : bool :=
  match s with
  | String y1 (String y2 (String y3 (String y4 (String h1 (String m1 (String m2
      (String h2 (String d1 (String d2 EmptyString))))))))) =>
      is_digit y1 && is_digit y2 && is_digit y3 && is_digit y4 && is_hyphen h1 &&
      is_digit m1 && is_digit m2 && is_hyphen h2 && is_digit d1 && is_digit d2
  | _ => false
  end.

Definition formatDate (H : Builtins) (dateInput : value) : result string :=
  match dateInput with
  | VStr s =>
      if is_iso_date s then Ok s
      else match Date_iso H dateInput with
           | Some day => Ok day
           | None => Throw (Error ("Invalid date: " ++ s))
           end
  | _ =>
      match Date_iso H dateInput with
      | Some day => Ok day
      | None => Throw (Error ("Invalid date: " ++ text H dateInput))
      end
  end.

(** ** [addAdvancedParams], lines 140-186 *)

Definition timeMap : list (string * string) :=
  [("morning", "M"); ("afternoon", "A"); ("evening", "E"); ("night", "N")].

(** [if (advanced.k) params.set(name, '1')] *)
Definition flag (advanced : value) (k name : string)
  (params : list (string * string)) : result (list (string * string)) :=
  v <- get advanced k ;;
  Ok (if truthy v then params_set name "1" params else params).

(** [if (advanced.k) params.set(name, advanced.k)] *)
Definition code (H : Builtins) (advanced : value) (k name : string)
  (params : list (string * string)) : result (list (string * string)) :=
  v <- get advanced k ;;
  Ok (if truthy v then params_set name (text H v) params else params).

(** [s.toLowerCase()] for a truthy [s]: only a string has the method. *)
Definition lower (H : Builtins) (what : string) (v : value) : result string :=
  match v with
  | VStr s => Ok (toLowerCase H s)
  | _ => Throw (TypeError (what ++ ".toLowerCase is not a function"))
  end.

Definition addAdvancedParams (H : Builtins) (params : list (string * string))
  (advanced : value) : result (list (string * string)) :=
  params <- flag advanced "flexibleDates" "fd" params ;;
  params <- flag advanced "nonstopOnly" "ns" params ;;
  timeOfDay <- get advanced "timeOfDay" ;;
  params <- (if truthy timeOfDay then
               key <- lower H "advanced.timeOfDay" timeOfDay ;;
               Ok (params_set "tod" (entry H (fun c => c) timeMap key "A") params)
             else Ok params) ;;
  params <- flag advanced "awardTravel" "at" params ;;
  params <- flag advanced "refundableOnly" "rf" params ;;
  params <- flag advanced "bookWithMiles" "bwm" params ;;
  params <- code H advanced "corporateCode" "cc" params ;;
  code H advanced "promoCode" "pc" params.

(** ** [buildURL], lines 46-92 *)

(** The error of line 48. *)
Definition required : Js.error := Error "Required parameters: from, to, departDate".

(** [options.cabinClass?.toLowerCase()], as a property key. *)
Definition cabin_key (H : Builtins) (cabinClass : value) : result string :=
  match cabinClass with
  | VUndefined | VNull => Ok "undefined"
  | VStr s => Ok (toLowerCase H s)
  | _ => Throw (TypeError "options.cabinClass?.toLowerCase is not a function")
  end.

(** The pairs that [buildURL] puts into [params], in their order. *)
Definition build_params (H : Builtins) (options : value)
  : result (list (string * string)) :=
  from <- get options "from" ;;
  to <- get options "to" ;;
  departDate <- get options "departDate" ;;
  if negb (truthy from) || negb (truthy to) || negb (truthy departDate) then
    Throw required
  else
    f <- match from with
         | VStr s => Ok (toUpperCase H s)
         | _ => Throw (TypeError "options.from.toUpperCase is not a function")
         end ;;
    let params := params_set "f" f [] in
    useAllAirports <- get options "useAllAirports" ;;
    t <- formatDestination H to useAllAirports ;;
    let params := params_set "t" (text H t) params in
    d <- formatDate H departDate ;;
    let params := params_set "d" d params in
    returnDate <- get options "returnDate" ;;
    params <- (if truthy returnDate
               then r <- formatDate H returnDate ;; Ok (params_set "r" r params)
               else Ok params) ;;
    tripType <- get options "tripType" ;;
    let tripType := if truthy tripType then text H tripType
                    else if truthy returnDate then "roundtrip" else "oneway" in
    let params := params_set "tqp" (entry H (fun c => c) tripTypes tripType "O") params in
    passengers <- get options "passengers" ;;
    let params := params_set "px" (if truthy passengers then text H passengers else "1")
                      params in
    cabinClass <- get options "cabinClass" ;;
    key <- cabin_key H cabinClass ;;
    let cabinCode := entry H show cabinClasses key "1" in
    let params := params_set "ct" cabinCode params in
    let params := params_set "clm" cabinCode params in
    let params := params_set "sc" (cabinCode ++ "," ++ cabinCode) params in
    sortBy <- get options "sortBy" ;;
    let params := params_set "st" (entry H (fun c => c) sortTypes (text H sortBy)
                                  "bestmatches") params in
    let params := params_set "taxng" "1" params in
    let params := params_set "newHP" "True" params in
    advanced <- get options "advanced" ;;
    if truthy advanced then addAdvancedParams H params advanced else Ok params.

Definition buildURL (H : Builtins) (options : value) : result string :=
  params <- build_params H options ;;
  Ok (baseUrl ++ "?" ++ URLSearchParams_toString H params).

(** ** [buildOneWayURL], [buildRoundTripURL], [buildMultiCityURL],
    lines 191-222 *)

(** The own properties that [...options] copies.  (The index properties
    that a string or an array would add are none of the names that
    [buildURL] reads.) *)
Definition spread (options : value) : list (string * value) :=
  match options with
  | VObj fields => fields
  | _ => []
  end.

(** [{ from, to, departDate, tripType: 'oneway', ...options }]: a property
    of [options] replaces the one written before the spread. *)
Definition oneWay_options (from to departDate options : value) : value :=
  VObj (spread options ++
        [("from", from); ("to", to); ("departDate", departDate);
         ("tripType", VStr "oneway")]).

Definition buildOneWayURL (H : Builtins) (from to departDate options : value)
  : result string :=
  buildURL H (oneWay_options from to departDate options).

Definition roundTrip_options (from to departDate returnDate options : value)
  : value :=
  VObj (spread options ++
        [("from", from); ("to", to); ("departDate", departDate);
         ("returnDate", returnDate); ("tripType", VStr "roundtrip")]).

Definition buildRoundTripURL (H : Builtins)
  (from to departDate returnDate options : value) : result string :=
  buildURL H (roundTrip_options from to departDate returnDate options).

Definition buildMultiCityURL (segments options : value) : result string :=
  Throw (Error "Multi-city URL building not yet implemented").

(** ** [parseURL] and [reverseLookup], lines 227-254 *)

(** [Object.keys(mapping).find(key => mapping[key] === value)] *)
Definition reverseLookup {A V} (same : A -> V -> bool)
  (mapping : list (string * A)) (value : V) : option string :=
  match find (fun p => same (snd p) value) mapping with
  | Some p => Some (fst p)
  | None => None
  end.

(** [s === v] for a string [s] and the answer [v] of [params.get]. *)
Definition same_text (s : string) (v : option string) : bool :=
  match v with
  | Some t => String.eqb s t
  | None => false
  end.

(** The number [n]. *)
Fixpoint number (n : nat) : float :=
  match n with
  | O => PrimFloat.zero
  | S k => PrimFloat.add (number k) PrimFloat.one
  end.

(** [n === x] for a code [n] of the table and a number [x]. *)
Definition same_number (n : nat) (x : float) : bool := PrimFloat.eqb (number n) x.

Record Parsed : Type := mkParsed {
  parsed_from : option string;
  parsed_to : option string;
  parsed_departDate : option string;
  parsed_returnDate : option string;
  parsed_passengers : float;
  parsed_tripType : option string;
  parsed_sortBy : option string;
  parsed_cabinClass : option string
}.

Definition parseURL (H : Builtins) (url : string) : result Parsed :=
  match URL_searchParams H url with
  | Throw error => Throw (Error ("Invalid URL: " ++ message error))
  | Ok params =>
      let px := parseInt H (param "px" params) in
      Ok (mkParsed (param "f" params) (param "t" params) (param "d" params)
                   (param "r" params)
                   (if truthy (VNum px) then px else PrimFloat.one)
                   (reverseLookup same_text tripTypes (param "tqp" params))
                   (reverseLookup same_text sortTypes (param "st" params))
                   (reverseLookup same_number cabinClasses
                                  (parseInt H (param "ct" params))))
  end.

(** ** Notions used to state what the builder does *)

(** [options] has an own property [key]. *)
Definition has_own (options : value) (key : string) : bool :=
  existsb (fun p => String.eqb key (fst p)) (spread options).

(** The names that [addAdvancedParams] sets. *)
Definition advanced_names : list string :=
  ["fd"; "ns"; "tod"; "at"; "rf"; "bwm"; "cc"; "pc"].

(** The trip type that [buildURL] goes by: the option when it is truthy,
    else the one the return date tells. *)
Definition resolved_tripType (H : Builtins) (tripType returnDate : value)
  : string :=
  if truthy tripType then text H tripType
  else if truthy returnDate then "roundtrip" else "oneway".

End UnitedURLBuilder.

(* ================================================================== *)
(** * Saving the captures *)

(** [saveResponseToFile], lines 421-453. *)

(** What the method asks of Node: [path.join], the text of
    [JSON.stringify(dataToSave, null, 2)] for a capture and of
    [JSON.stringify(data, null, 2)] for its payload, [toISOString] of an
    instant, and the exception of [fs.writeFileSync] on a path, if it throws
    one. *)
Record Disk : Type := mkDisk {
  path_join : string -> string -> string;
  stringify_record : CapturedResponse -> string;
  stringify_data : value -> string;
  toISOString : Z -> string;
  write_error : string -> option Js.error
}.

(** The files written so far, the last write first. *)
Definition Files : Type := list (string * string).

Definition file (path : string) (files : Files) : option string :=
  match find (fun f => String.eqb (fst f) path) files with
  | Some f => Some (snd f)
  | None => None
  end.

(** [fs.writeFileSync(path, text)]: the file is written unless the call
    throws. *)
Definition writeFileSync (D : Disk) (path text : string) (files : Files)
  : result unit * Files :=
  match write_error D path with
  | Some e => (Throw e, files)
  | None => (Ok tt, (path, text) :: files)
  end.

(** [s.replace(/[:.]/g, "-")] *)
Fixpoint dashes (s : string) : string :=
  match s with
  | EmptyString => EmptyString
  | String c s' =>
      String (if Ascii.eqb c ":"%char || Ascii.eqb c "."%char then "-"%char else c)
             (dashes s')
  end.

(** [s.replace(pattern, replacement)] for a pattern that is a string: its
    first occurrence is replaced. *)
Fixpoint replace_first (pattern replacement s : string) : string :=
  if Str.startsWith pattern s
  then replacement ++ substring (String.length pattern) (String.length s) s
  else match s with
       | EmptyString => EmptyString
       | String c s' => String c (replace_first pattern replacement s')
       end.

(** [filename.replace(".json", "_simple.json")] *)
Definition simple_name (filename : string) : string :=
  replace_first ".json" "_simple.json" filename.

(** [options.filename || `united_flights_${timestamp}.json`], as the
    argument of [path.join], which takes nothing but a string; [t] is the
    instant of [new Date()]. *)
Definition save_name (D : Disk) (options : value) (t : Z) : result string :=
  Js.bind (match options with
           | VUndefined => Ok VUndefined
           | _ => get options "filename"
           end)
    (fun given =>
       if truthy given then
         match given with
         | VStr name => Ok name
         | _ => Throw (TypeError "The path argument must be of type string")
         end
       else Ok ("united_flights_" ++ dashes (toISOString D t) ++ ".json")).

(** The body of the [try]. *)
Definition save_attempt (D : Disk) (outputDir : string)
  (interceptedItem : CapturedResponse) (options : value) (t : Z) (files : Files)
  : result unit * Files :=
  match save_name D options t with
  | Throw e => (Throw e, files)
  | Ok filename =>
      match writeFileSync D (path_join D outputDir filename)
              (stringify_record D interceptedItem) files with
      | (Throw e, files) => (Throw e, files)
      | (Ok _, files) =>
          writeFileSync D (path_join D outputDir (simple_name filename))
            (stringify_data D (data interceptedItem)) files
      end
  end.

(** [saveResponseToFile(interceptedItem, options)]: the [catch] only logs. *)
Definition saveResponseToFile (D : Disk) (outputDir : string)
  (interceptedItem : CapturedResponse) (options : value) (t : Z) (files : Files)
  : Files :=
  snd (save_attempt D outputDir interceptedItem options t files).

(** The files after the captures of a list have been saved, one after the
    other, each at the instant of its timestamp (the handler saves a capture
    as soon as it has pushed it, lines 264-268). *)
Definition save_all (D : Disk) (outputDir : string) (options : value)
  (captures : list CapturedResponse) (files : Files) : Files :=
  fold_left (fun files item =>
               saveResponseToFile D outputDir item options (timestamp item) files)
            captures files.

(** A sample host, for running the program on concrete inputs. *)
Module Sample.

(** [trim] over the white space of the first 256 code units. *)
Definition is_space (c : ascii) : bool :=
  let n := nat_of_ascii c in
  ((9 <=? n)%nat && (n <=? 13)%nat) || (n =? 32)%nat || (n =? 160)%nat.

Fixpoint trim_start (s : string) : string :=
  match s with
  | String c s' => if is_space c then trim_start s' else s
  | EmptyString => EmptyString
  end.

Fixpoint trim_end (s : string) : string :=
  match s with
  | EmptyString => EmptyString
  | String c s' =>
      match trim_end s' with
      | EmptyString => if is_space c then EmptyString else String c EmptyString
      | t => String c t
      end
  end.

Definition trim (s : string) : string := trim_end (trim_start s).

(** [parseFloat] on the values the samples pass to it: a number is its own
    reading; [undefined] reads as NaN. *)
Definition parseFloat (v : value) : result float :=
  match v with
  | VNum n => Ok n
  | _ => Ok PrimFloat.nan
  end.

(** [JSON.parse] on the bodies the samples use. *)
Definition JSON_parse (body : string) : result value :=
  if String.eqb body "{}" then Ok (VObj [])
  else if String.eqb body "[]" then Ok (VArr [])
  else Throw (mkError "SyntaxError" "Unexpected token").

(** A browser in which every call succeeds, every page has the title
    ["United"], and no element is ever found. *)
Definition browser : Browser :=
  mkBrowser (fun _ => Ok tt) (fun _ => Ok tt) (fun _ => Ok "United")
            (fun _ _ => Ok false) (fun _ => Ok tt) (fun _ => Ok None).

Definition searcher : UnitedFlightSearcher :=
  mkSearcher true 60000 [] false "./flight_data" None.

Definition machine (net : list (Z * net_event)) : Machine :=
  mkMachine searcher 0 [] [] net false [] 0.

(** The machine once [setupInterception] has run on a new page. *)
Definition listening_machine (failed : list FailedRequestRecord)
  (net : list (Z * net_event)) : Machine :=
  mkMachine (set_failedRequests (Some failed) searcher) 0 [] [] net true [] 0.

Definition endpoint : string := "https://www.united.com/api/flight/FetchFlights".

(** Two responses of the endpoint, told apart by their query strings. *)
Definition response_A : Response := mkResponse 1 (endpoint ++ "?page=1") 200 [].
Definition response_B : Response := mkResponse 2 (endpoint ++ "?page=2") 200 [].

(** The bodies of [response_A] and [response_B] are read at [a] and [b]. *)
Definition two_captures (a b : Z) : list (Z * net_event) :=
  [(a, ResponseReceived response_A); (a, BodyRead 1 (Ok "{}"));
   (b, ResponseReceived response_B); (b, BodyRead 2 (Ok "[]"))].

(** [response_A] arrives first, the body of [response_B] is read first. *)
Definition overtaking : list (Z * net_event) :=
  [(100%Z, ResponseReceived response_A); (200%Z, ResponseReceived response_B);
   (300%Z, BodyRead 2 (Ok "[]")); (400%Z, BodyRead 1 (Ok "{}"))].

Definition capture (n : nat) (instant : Z) (bytes : nat) : CapturedResponse :=
  mkCapture (endpoint ++ "?page=" ++ show n) instant 200 [] (VObj []) bytes.

(** An instance holding captures of sizes 100, 250, 250 and 80. *)
Definition four_captures : UnitedFlightSearcher :=
  set_interceptedData
    [capture 1 10 100; capture 2 20 250; capture 3 30 250; capture 4 40 80]
    searcher.

Definition failure : FailedRequestRecord :=
  mkFailed endpoint "net::ERR_HTTP2_PROTOCOL_ERROR" 10.

(** A browser whose every page loads with an error title. *)
Definition error_page_browser : Browser :=
  mkBrowser (fun _ => Ok tt) (fun _ => Ok tt) (fun _ => Ok "Error 503")
            (fun _ _ => Ok false) (fun _ => Ok tt) (fun _ => Ok None).

(** The exception of the [n]-th load of [unreachable_browser]. *)
Definition load_error (n : nat) : Js.error :=
  Js.Error ("net::ERR_CONNECTION_RESET at load " ++ show n).

(** A browser whose every load throws. *)
Definition unreachable_browser : Browser :=
  mkBrowser (fun _ => Ok tt) (fun n => Throw (load_error n)) (fun _ => Ok "United")
            (fun _ _ => Ok false) (fun _ => Ok tt) (fun _ => Ok None).

(** A browser whose first two loads throw and whose later loads succeed. *)
Definition recovering_browser : Browser :=
  mkBrowser (fun _ => Ok tt)
            (fun n => if (n <=? 2)%nat then Throw (load_error n) else Ok tt)
            (fun _ => Ok "United")
            (fun _ _ => Ok false) (fun _ => Ok tt) (fun _ => Ok None).

(** Trips of a payload: two well-formed ones, and one whose list of fare
    columns holds a [null]. *)
Definition trip_to (airport : string) : value :=
  VObj [("Origin", VStr "PHL"); ("Destination", VStr airport)].

Definition malformed_trip : value :=
  VObj [("Origin", VStr "PHL");
        ("ColumnInformation", VObj [("Columns", VArr [VNull])])].

(** ** A host for the URL builder *)

(** Case conversion of the letters of ASCII. *)
Definition upper_char (c : ascii) : ascii :=
  let n := nat_of_ascii c in
  if (97 <=? n)%nat && (n <=? 122)%nat then ascii_of_nat (n - 32) else c.

Definition lower_char (c : ascii) : ascii :=
  let n := nat_of_ascii c in
  if (65 <=? n)%nat && (n <=? 90)%nat then ascii_of_nat (n + 32) else c.

Fixpoint map_string (f : ascii -> ascii) (s : string) : string :=
  match s with
  | EmptyString => EmptyString
  | String c s' => String (f c) (map_string f s')
  end.

(** The serialisation of [application/x-www-form-urlencoded]. *)
Definition hex_digit (n : nat) : ascii :=
  match String.get n "0123456789ABCDEF" with
  | Some c => c
  | None => "0"%char
  end.

Definition is_unreserved (c : ascii) : bool :=
  let n := nat_of_ascii c in
  ((48 <=? n)%nat && (n <=? 57)%nat) || ((65 <=? n)%nat && (n <=? 90)%nat) ||
  ((97 <=? n)%nat && (n <=? 122)%nat) ||
  (n =? 42)%nat || (n =? 45)%nat || (n =? 46)%nat || (n =? 95)%nat.

Fixpoint url_encode (s : string) : string :=
  match s with
  | EmptyString => EmptyString
  | String c s' =>
      let n := nat_of_ascii c in
      if is_unreserved c then String c (url_encode s')
      else if (n =? 32)%nat then String "+"%char (url_encode s')
      else String "%"%char
             (String (hex_digit (n / 16)) (String (hex_digit (n mod 16))
                (url_encode s')))
  end.

Fixpoint url_serialize (params : list (string * string)) : string :=
  match params with
  | [] => EmptyString
  | [(k, v)] => url_encode k ++ "=" ++ url_encode v
  | (k, v) :: rest => url_encode k ++ "=" ++ url_encode v ++ "&" ++ url_serialize rest
  end.

(** The samples pass no number, array or object where text is wanted, no
    date in another form than [YYYY-MM-DD], and parse no URL. *)
Definition builtins : UnitedURLBuilder.Builtins :=
  UnitedURLBuilder.mkBuiltins
    (map_string upper_char) (map_string lower_char)
    (fun _ => "[object Object]")
    (fun _ => None)
    (fun name =>
       if String.eqb name "constructor" then "function Object() { [native code] }"
       else if String.eqb name "__proto__" then "[object Object]"
       else "function " ++ name ++ "() { [native code] }")
    url_serialize
    (fun _ => Throw (TypeError "Invalid URL"))
    (fun _ => PrimFloat.nan).

(** A search from Philadelphia to New York and back, in business class,
    without stops. *)
Definition options : value :=
  VObj [("from", VStr "phl"); ("to", VStr "NYC");
        ("departDate", VStr "2025-08-15"); ("returnDate", VStr "2025-08-17");
        ("cabinClass", VStr "Business");
        ("advanced", VObj [("nonstopOnly", VBool true)])].

(** ** A disk *)

(** A disk that accepts every write.  The texts stand for those of
    [JSON.stringify]: the record is told by the url of its capture, the
    payload is one of those the samples use. *)
Definition disk : Disk :=
  mkDisk (fun dir name => dir ++ "/" ++ name)
         (fun c => "record of " ++ url c)
         (fun v => match v with VArr _ => "[]" | _ => "{}" end)
         (fun t => show (Z.to_nat t))
         (fun _ => None).

End Sample.

(* ================================================================== *)
(** * The program *)

Section Engine.

(** Built-ins of the JavaScript host that the program calls and that are
    not part of the repository. *)
Context (trim : string -> string)            (* String.prototype.trim *)
        (parseFloat : value -> result float) (* parseFloat, after ToString *)
        (JSON_parse : string -> result value).

Local Open Scope result_scope.

(** ** Result normaliser: [extractFlightInfo], lines 496-622 *)

(** [a.k1 || a.k2] *)
Definition get_or (a : value) (k1 k2 : string) : result value :=
  x <- get a k1 ;;
  if truthy x then Ok x else get a k2.

(** [v?.trim()] *)
Definition optional_trim (what : string) (v : value) : result value :=
  match v with
  | VUndefined | VNull => Ok VUndefined
  | VStr s => Ok (VStr (trim s))
  | _ => Throw (TypeError (what ++ ".trim is not a function"))
  end.

(** The callback of [Columns.map], lines 538-546. *)
Definition fare_of (column : value) : result FareOption :=
  ty <- get column "Type" ;;
  description <- get column "Description" ;;
  fareFamily <- get column "FareFamily" ;;
  refundable <- get column "IsFullyRefundable" ;;
  label <- get column "DataSourceLabel" ;;
  cabinClass <- optional_trim "column.DataSourceLabel" label ;;
  fareContent <- get column "FareContentDescription" ;;
  marketingText <- get column "MarketingText" ;;
  Ok (mkFare ty description fareFamily (or_else refundable (VBool false))
             cabinClass fareContent marketingText).

(** The callback of [AirportsDestinationList.map], lines 555-561. *)
Definition price_of (dest : value) : result AirportPrice :=
  code <- get dest "Code" ;;
  description <- get dest "Description" ;;
  amount <- get dest "Amount" ;;
  parsed <- parseFloat amount ;;
  currency <- get dest "Currency" ;;
  fareFamily <- get dest "FareFamily" ;;
  Ok (mkPrice code description
              (if truthy (VNum parsed) then parsed else PrimFloat.zero)
              currency fareFamily).

(** The callback of [EquipmentList.map], lines 567-570. *)
Definition equipment_of (eq : value) : result Equipment :=
  code <- get eq "Code" ;;
  description <- get eq "Description" ;;
  Ok (mkEquipment code description).

(** Lines 576-594. *)
Definition filters_of (out : value) : result SearchFilters :=
  pmin <- get out "PriceMin" ;;
  pmax <- get out "PriceMax" ;;
  pcur <- get out "PriceMinCurrency" ;;
  dmin <- get out "DurationMin" ;;
  dmax <- get out "DurationMax" ;;
  smin <- get out "StopCountMin" ;;
  smax <- get out "StopCountMax" ;;
  cm <- get out "CarriersMarketing" ;;
  co <- get out "CarriersOperating" ;;
  Ok (mkFilters pmin pmax pcur dmin dmax smin smax cm co).

(** [if (base.k1 && base.k1.k2) r = base.k1.k2.map(f)], with [r] keeping
    its initial [[]] otherwise. *)
Definition map_under {B} (base : value) (k1 k2 : string)
  (f : value -> result B) : result (list B) :=
  a <- get base k1 ;;
  if truthy a then
    b <- get a k2 ;;
    if truthy b then array_map ("trip." ++ k1 ++ "." ++ k2) b f else Ok []
  else Ok [].

(** The body of the [for] loop for a truthy [trip], lines 522-597. *)
Definition flight_of (trip : value) : result FlightOption :=
  idx <- get_or trip "TripIndex" "Index" ;;
  orig <- get trip "Origin" ;;
  dest <- get trip "Destination" ;;
  origD <- get trip "OriginDecoded" ;;
  destD <- get trip "DestinationDecoded" ;;
  dDate <- get trip "DepartDate" ;;
  dTime <- get trip "DepartTime" ;;
  fares <- map_under trip "ColumnInformation" "Columns" fare_of ;;
  pricing <- map_under trip "SearchFiltersOut" "AirportsDestinationList" price_of ;;
  aircraft <- map_under trip "SearchFiltersOut" "EquipmentList" equipment_of ;;
  out <- get trip "SearchFiltersOut" ;;
  filters <- (if truthy out
              then f <- filters_of out ;; Ok (Some f)
              else Ok None) ;;
  Ok (mkFlight idx orig dest origD destD dDate dTime
               fares pricing aircraft filters).

(** The [for (const trip of trips)] loop: [flights] accumulates in order;
    an exception leaves the flights pushed so far. *)
Fixpoint collect (trips : list value) (flights : list FlightOption)
  : list FlightOption * option Js.error :=
  match trips with
  | [] => (flights, None)
  | trip :: rest =>
      if negb (truthy trip) then collect rest flights
      else match flight_of trip with
           | Ok f => collect rest (flights ++ [f])
           | Throw e => (flights, Some e)
           end
  end.

(** Lines 509-517: where the trip list is looked for. *)
Definition locate_trips (data : value) : result value :=
  top <- get data "Trips" ;;
  if truthy top && isArray top then Ok top
  else
    inner <- get data "data" ;;
    nested <- (if truthy inner then get inner "Trips" else Ok VUndefined) ;;
    if truthy inner && truthy nested then Ok nested
    else if isArray data then Ok data
    else Ok (VArr []).

Definition searchInfo_of (data : value) : result SearchInfo :=
  sid <- get data "SessionId" ;;
  last <- get data "LastCallDateTime" ;;
  warns <- get data "Warnings" ;;
  errs <- get data "Errors" ;;
  mc <- get data "MarketingCarriers" ;;
  oc <- get data "OperatingCarriers" ;;
  st <- get data "Status" ;;
  ver <- get data "Version" ;;
  Ok (mkSearchInfo sid last (or_else warns (VArr [])) (or_else errs (VArr []))
                   mc oc st ver).

(** The [catch] of [extractFlightInfo], lines 614-621. *)
Definition parse_failure (flights : list FlightOption) (data : value)
  (e : Js.error) : NormalizedResult :=
  mkResult flights (Some ("Failed to parse flight data: " ++ message e))
           None (Some data) None.

(** The [error] property after the loop ended with or without an exception. *)
Definition failure_marker (e : option Js.error) : option string :=
  match e with
  | Some e => Some ("Failed to parse flight data: " ++ message e)
  | None => None
  end.

Definition extractFlightInfo (data : value) : NormalizedResult :=
  if negb (truthy data) || negb (typeof_object data) then
    mkResult [] (Some "Invalid response data") None (Some data) None
  else
    match (trips <- locate_trips data ;; iterate "trips" trips) with
    | Throw e => parse_failure [] data e
    | Ok trips =>
        match collect trips [] with
        | (flights, Some e) => parse_failure flights data e
        | (flights, None) =>
            match searchInfo_of data with
            | Throw e => parse_failure flights data e
            | Ok info => mkResult flights None (Some info) (Some data) None
            end
        end
    end.

(** ** [parseInterceptedData], lines 458-491 *)

(** The callback of [reduce], line 476. *)
Definition larger (prev current : CapturedResponse) : CapturedResponse :=
  if Nat.ltb (size prev) (size current) then current else prev.

(** [now] is the instant [new Date()] reads. *)
Definition parseInterceptedData (this : UnitedFlightSearcher) (now : Z)
  : NormalizedResult :=
  match interceptedData this with
  | [] =>
      mkResult [] (Some "No data intercepted") None None
               (Some (MetaNoData 0 now))
  | first :: rest =>
      let latestData := fold_left larger rest first in
      let parsedResults := extractFlightInfo (data latestData) in
      set_metadata
        (MetaCapture (List.length (interceptedData this)) (timestamp latestData)
                     (size latestData) (url latestData) now)
        parsedResults
  end.

(** ** [clearData], lines 862-864 *)
Definition clearData (this : UnitedFlightSearcher) : UnitedFlightSearcher :=
  set_interceptedData [] this.

(** ** [getSummary], lines 627-639 *)
Record Summary : Type := mkSummary {
  totalResponses : nat;
  totalDataSize : nat;
  responseUrls : list string;
  timestamps : list Z;
  summary_failedRequests : list FailedRequestRecord;
  failedRequestCount : nat
}.

Definition getSummary (this : UnitedFlightSearcher) : Summary :=
  let failed := match failedRequests this with Some l => l | None => [] end in
  mkSummary (List.length (interceptedData this))
            (fold_left (fun sum item => sum + size item) (interceptedData this) 0)
            (map url (interceptedData this))
            (map timestamp (interceptedData this))
            failed (List.length failed).

(** ** The machine's primitives *)

Context (B : Browser).

Local Close Scope result_scope.
Local Open Scope machine_scope.

(** [Date.now()] *)
Definition Date_now : M Z := read now.

Definition log (e : log_entry) : M unit := update (say e).

(** A call into the automation library that returns nothing. *)
Definition host (c : host_call) : M unit :=
  update (record_call c) ;; lift (reply B c).

(** ** The interception handlers: [setupInterception], lines 172-292 *)

(** [o || default] for an optional string. *)
Definition text_or (o : option string) (default : string) : string :=
  match o with
  | Some t => if Str.is_empty t then default else t
  | None => default
  end.

(** [this.interceptedData.push(item)] *)
Definition push_capture (item : CapturedResponse) (m : Machine) : Machine :=
  set_this (set_interceptedData (interceptedData (this m) ++ [item]) (this m)) m.

(** [failedRequests.push(r)].  The array is the one [setupInterception]
    created for this page and stored in [this.failedRequests]. *)
Definition push_failed (r : FailedRequestRecord) (m : Machine) : Machine :=
  let l := match failedRequests (this m) with Some l => l | None => [] end in
  set_this (set_failedRequests (Some (l ++ [r])%list) (this m)) m.

(** The [requestfailed] handler, lines 208-222. *)
Definition onRequestFailed (url : string) (errorText : option string)
  (m : Machine) : Machine :=
  if Str.includes url "/api/" || Str.includes url "FetchFlights" then
    push_failed (mkFailed url (text_or errorText "Unknown error") (now m))
      (say (LogFailureReason (text_or errorText "Unknown"))
         (say (LogRequestFailed url) m))
  else m.

(** The [response] handler up to its first [await], lines 224-241. *)
Definition onResponse (r : Response) (m : Machine) : Machine :=
  let m1 := if Str.includes (response_url r) "/api/"
            then say (LogApiResponse (response_status r) (response_url r)) m
            else m in
  if isFetchFlightsAPI (response_url r) then
    if (response_status r =? 200)%Z then set_reading (reading m1 ++ [r]) m1
    else say (LogBadStatus (response_status r) (response_url r)) m1
  else m1.

(** The [catch] of the handler, lines 270-286; the second [response.text()]
    settles as the first did. *)
Definition parse_failed (r : Response) (e : Js.error) (body : result string)
  (m : Machine) : Machine :=
  let m1 := say (LogStatus (response_status r))
              (say (LogParseFailed (response_url r) (message e)) m) in
  match body with
  | Ok text => say (LogPartial (substring 0 200 text)) m1
  | Throw e' => say (LogNoBody (message e')) m1
  end.

(** The handler from the moment the body is there, lines 241-269.  Saving
    the capture to a file (lines 266-269) writes no field of the instance
    and swallows its own errors; it is not modelled. *)
Definition resume (r : Response) (body : result string) (m : Machine) : Machine :=
  match body with
  | Throw e => parse_failed r e body m
  | Ok responseBody =>
      if Str.is_empty responseBody || Str.is_empty (trim responseBody) then
        say (LogEmptyBody (response_url r)) m
      else
        match JSON_parse responseBody with
        | Throw e => parse_failed r e body m
        | Ok payload =>
            let m1 := say (LogSize (String.length responseBody))
                        (say (LogIntercepted (response_status r)) m) in
            push_capture
              (mkCapture (response_url r) (now m1) (response_status r)
                         (response_headers r) payload
                         (String.length responseBody))
              m1
        end
  end.

Fixpoint take_reader (id : nat) (rs : list Response)
  : option (Response * list Response) :=
  match rs with
  | [] => None
  | r :: rest =>
      if (response_id r =? id)%nat then Some (r, rest)
      else match take_reader id rest with
           | Some (x, rest') => Some (x, r :: rest')
           | None => None
           end
  end.

Definition onBodyRead (id : nat) (body : result string) (m : Machine) : Machine :=
  match take_reader id (reading m) with
  | Some (r, rest) => resume r body (set_reading rest m)
  | None => m
  end.

Definition handle (ev : net_event) (m : Machine) : Machine :=
  if listening m then
    match ev with
    | RequestFailed url errorText => onRequestFailed url errorText m
    | ResponseReceived r => onResponse r m
    | BodyRead id body => onBodyRead id body m
    end
  else m.

(** [setupInterception(page, options)]: installs the handlers and stores
    the fresh failure array in [this.failedRequests] (lines 174, 291). *)
Definition setupInterception : M unit :=
  update (fun m =>
    set_this (set_failedRequests (Some []) (this m))
             (set_reading [] (set_listening true m))).

(** ** Time *)

(** The events due by [deadline] run their handlers, each at its instant. *)
Fixpoint run_due (deadline : Z) (evs : list (Z * net_event)) (m : Machine)
  : Machine :=
  match evs with
  | [] => set_network [] m
  | (te, ev) :: rest =>
      if (te <=? deadline)%Z
      then run_due deadline rest (handle ev (set_now (Z.max te (now m)) m))
      else set_network evs m
  end.

Definition advance (ms : Z) (m : Machine) : Machine :=
  let deadline := (now m + Z.max 0 ms)%Z in
  set_now deadline (run_due deadline (network m) m).

(** [waitFor(page, ms)], lines 126-130. *)
Definition waitFor (ms : Z) : M unit :=
  update (record_call (WaitFor ms)) ;; update (advance ms).

(** ** [setupAntiDetection], lines 72-121 *)
Definition setupAntiDetection : M unit :=
  host SetUserAgent ;;
  host SetExtraHTTPHeaders ;;
  host EvaluateOnNewDocument ;;
  host EvaluateOnNewDocument ;;
  host SetViewport.

(** ** Navigation retrier: [navigateWithRetry], lines 135-167 *)

Definition page_goto (url : string) : M unit :=
  update (fun m => record_call (Goto url) (set_gotos (S (gotos m)) m)) ;;
  n <- read gotos ;;
  lift (goto_result B n).

Definition page_title : M string :=
  update (record_call Title) ;;
  n <- read gotos ;;
  lift (title_result B n).

(** One iteration of the [for] loop; [true] is the [return] of line 152. *)
Definition navigation_attempt (url : string) (attempt maxRetries : nat) : M bool :=
  try_catch
    (log (LogAttempt attempt maxRetries) ;;
     page_goto url ;;
     waitFor 3000 ;;
     title <- page_title ;;
     if negb (Str.is_empty title) && negb (Str.includes title "Error")
     then log (LogLoaded title) ;; ret true
     else ret false)
    (fun error =>
       log (LogAttemptFailed attempt (message error)) ;;
       if (attempt =? maxRetries)%nat
       then throw (Js.Error ("Failed to navigate after " ++ show maxRetries
                               ++ " attempts: " ++ message error))
       else waitFor (2000 * Z.of_nat attempt) ;; ret false).

(** The iterations from [attempt] on, [remaining] of them. *)
Fixpoint navigate_from (url : string) (maxRetries remaining attempt : nat)
  : M unit :=
  match remaining with
  | O => ret tt
  | S remaining' =>
      done <- navigation_attempt url attempt maxRetries ;;
      if done then ret tt
      else navigate_from url maxRetries remaining' (S attempt)
  end.

Definition navigateWithRetry (url : string) (maxRetries : nat) : M unit :=
  navigate_from url maxRetries maxRetries 1.

(** The exception that makes the attempt with the [n]-th [page.goto] fail,
    if one does: thrown by [page.goto] or, after it, by [page.title]. *)
Definition attempt_throws (n : nat) : option Js.error :=
  match goto_result B n with
  | Throw e => Some e
  | Ok _ => match title_result B n with
            | Throw e => Some e
            | Ok _ => None
            end
  end.

(** The browser calls of attempt [attempt] of [maxRetries] when it fails
    with an exception: the load, the settle delay and the title if the load
    went through, and the back-off delay unless it is the last attempt. *)
Definition failed_attempt_calls (url : string) (n attempt maxRetries : nat)
  : list host_call :=
  (Goto url ::
   match goto_result B n with
   | Ok _ => [WaitFor 3000; Title]
   | Throw _ => []
   end ++
   (if (attempt =? maxRetries)%nat then []
    else [WaitFor (2000 * Z.of_nat attempt)]))%list.

(** The error of line 158. *)
Definition navigation_error (maxRetries : nat) (last : Js.error) : Js.error :=
  Js.Error ("Failed to navigate after " ++ show maxRetries ++ " attempts: "
            ++ message last).

(** ** Completion detector *)

Definition page_query (sel : selector) : M bool :=
  update (record_call (Query sel)) ;;
  t <- Date_now ;;
  lift (query_result B sel t).

(** [checkPageStateAndRetrigger], lines 361-416.  [page.$] answers with one
    element handle or [null]: reading [length] of [null] throws, and of a
    handle gives [undefined], so the test of line 367 is false. *)
Definition checkPageStateAndRetrigger : M unit :=
  try_catch
    (errorElements <- page_query ErrorElements ;;
     (if errorElements then ret tt
      else throw (TypeError "Cannot read properties of null (reading 'length')")) ;;
     searchButton <- page_query SearchButton ;;
     (if searchButton then
        log LogSearchButton ;;
        try_catch
          (update (record_call Click) ;;
           t <- Date_now ;;
           lift (click_result B t) ;;
           host (WaitForTimeout 2000) ;;
           update (advance 2000) ;;
           log LogRetriggered)
          (fun e => log (LogCouldNotClick (message e)))
      else ret tt) ;;
     update (record_call NavigationEntry) ;;
     t <- Date_now ;;
     entry <- lift (navigation_type B t) ;;
     match entry with
     | Some type => log (LogPageLoadStatus type)
     | None => ret tt
     end)
    (fun error => log (LogPageStateError (message error))).

(** How the [while] loop of [waitForSearchResults] is left. *)
Inductive loop_exit : Type :=
| Stabilized   (* the [return] of line 331 *)
| Elapsed.     (* the loop condition of line 315 is false *)

Definition captured : M nat := read (fun m => List.length (interceptedData (this m))).

(** The [while] loop, lines 315-341, from the evaluation of its condition.
    Every iteration waits at least a second, so [fuel] bounds the
    iterations. *)
Fixpoint poll (fuel : nat) (startTime maxWait : Z) (lastDataCount checkCount : nat)
  : M loop_exit :=
  match fuel with
  | O => unfinished
  | S fuel' =>
      t <- Date_now ;;
      if (t - startTime <? maxWait)%Z then
        let checkCount := S checkCount in
        let rest (lastDataCount : nat) : M loop_exit :=
          (if (checkCount mod 10 =? 0)%nat
           then checkPageStateAndRetrigger else ret tt) ;;
          waitFor 1000 ;;
          poll fuel' startTime maxWait lastDataCount checkCount in
        n <- captured ;;
        if (lastDataCount <? n)%nat then
          log (LogReceived n) ;;
          waitFor 3000 ;;
          n' <- captured ;;
          if (n' =? n)%nat then log LogCompleted ;; ret Stabilized
          else rest n
        else rest lastDataCount
      else ret Elapsed
  end.

(** Enough fuel for a budget of [maxWait] ms. *)
Definition fuel_for (maxWait : Z) : nat := S (S (Z.to_nat (maxWait / 1000))).

(** The message of line 353. *)
Definition no_data_message : string :=
  "No flight data intercepted within timeout period. Check for network errors or anti-bot detection.".

(** The console lines of lines 344-349 for a given failure list. *)
Definition failure_log (failed : option (list FailedRequestRecord)) : list log_entry :=
  match failed with
  | Some (r :: rs) =>
      LogFailedCount (List.length (r :: rs)) ::
      map (fun req => LogFailedRequest (failed_url req) (failed_error req)) (r :: rs)
  | _ => []
  end.

(** Lines 343-355: what follows the loop when the budget has elapsed. *)
Definition after_timeout : M unit :=
  failed <- read (fun m => failedRequests (this m)) ;;
  match failed with
  | Some (r :: rs) =>
      log (LogFailedCount (List.length (r :: rs))) ;;
      update (fun m =>
        fold_left (fun m req => say (LogFailedRequest (failed_url req) (failed_error req)) m)
                  (r :: rs) m)
  | _ => ret tt
  end ;;
  n <- captured ;;
  if (n =? 0)%nat then throw (Js.Error no_data_message) else ret tt.

(** [waitForSearchResults(page, maxWait)], lines 308-356. *)
Definition waitForSearchResults (maxWait : Z) : M unit :=
  log LogWaiting ;;
  startTime <- Date_now ;;
  exit <- poll (fuel_for maxWait) startTime maxWait 0 0 ;;
  match exit with
  | Stabilized => ret tt
  | Elapsed => after_timeout
  end.

(** ** The two searches *)

(** Identifiers [united.js] binds at its top level (lines 5-9, 868-962),
    and the globals of the host it refers to. *)
Definition module_bindings : list string :=
  ["fs"; "path"; "puppeteer"; "UnitedFlightSearcher"; "testWithURL";
   "extractParamsFromURL"; "displayResults"].

Definition host_globals : list string :=
  ["console"; "require"; "module"; "Math"; "Date"; "JSON"; "Object"; "Array";
   "Promise"; "Error"; "URL"; "setTimeout"; "parseInt"; "parseFloat"].

(** Reading the identifier [id] inside a method whose parameters and
    locals are [locals]. *)
Definition resolve (locals : list string) (id : string) : M unit :=
  if existsb (String.eqb id) (locals ++ module_bindings ++ host_globals)%list
  then ret tt
  else throw (ReferenceError (id ++ " is not defined")).

(** [return this.parseInterceptedData(options)] *)
Definition parse_now : M NormalizedResult :=
  t <- Date_now ;;
  self <- read this ;;
  ret (parseInterceptedData self t).

(** [searchByURL(searchURL, options)], lines 28-67. *)
Definition searchByURL (searchURL : string) : M NormalizedResult :=
  log (LogNavigating searchURL) ;;
  host Launch ;;
  try_finally
    (host NewPage ;;
     setupAntiDetection ;;
     host SetRequestInterception ;;
     setupInterception ;;
     navigateWithRetry searchURL 3 ;;
     waitForSearchResults 60000 ;;
     parse_now)
    (host Close).

(** The part of [searchByFormInteraction] that follows the evaluation of the
    launch options: [puppeteer.launch] and the [try]/[finally] of lines
    659-685.  [fillSearchFormManually] and [submitSearchManually] are taken
    as single calls whose outcome the browser decides. *)
Definition form_session : M NormalizedResult :=
  host Launch ;;
  try_finally
    (host NewPage ;;
     setupAntiDetection ;;
     host SetRequestInterception ;;
     setupInterception ;;
     page_goto "https://www.united.com" ;;
     waitFor 3000 ;;
     host FillForm ;;
     host SubmitForm ;;
     waitForSearchResults 60000 ;;
     parse_now)
    (host Close).

(** [searchByFormInteraction(searchParams, options)], lines 644-686.  The
    launch options are evaluated before [puppeteer.launch] is called; the
    last element of [args] (line 655) reads [proxies]. *)
Definition searchByFormInteraction : M NormalizedResult :=
  log LogTryingForm ;;
  resolve ["searchParams"; "options"] "proxies" ;;
  form_session.

(** ** Notions used to state what the methods do *)

(** The test of line 150 on the title. *)
Definition good_title (title : string) : bool :=
  negb (Str.is_empty title) && negb (Str.includes title "Error").

(** The attempt with the [n]-th [page.goto] reaches the [return] of line
    152: the load and the reading of the title go through and the title
    passes the test. *)
Definition attempt_succeeds (n : nat) : bool :=
  match goto_result B n, title_result B n with
  | Ok _, Ok title => good_title title
  | _, _ => false
  end.

(** The page check started at the instant [t] reaches the click of line
    394: both [page.$] calls answer with an element. *)
Definition finds_both (t : Z) : bool :=
  match query_result B ErrorElements t, query_result B SearchButton t with
  | Ok true, Ok true => true
  | _, _ => false
  end.

(** No event of the page is due by [deadline]. *)
Definition quiet_until (deadline : Z) (m : Machine) : Prop :=
  match network m with
  | [] => True
  | (te, _) :: _ => (deadline < te)%Z
  end.

(** The number of one-second ticks that cover [ms] milliseconds. *)
Definition ticks (ms : Z) : Z := Z.max 0 ((ms + 999) / 1000).

(** A response the handler reads the body of: it passed the tests of lines
    234 and 236. *)
Definition from_endpoint (r : Response) : Prop :=
  isFetchFlightsAPI (response_url r) = true /\ response_status r = 200%Z.

(** A capture made between the instants [t] and [t']: of a qualifying
    response with status 200 and a body that is not empty. *)
Definition captured_between (t t' : Z) (c : CapturedResponse) : Prop :=
  isFetchFlightsAPI (url c) = true /\ status c = 200%Z /\ 1 <= size c /\
  (t <= timestamp c <= t')%Z.

(** A failure recorded between [t] and [t']: of a request whose URL passed
    the test of line 212, with an error text that is not empty. *)
Definition failed_between (t t' : Z) (r : FailedRequestRecord) : Prop :=
  Str.includes (failed_url r) "/api/" || Str.includes (failed_url r) "FetchFlights"
    = true /\
  failed_error r <> "" /\ (t <= failed_timestamp r <= t')%Z.

(** [this.failedRequests || []] *)
Definition failures (m : Machine) : list FailedRequestRecord :=
  match failedRequests (this m) with Some l => l | None => [] end.

(** From [m] to [m'], time has not run backwards, captures were only
    appended and every capture or failure record that is new was made in
    between, by the handlers. *)
Definition records_own (m m' : Machine) : Prop :=
  (now m <= now m')%Z /\
  (Forall from_endpoint (reading m) -> Forall from_endpoint (reading m')) /\
  (exists added,
     interceptedData (this m') = (interceptedData (this m) ++ added)%list /\
     (Forall from_endpoint (reading m) ->
      Forall (captured_between (now m) (now m')) added)) /\
  (forall r, In r (failures m') ->
             In r (failures m) \/ failed_between (now m) (now m') r).

(** ** [getTroubleshootingInfo], lines 814-857 *)

Record Troubleshooting : Type := mkTroubleshooting {
  troubleshooting_summary : Summary;
  possibleIssues : list string;
  recommendations : list string
}.

Definition http2_issue : string :=
  "HTTP/2 Protocol Errors detected - likely anti-bot protection".
Definition no_response_issue : string := "No API responses intercepted".

(** The test of the filter of lines 828-830. *)
Definition is_http2_error (req : FailedRequestRecord) : bool :=
  Str.includes (failed_error req) "ERR_HTTP2_PROTOCOL_ERROR".

Definition getTroubleshootingInfo (this : UnitedFlightSearcher) : Troubleshooting :=
  let summary := getSummary this in
  let after_failures :=
    if (0 <? failedRequestCount summary)%nat then
      let http2Errors :=
        List.length (filter is_http2_error (summary_failedRequests summary)) in
      if (0 <? http2Errors)%nat then
        ([http2_issue],
         ["Try using the form interaction method instead of URL navigation";
          "Consider adding longer delays between requests";
          "Try using a residential proxy or VPN"])
      else ([], [])
    else ([], []) in
  let after_responses :=
    if (totalResponses summary =? 0)%nat then
      ((fst after_failures ++ [no_response_issue])%list,
       (snd after_failures ++
        ["Check if United website structure has changed";
         "Verify the search URL is correct";
         "Try running with headless: false to see what's happening"])%list)
    else after_failures in
  mkTroubleshooting summary (fst after_responses) (snd after_responses).

(** ** [displayResults], lines 962-1043, and [testWithURL], lines 868-936 *)

(** What the program asks of Node besides the browser: the answers of
    [fs.existsSync(outputDir)] and [fs.mkdirSync(outputDir, ...)], and the
    comparison [v > 0] of a payload value with zero. *)
Record Host : Type := mkHost {
  fs_existsSync : bool;
  fs_mkdirSync : result unit;
  positive : value -> bool
}.

(** [v.length > 0] *)
Definition length_positive (H : Host) (v : value) : bool :=
  match v with
  | VArr items => (0 <? List.length items)%nat
  | VStr s => negb (Str.is_empty s)
  | VObj fields => positive H (lookup "length" fields)
  | _ => false
  end.

(** [if (list && list.length > 0) list.map(f)], the result of [map] being
    joined and printed. *)
Definition map_if_any (H : Host) (what : string) (list : value)
  (f : value -> result value) : result unit :=
  if truthy list && length_positive H list
  then Js.bind (array_map what list f) (fun _ => Ok tt)
  else Ok tt.

(** What [displayResults] does besides printing.  The lines it prints read
    properties of the flights that [extractFlightInfo] built and turn
    payload values into text, which cannot throw; the two [map] calls of
    lines 1011 and 1017 read a property of every warning and error. *)
Definition displayResults (H : Host) (results : NormalizedResult) : result unit :=
  match flights results with
  | [] => Ok tt
  | _ :: _ =>
      match searchInfo results with
      | Some info =>
          Js.bind
            (map_if_any H "results.searchInfo.warnings" (warnings info)
               (fun w => get w "Message"))
            (fun _ =>
               map_if_any H "results.searchInfo.errors" (errors info)
                 (fun e => Js.bind (get e "Message") (fun msg => Ok (or_else msg e))))
      | None => Ok tt
      end
  end.

(** The instance of line 871, and its construction (lines 10-21). *)
Definition test_searcher : UnitedFlightSearcher :=
  mkSearcher false 60000 [] true "./flight_data" None.

Definition new_test_searcher (H : Host) : M unit :=
  update (set_this test_searcher) ;;
  if fs_existsSync H then ret tt else lift (fs_mkdirSync H).

(** The error of line 931. *)
Definition both_failed : Js.error :=
  Js.Error "Both URL navigation and form interaction methods failed. Check troubleshooting information above.".

(** [options.filename], with the default [{}] of the parameter. *)
Definition filename_of (options : value) : result value :=
  match options with
  | VUndefined => Ok VUndefined
  | _ => get options "filename"
  end.

(** [testWithURL(searchURL, options)].  Its console lines, the
    troubleshooting information it prints (computed by
    [getTroubleshootingInfo], which changes nothing) and
    [extractParamsFromURL] (which catches its own exceptions, and whose
    result only [searchByFormInteraction] receives) are left out. *)
Definition testWithURL (H : Host) (searchURL : string) (options : value)
  : M NormalizedResult :=
  new_test_searcher H ;;
  try_catch
    (lift (filename_of options) ;;
     results <- searchByURL searchURL ;;
     lift (displayResults H results) ;;
     ret results)
    (fun error =>
       try_catch
         (lift (filename_of options) ;;
          formResults <- searchByFormInteraction ;;
          lift (displayResults H formResults) ;;
          ret formResults)
         (fun formError => throw both_failed)).

(** A computation takes at most [d] milliseconds of the clock (which only
    the delays advance), and never turns it back. *)
Definition takes (d : Z) {A} (c : M A) : Prop :=
  forall m, (now m <= now (snd (c m)) <= now m + d)%Z.

(** The delays of [remaining] attempts from [attempt] on: the settle delay
    of each, and the back-off after each but the last. *)
Fixpoint nav_delays (maxRetries remaining attempt : nat) : Z :=
  match remaining with
  | O => 0
  | S remaining' =>
      3000 + (if (attempt =? maxRetries)%nat then 0 else 2000 * Z.of_nat attempt)
      + nav_delays maxRetries remaining' (S attempt)
  end.

(** What [extractFlightInfo] makes sure of in a flight it returns: no
    price is NaN ([parseFloat(...) || 0]) and every fare says whether it is
    refundable ([... || false]). *)
Definition has_defaults (flight : FlightOption) : Prop :=
  Forall (fun p => PrimFloat.is_nan (price_price p) = false) (pricing flight) /\
  Forall (fun f => truthy (fare_isRefundable f) = true \/
                   fare_isRefundable f = VBool false) (fares flight).

(* ================================================================== *)
(** * Properties *)

(** ** Strings *)

Import Str.

Lemma startsWith_app (p s : string) : startsWith p (p ++ s) = true.
Proof.
  induction p as [|a p IH]; simpl; [reflexivity|].
  now rewrite Ascii.eqb_refl, IH.
Qed.

Lemma startsWith_split (p s : string) :
  startsWith p s = true -> exists t, s = p ++ t.
Proof.
  revert s; induction p as [|a p IH]; intros s H.
  - now exists s.
  - destruct s as [|b s]; simpl in H; [discriminate|].
    apply andb_true_iff in H as [Hab Hps].
    apply Ascii.eqb_eq in Hab; subst b.
    destruct (IH _ Hps) as [t ->]. now exists t.
Qed.

Lemma startsWith_includes (p s : string) :
  startsWith p s = true -> includes s p = true.
Proof. intros H. destruct s; simpl; now rewrite H. Qed.

(** [includes] is substring containment. *)
Lemma includes_iff (s p : string) :
  includes s p = true <-> exists u v, s = u ++ p ++ v.
Proof.
  split.
  - induction s as [|c s IH]; simpl; intros H.
    + rewrite orb_false_r in H.
      destruct (startsWith_split _ _ H) as [t Ht]. now exists "", t.
    + apply orb_true_iff in H as [H|H].
      * destruct (startsWith_split _ _ H) as [t Ht]. now exists "", t.
      * destruct (IH H) as (u & v & ->). now exists (String c u), v.
  - intros (u & v & ->). induction u as [|c u IH]; simpl.
    + apply startsWith_includes, startsWith_app.
    + now rewrite IH, orb_true_r.
Qed.

Lemma app_assoc_s (a b c : string) : (a ++ b) ++ c = a ++ b ++ c.
Proof. induction a as [|x a IH]; simpl; [reflexivity | now rewrite IH]. Qed.

(** A string that contains [a ++ p ++ b] contains [p]. *)
Lemma includes_infix (s a p b : string) :
  includes s (a ++ p ++ b) = true -> includes s p = true.
Proof.
  rewrite !includes_iff. intros (u & v & ->).
  exists (u ++ a), (b ++ v). now rewrite !app_assoc_s.
Qed.

(** ** The qualifying-response predicate *)

(** C2, as amended.  A URL qualifies exactly when it contains the endpoint
    name [FetchFlights], or contains both the site's domain [united.com]
    and the path segment [/api/flight/] (not merely [/api/]).  The first
    disjunct of the code is subsumed by the second. *)
Theorem isFetchFlightsAPI_iff (url : string) :
  isFetchFlightsAPI url = true <->
  includes url "FetchFlights" = true \/
  (includes url "united.com" = true /\ includes url "/api/flight/" = true).
Proof.
  unfold isFetchFlightsAPI.
  rewrite !orb_true_iff, andb_true_iff.
  split.
  - intros [[H|H]|H]; [left | left | right]; trivial.
    apply (includes_infix url "/api/flight/" "FetchFlights" ""), H.
  - intros [H|H]; [left; right | right]; trivial.
Qed.

(** ** The authoritative capture *)

Local Close Scope string_scope.

Lemma larger_cases (prev current : CapturedResponse) :
  (size prev < size current /\ larger prev current = current) \/
  (size current <= size prev /\ larger prev current = prev).
Proof.
  unfold larger. destruct (Nat.ltb_spec (size prev) (size current)); auto.
Qed.

(** [fold_left larger rest first] is the first element of [first :: rest]
    whose size is the largest. *)
Lemma fold_larger_first_max (rest : list CapturedResponse) (first : CapturedResponse) :
  exists i,
    nth_error (first :: rest) i = Some (fold_left larger rest first) /\
    (forall x, In x (first :: rest) -> size x <= size (fold_left larger rest first)) /\
    (forall j x, j < i -> nth_error (first :: rest) j = Some x ->
                 size x < size (fold_left larger rest first)).
Proof.
  induction rest as [|y rest IH] using rev_ind.
  - exists 0. simpl. repeat split.
    + intros x [->|[]]. lia.
    + intros j x Hj. lia.
  - rewrite fold_left_app. simpl.
    destruct IH as (i & Hi & Hmax & Hfirst).
    set (best := fold_left larger rest first) in *.
    assert (Hlen : i < List.length (first :: rest)).
    { apply nth_error_Some. rewrite Hi. discriminate. }
    change (first :: rest ++ [y]) with ((first :: rest) ++ [y]).
    destruct (larger_cases best y) as [[Hlt ->]|[Hle ->]].
    + exists (List.length (first :: rest)). repeat split.
      * rewrite nth_error_app2 by lia. now rewrite Nat.sub_diag.
      * intros x Hx. change (In x ((first :: rest) ++ [y])) in Hx.
        apply in_app_or in Hx as [Hx|[->|[]]]; [|lia].
        specialize (Hmax x Hx). lia.
      * intros j x Hj Hx. rewrite nth_error_app1 in Hx by lia.
        apply nth_error_In in Hx. specialize (Hmax x Hx). lia.
    + exists i. repeat split.
      * rewrite nth_error_app1 by lia. exact Hi.
      * intros x Hx. change (In x ((first :: rest) ++ [y])) in Hx.
        apply in_app_or in Hx as [Hx|[->|[]]]; auto.
      * intros j x Hj Hx. rewrite nth_error_app1 in Hx by lia. eauto.
Qed.

(** C1.  For a non-empty capture list, [parseInterceptedData] normalises
    the payload of the capture of largest size, the first such capture in
    list order, and writes that capture's timestamp, size and url (with the
    number of captures and the parse instant) into the result's metadata.
    With sizes [100, 250, 250, 80] that capture is the second one. *)
Theorem parseInterceptedData_picks_first_largest
  (this : UnitedFlightSearcher) (t : Z) :
  interceptedData this <> [] ->
  (exists i c,
     nth_error (interceptedData this) i = Some c /\
     (forall x, In x (interceptedData this) -> size x <= size c) /\
     (forall j x, j < i -> nth_error (interceptedData this) j = Some x ->
                  size x < size c) /\
     parseInterceptedData this t =
       set_metadata
         (MetaCapture (List.length (interceptedData this)) (timestamp c)
                      (size c) (url c) t)
         (extractFlightInfo (data c))) /\
  (forall c1 c2 c3 c4,
     interceptedData this = [c1; c2; c3; c4] ->
     size c1 = 100 -> size c2 = 250 -> size c3 = 250 -> size c4 = 80 ->
     parseInterceptedData this t =
       set_metadata (MetaCapture 4 (timestamp c2) (size c2) (url c2) t)
                    (extractFlightInfo (data c2))).
Proof.
  intros Hne. split.
  - unfold parseInterceptedData.
    destruct (interceptedData this) as [|first rest] eqn:E; [congruence|].
    destruct (fold_larger_first_max rest first) as (i & Hi & Hmax & Hfirst).
    exists i, (fold_left larger rest first). auto.
  - intros c1 c2 c3 c4 E H1 H2 H3 H4.
    assert (F : fold_left larger [c2; c3; c4] c1 = c2).
    { simpl. unfold larger. rewrite H1, H2. simpl. rewrite H2, H3. simpl.
      now rewrite H2, H4. }
    unfold parseInterceptedData. rewrite E, F. reflexivity.
Qed.

(** ** Reset *)

(** C6, as amended.  [clearData] empties the capture list and leaves the
    failure list as it was; the failure list is replaced by a fresh empty
    one when [setupInterception] runs, at the start of a search, which in
    turn leaves the capture list as it was. *)
Theorem clearData_clears_captures_only :
  (forall this : UnitedFlightSearcher,
     interceptedData (clearData this) = [] /\
     failedRequests (clearData this) = failedRequests this) /\
  (forall m : Machine,
     failedRequests (this (snd (setupInterception m))) = Some [] /\
     interceptedData (this (snd (setupInterception m))) = interceptedData (this m)).
Proof.
  split; intros; split; reflexivity.
Qed.

(** ** The form path *)

Local Open Scope string_scope.

(** C10.  Whatever the state, [searchByFormInteraction] throws the
    [ReferenceError] for [proxies], an identifier that neither the module
    nor the method binds; nothing but the first log line has happened by
    then: no call into the browser (so no session) and no change to the
    instance (so no capture).  It never returns a result. *)
Theorem searchByFormInteraction_throws (m : Machine) :
  existsb (String.eqb "proxies")
          (["searchParams"; "options"] ++ module_bindings ++ host_globals) = false /\
  searchByFormInteraction m =
    (Throws (ReferenceError "proxies is not defined"), say LogTryingForm m) /\
  calls (snd (searchByFormInteraction m)) = calls m /\
  this (snd (searchByFormInteraction m)) = this m /\
  (forall r, fst (searchByFormInteraction m) <> Returns r).
Proof.
  assert (E : searchByFormInteraction m =
              (Throws (ReferenceError "proxies is not defined"), say LogTryingForm m))
    by reflexivity.
  rewrite E. repeat split. simpl. discriminate.
Qed.

(** ** The normaliser and the shapes of the payload *)

Lemma collect_acc (L : list value) (acc : list FlightOption) :
  collect L acc = ((acc ++ fst (collect L []))%list, snd (collect L [])).
Proof.
  revert acc. induction L as [|trip L IH]; intros acc; simpl.
  - now rewrite app_nil_r.
  - destruct (truthy trip); simpl; [|apply IH].
    destruct (flight_of trip) as [f|e]; simpl.
    + rewrite (IH (acc ++ [f])%list), (IH [f]). simpl.
      now rewrite <- app_assoc.
    + now rewrite app_nil_r.
Qed.

(** The loop yields a flight exactly when the first truthy entry of the
    trip list is extracted without an exception. *)
Lemma collect_nonempty_iff (L : list value) :
  fst (collect L []) <> [] <->
  exists pre trip f post,
    L = (pre ++ trip :: post)%list /\
    Forall (fun v => truthy v = false) pre /\
    truthy trip = true /\ flight_of trip = Ok f.
Proof.
  induction L as [|x L IH]; simpl.
  - split; [congruence|]. intros (pre & trip & f & post & E & _).
    destruct pre; discriminate.
  - destruct (truthy x) eqn:Tx; simpl.
    + destruct (flight_of x) as [f|e] eqn:Fx; simpl.
      * rewrite collect_acc. simpl. split; [|discriminate].
        intros _. exists [], x, f, L. repeat split; auto.
      * split; [congruence|].
        intros (pre & trip & f & post & E & Hpre & Ht & Hf).
        destruct pre as [|p pre]; simpl in E; injection E as -> ->.
        -- congruence.
        -- inversion Hpre; congruence.
    + rewrite IH. split.
      * intros (pre & trip & f & post & -> & Hpre & Ht & Hf).
        exists (x :: pre), trip, f, post. repeat split; auto.
      * intros (pre & trip & f & post & E & Hpre & Ht & Hf).
        destruct pre as [|p pre]; simpl in E; injection E as -> ->.
        -- congruence.
        -- exists pre, trip, f, post. inversion Hpre; subst. repeat split; auto.
Qed.

Lemma extract_located (d : value) (L : list value) :
  negb (truthy d) || negb (typeof_object d) = false ->
  locate_trips d = Ok (VArr L) ->
  (exists info, searchInfo_of d = Ok info) ->
  flights (extractFlightInfo d) = fst (collect L []) /\
  error (extractFlightInfo d) = failure_marker (snd (collect L [])).
Proof.
  intros Hd Hloc [info Hinfo]. unfold extractFlightInfo.
  rewrite Hd, Hloc. simpl. destruct (collect L []) as [fl [e|]]; simpl; auto.
  rewrite Hinfo. auto.
Qed.

(** C9, as amended.  For every trip list [L], the payloads [{Trips: L}],
    [{data: {Trips: L}}] and [L] itself yield the same flight list and the
    same error marker; that list is non-empty exactly when the first
    truthy entry of [L] is extracted without an exception (for an empty
    [L] all three are empty).  The trip list is looked for at [data.Trips]
    (taken when it is an array), then at [data.data.Trips] (taken when
    truthy), then in the payload itself (taken when it is an array). *)
Theorem extractFlightInfo_shapes (L : list value) :
  let top := VObj [("Trips", VArr L)] in
  let nested := VObj [("data", VObj [("Trips", VArr L)])] in
  let bare := VArr L in
  (forall d, d = top \/ d = nested \/ d = bare ->
     flights (extractFlightInfo d) = fst (collect L []) /\
     error (extractFlightInfo d) = failure_marker (snd (collect L []))) /\
  (fst (collect L []) <> [] <->
   exists pre trip f post,
     L = (pre ++ trip :: post)%list /\
     Forall (fun v => truthy v = false) pre /\
     truthy trip = true /\ flight_of trip = Ok f) /\
  (forall fields,
     lookup "Trips" fields = VArr L ->
     locate_trips (VObj fields) = Ok (VArr L)) /\
  (forall fields inner,
     truthy (lookup "Trips" fields) && isArray (lookup "Trips" fields) = false ->
     lookup "data" fields = inner ->
     get inner "Trips" = Ok (VArr L) ->
     locate_trips (VObj fields) = Ok (VArr L)) /\
  locate_trips bare = Ok bare.
Proof.
  simpl. split; [|split; [|split; [|split]]].
  - intros d H.
    destruct H as [H | [H | H]]; subst d; apply extract_located;
      try reflexivity; eexists; reflexivity.
  - apply collect_nonempty_iff.
  - intros fields H. unfold locate_trips. simpl. now rewrite H.
  - intros fields inner Htop Hin Hn. subst inner. unfold locate_trips. simpl.
    rewrite Htop.
    destruct (lookup "data" fields); simpl in Hn; try discriminate;
      simpl; injection Hn as Hn; rewrite Hn; reflexivity.
  - reflexivity.
Qed.

(** ** The combinators *)

Section Combinators.

Context (R : Machine -> Machine -> Prop).
Hypothesis R_refl : forall m, R m m.
Hypothesis R_trans : forall a b c, R a b -> R b c -> R a c.

Lemma preserves_ret {A} (a : A) : preserves R (ret a).
Proof. intros m. apply R_refl. Qed.

Lemma preserves_throw {A} (e : Js.error) : preserves R (@throw A e).
Proof. intros m. apply R_refl. Qed.

Lemma preserves_unfinished {A} : preserves R (@unfinished A).
Proof. intros m. apply R_refl. Qed.

Lemma preserves_lift {A} (r : result A) : preserves R (lift r).
Proof. destruct r; intros m; apply R_refl. Qed.

Lemma preserves_read {A} (f : Machine -> A) : preserves R (read f).
Proof. intros m. apply R_refl. Qed.

Lemma preserves_update (f : Machine -> Machine) :
  (forall m, R m (f m)) -> preserves R (update f).
Proof. intros H m. apply H. Qed.

Lemma preserves_bind {A C} (c : M A) (k : A -> M C) :
  preserves R c -> (forall a, preserves R (k a)) -> preserves R (bindM c k).
Proof.
  intros Hc Hk m. unfold bindM. specialize (Hc m).
  destruct (c m) as [[a|e|] m']; simpl in *; auto.
  eapply R_trans; [exact Hc | apply Hk].
Qed.

Lemma preserves_try_catch {A} (c : M A) (h : Js.error -> M A) :
  preserves R c -> (forall e, preserves R (h e)) -> preserves R (try_catch c h).
Proof.
  intros Hc Hh m. unfold try_catch. specialize (Hc m).
  destruct (c m) as [[a|e|] m']; simpl in *; auto.
  eapply R_trans; [exact Hc | apply Hh].
Qed.

Lemma preserves_try_finally {A} (c : M A) (f : M unit) :
  preserves R c -> preserves R f -> preserves R (try_finally c f).
Proof.
  intros Hc Hf m. unfold try_finally. specialize (Hc m).
  destruct (c m) as [[a|e|] m']; simpl in *; auto;
    specialize (Hf m'); destruct (f m') as [[[]|e'|] m'']; simpl in *;
    eapply R_trans; eauto.
Qed.


End Combinators.

Lemma finishes_ret {A} (a : A) : finishes (ret a).
Proof. intros m. discriminate. Qed.

Lemma finishes_throw {A} (e : Js.error) : finishes (@throw A e).
Proof. intros m. discriminate. Qed.

Lemma finishes_lift {A} (r : result A) : finishes (lift r).
Proof. destruct r; intros m; discriminate. Qed.

Lemma finishes_read {A} (f : Machine -> A) : finishes (read f).
Proof. intros m. discriminate. Qed.

Lemma finishes_update (f : Machine -> Machine) : finishes (update f).
Proof. intros m. discriminate. Qed.

Lemma finishes_bind {A C} (c : M A) (k : A -> M C) :
  finishes c -> (forall a, finishes (k a)) -> finishes (bindM c k).
Proof.
  intros Hc Hk m. unfold bindM. specialize (Hc m).
  destruct (c m) as [[a|e|] m']; simpl in *; auto.
  - apply Hk.
  - discriminate.
Qed.

Lemma finishes_try_catch {A} (c : M A) (h : Js.error -> M A) :
  finishes c -> (forall e, finishes (h e)) -> finishes (try_catch c h).
Proof.
  intros Hc Hh m. unfold try_catch. specialize (Hc m).
  destruct (c m) as [[a|e|] m']; simpl in *; auto. apply Hh.
Qed.

Lemma finishes_try_finally {A} (c : M A) (f : M unit) :
  finishes c -> finishes f -> finishes (try_finally c f).
Proof.
  intros Hc Hf m. unfold try_finally. specialize (Hc m).
  destruct (c m) as [[a|e|] m']; simpl in *; try congruence;
    specialize (Hf m'); destruct (f m') as [[[]|e'|] m'']; simpl in *;
    congruence.
Qed.



Lemma never_throws_update (f : Machine -> Machine) : never_throws (update f).
Proof. intros m e. discriminate. Qed.



Lemma never_throws_try_catch {A} (c : M A) (h : Js.error -> M A) :
  (forall e, never_throws (h e)) -> never_throws (try_catch c h).
Proof.
  intros Hh m e. unfold try_catch.
  destruct (c m) as [[a|e'|] m']; simpl; try discriminate. apply Hh.
Qed.


(** A computation that ends and lets no exception out returns. *)
Lemma returns {A} (c : M A) (m : Machine) :
  finishes c -> never_throws c -> exists a m', c m = (Returns a, m').
Proof.
  intros Hf Hn. specialize (Hf m). specialize (Hn m).
  destruct (c m) as [[a|e|] m']; simpl in *.
  - eauto.
  - exfalso. now apply (Hn e).
  - congruence.
Qed.

(** ** Frame properties of the handlers and of time *)

Lemma handle_frame (ev : net_event) (m : Machine) :
  calls (handle ev m) = calls m /\ gotos (handle ev m) = gotos m /\
  now (handle ev m) = now m /\ listening (handle ev m) = listening m /\
  network (handle ev m) = network m.
Proof.
  unfold handle. destruct (listening m) eqn:L; [|auto].
  destruct ev as [u t|r|id body].
  - unfold onRequestFailed. destruct (_ || _); auto.
  - unfold onResponse. destruct (includes _ "/api/"), (isFetchFlightsAPI _);
      try destruct (_ =? _)%Z; auto.
  - unfold onBodyRead. destruct (take_reader id (reading m)) as [[r rest]|]; auto.
    unfold resume, parse_failed. destruct body as [text|e]; [|destruct e; auto].
    destruct (_ || _); auto.
    destruct (JSON_parse text); auto.
Qed.

Lemma run_due_frame (deadline : Z) (evs : list (Z * net_event)) (m : Machine) :
  calls (run_due deadline evs m) = calls m /\
  gotos (run_due deadline evs m) = gotos m /\
  listening (run_due deadline evs m) = listening m /\
  (now m <= deadline -> now (run_due deadline evs m) <= deadline)%Z /\
  (now m <= now (run_due deadline evs m))%Z.
Proof.
  revert m. induction evs as [|[te ev] evs IH]; intros m; simpl.
  - repeat split; auto; lia.
  - destruct (Z.leb_spec te deadline) as [Hle|Hgt].
    + destruct (IH (handle ev (set_now (Z.max te (now m)) m)))
        as (Hc & Hg & Hl & Hn & Hmono).
      destruct (handle_frame ev (set_now (Z.max te (now m)) m))
        as (Hc' & Hg' & Hn' & Hl' & _).
      rewrite Hc, Hg, Hl, Hc', Hg', Hl'.
      rewrite Hn' in Hn, Hmono. simpl in Hn, Hmono.
      repeat split; auto; lia.
    + simpl. repeat split; auto; lia.
Qed.

Lemma advance_frame (ms : Z) (m : Machine) :
  calls (advance ms m) = calls m /\ gotos (advance ms m) = gotos m /\
  listening (advance ms m) = listening m /\
  now (advance ms m) = (now m + Z.max 0 ms)%Z.
Proof.
  unfold advance. simpl.
  destruct (run_due_frame (now m + Z.max 0 ms) (network m) m) as (Hc & Hg & Hl & _).
  auto.
Qed.

Lemma calls_advance (ms : Z) (m : Machine) : calls (advance ms m) = calls m.
Proof. apply advance_frame. Qed.

Lemma gotos_advance (ms : Z) (m : Machine) : gotos (advance ms m) = gotos m.
Proof. apply advance_frame. Qed.

Lemma listening_advance (ms : Z) (m : Machine) :
  listening (advance ms m) = listening m.
Proof. apply advance_frame. Qed.

Lemma now_advance (ms : Z) (m : Machine) :
  now (advance ms m) = (now m + Z.max 0 ms)%Z.
Proof. apply advance_frame. Qed.

Ltac frame :=
  repeat (rewrite ?calls_advance, ?gotos_advance, ?listening_advance,
            ?now_advance;
          cbn [calls gotos listening now this console network reading
               say record_call set_this set_now set_console set_calls
               set_network set_listening set_reading set_gotos]).

(** ** What every method of the engine preserves *)

Ltac preserve R_refl R_trans :=
  repeat (intros;
    lazymatch goal with
    | |- preserves _ (bindM _ _) => apply preserves_bind; [exact R_trans | | ]
    | |- preserves _ (try_catch _ _) => apply preserves_try_catch; [exact R_trans | | ]
    | |- preserves _ (try_finally _ _) => apply preserves_try_finally; [exact R_trans | | ]
    | |- preserves _ (ret _) => apply preserves_ret; exact R_refl
    | |- preserves _ (throw _) => apply preserves_throw; exact R_refl
    | |- preserves _ unfinished => apply preserves_unfinished; exact R_refl
    | |- preserves _ (lift _) => apply preserves_lift; exact R_refl
    | |- preserves _ (read _) => apply preserves_read; exact R_refl
    | |- preserves _ (update _) => apply preserves_update; intros
    | |- preserves _ (match ?x with _ => _ end) => destruct x
    end).

Section Methods.

Context (R : Machine -> Machine -> Prop).
Hypothesis R_refl : forall m, R m m.
Hypothesis R_trans : forall a b c, R a b -> R b c -> R a c.
Hypothesis R_say : forall e m, R m (say e m).
Hypothesis R_call : forall c m, R m (record_call c m).
Hypothesis R_gotos : forall n m, R m (set_gotos n m).
Hypothesis R_advance : forall ms m, R m (advance ms m).
Hypothesis R_install : forall m,
  R m (set_this (set_failedRequests (Some []) (this m))
                (set_reading [] (set_listening true m))).

Lemma preserves_log (e : log_entry) : preserves R (log e).
Proof. unfold log. preserve R_refl R_trans. auto. Qed.

Lemma preserves_host (c : host_call) : preserves R (host c).
Proof. unfold host. preserve R_refl R_trans. auto. Qed.

Lemma preserves_waitFor (ms : Z) : preserves R (waitFor ms).
Proof. unfold waitFor. preserve R_refl R_trans; auto. Qed.

Lemma preserves_setupAntiDetection : preserves R setupAntiDetection.
Proof.
  unfold setupAntiDetection.
  repeat (apply preserves_bind; [exact R_trans | apply preserves_host | intros]).
  apply preserves_host.
Qed.

Lemma preserves_setupInterception : preserves R setupInterception.
Proof. unfold setupInterception. preserve R_refl R_trans. auto. Qed.

Lemma preserves_page_goto (url : string) : preserves R (page_goto url).
Proof.
  unfold page_goto. preserve R_refl R_trans.
  eapply R_trans; [apply R_gotos | apply R_call].
Qed.

Lemma preserves_page_title : preserves R page_title.
Proof. unfold page_title. preserve R_refl R_trans. auto. Qed.

Lemma preserves_navigation_attempt (url : string) (attempt maxRetries : nat) :
  preserves R (navigation_attempt url attempt maxRetries).
Proof.
  unfold navigation_attempt.
  preserve R_refl R_trans;
    auto using preserves_log, preserves_page_goto, preserves_waitFor,
      preserves_page_title.
Qed.

Lemma preserves_navigate_from (url : string) (maxRetries remaining attempt : nat) :
  preserves R (navigate_from url maxRetries remaining attempt).
Proof.
  revert attempt. induction remaining as [|r IH]; intros attempt; cbn [navigate_from].
  - preserve R_refl R_trans.
  - preserve R_refl R_trans; auto using preserves_navigation_attempt.
Qed.

Lemma preserves_navigateWithRetry (url : string) (maxRetries : nat) :
  preserves R (navigateWithRetry url maxRetries).
Proof. apply preserves_navigate_from. Qed.

Lemma preserves_page_query (sel : selector) : preserves R (page_query sel).
Proof. unfold page_query, Date_now. preserve R_refl R_trans. auto. Qed.

Lemma preserves_checkPageStateAndRetrigger : preserves R checkPageStateAndRetrigger.
Proof.
  unfold checkPageStateAndRetrigger, Date_now.
  preserve R_refl R_trans;
    auto using preserves_log, preserves_page_query, preserves_host.
Qed.

Lemma preserves_poll (startTime maxWait : Z) :
  forall fuel lastDataCount checkCount,
    preserves R (poll fuel startTime maxWait lastDataCount checkCount).
Proof.
  induction fuel as [|f IH]; intros lastDataCount checkCount; cbn [poll]; cbv zeta.
  - preserve R_refl R_trans.
  - unfold Date_now, captured.
    preserve R_refl R_trans;
      auto using preserves_log, preserves_waitFor,
        preserves_checkPageStateAndRetrigger.
Qed.

Lemma R_fold_say (f : FailedRequestRecord -> log_entry)
  (l : list FailedRequestRecord) (m : Machine) :
  R m (fold_left (fun m req => say (f req) m) l m).
Proof.
  revert m. induction l as [|r l IH]; intros m; simpl; [apply R_refl|].
  eapply R_trans; [apply R_say | apply IH].
Qed.

Lemma preserves_after_timeout : preserves R after_timeout.
Proof.
  unfold after_timeout, captured.
  preserve R_refl R_trans; auto using preserves_log.
  apply (R_fold_say (fun req => LogFailedRequest (failed_url req) (failed_error req))).
Qed.

Lemma preserves_waitForSearchResults (maxWait : Z) :
  preserves R (waitForSearchResults maxWait).
Proof.
  unfold waitForSearchResults, Date_now.
  preserve R_refl R_trans;
    auto using preserves_log, preserves_poll, preserves_after_timeout.
Qed.

Lemma preserves_parse_now : preserves R parse_now.
Proof. unfold parse_now, Date_now. preserve R_refl R_trans. Qed.

(** The [try] block of [searchByURL]. *)
Lemma preserves_url_session (searchURL : string) :
  preserves R
    (host NewPage ;; setupAntiDetection ;; host SetRequestInterception ;;
     setupInterception ;; navigateWithRetry searchURL 3 ;;
     waitForSearchResults 60000 ;; parse_now).
Proof.
  preserve R_refl R_trans;
    auto using preserves_host, preserves_setupAntiDetection,
      preserves_setupInterception, preserves_navigateWithRetry,
      preserves_waitForSearchResults, preserves_parse_now.
Qed.

Lemma preserves_searchByURL (searchURL : string) :
  preserves R (searchByURL searchURL).
Proof.
  unfold searchByURL.
  preserve R_refl R_trans;
    auto using preserves_log, preserves_host, preserves_setupAntiDetection,
      preserves_setupInterception, preserves_navigateWithRetry,
      preserves_waitForSearchResults, preserves_parse_now.
Qed.

(** The [try] block of [searchByFormInteraction]. *)
Lemma preserves_form_body :
  preserves R
    (host NewPage ;; setupAntiDetection ;; host SetRequestInterception ;;
     setupInterception ;; page_goto "https://www.united.com" ;; waitFor 3000 ;;
     host FillForm ;; host SubmitForm ;; waitForSearchResults 60000 ;; parse_now).
Proof.
  preserve R_refl R_trans;
    auto using preserves_host, preserves_setupAntiDetection,
      preserves_setupInterception, preserves_page_goto, preserves_waitFor,
      preserves_waitForSearchResults, preserves_parse_now.
Qed.

Lemma preserves_searchByFormInteraction : preserves R searchByFormInteraction.
Proof.
  unfold searchByFormInteraction, form_session, resolve.
  preserve R_refl R_trans;
    auto using preserves_log, preserves_host, preserves_setupAntiDetection,
      preserves_setupInterception, preserves_page_goto, preserves_waitFor,
      preserves_waitForSearchResults, preserves_parse_now.
Qed.

End Methods.

Local Opaque advance.
Local Arguments String.append : simpl never.
Local Arguments Z.mul : simpl never.
Local Arguments Z.max : simpl never.
Local Arguments Z.sub : simpl never.
Local Arguments Z.ltb : simpl never.
Local Arguments Nat.modulo : simpl never.

(** ** Termination of the completion detector *)

Ltac finish :=
  repeat (intros;
    lazymatch goal with
    | |- finishes (bindM _ _) => apply finishes_bind
    | |- finishes (try_catch _ _) => apply finishes_try_catch
    | |- finishes (try_finally _ _) => apply finishes_try_finally
    | |- finishes (ret _) => apply finishes_ret
    | |- finishes (throw _) => apply finishes_throw
    | |- finishes (lift _) => apply finishes_lift
    | |- finishes (read _) => apply finishes_read
    | |- finishes (update _) => apply finishes_update
    | |- finishes (match ?x with _ => _ end) => destruct x
    end).

Lemma finishes_log (e : log_entry) : finishes (log e).
Proof. unfold log. finish. Qed.

Lemma finishes_host (c : host_call) : finishes (host c).
Proof. unfold host. finish. Qed.

Lemma finishes_waitFor (ms : Z) : finishes (waitFor ms).
Proof. unfold waitFor. finish. Qed.

Lemma finishes_page_query (sel : selector) : finishes (page_query sel).
Proof. unfold page_query, Date_now. finish. Qed.

Lemma finishes_checkPageStateAndRetrigger : finishes checkPageStateAndRetrigger.
Proof.
  unfold checkPageStateAndRetrigger, Date_now.
  finish; auto using finishes_log, finishes_page_query, finishes_host.
Qed.

Lemma never_throws_checkPageStateAndRetrigger :
  never_throws checkPageStateAndRetrigger.
Proof.
  unfold checkPageStateAndRetrigger.
  apply never_throws_try_catch. intros e. unfold log. apply never_throws_update.
Qed.

Lemma later_checkPageStateAndRetrigger : preserves later checkPageStateAndRetrigger.
Proof.
  apply preserves_checkPageStateAndRetrigger; unfold later; intros; simpl;
    rewrite ?now_advance; lia.
Qed.

Lemma checkPageStateAndRetrigger_returns (m : Machine) :
  exists m', checkPageStateAndRetrigger m = (Returns tt, m') /\
             (now m <= now m')%Z.
Proof.
  destruct (returns checkPageStateAndRetrigger m
              finishes_checkPageStateAndRetrigger
              never_throws_checkPageStateAndRetrigger) as ([] & m' & E).
  exists m'. split; [exact E|].
  pose proof (later_checkPageStateAndRetrigger m) as H.
  now rewrite E in H.
Qed.

Lemma waitFor_eq (ms : Z) (m : Machine) :
  waitFor ms m = (Returns tt, advance ms (record_call (WaitFor ms) m)).
Proof. reflexivity. Qed.

(** With a second of fuel for every second of budget left, the loop is left
    by its [return] or by its condition, and in the second case the budget
    has elapsed. *)
Lemma poll_returns (startTime maxWait : Z) :
  forall (fuel lastDataCount checkCount : nat) (m : Machine),
    (maxWait - (now m - startTime) <= 1000 * (Z.of_nat fuel - 1))%Z ->
    1 <= fuel ->
    exists exit m',
      poll fuel startTime maxWait lastDataCount checkCount m = (Returns exit, m') /\
      (exit = Elapsed -> (maxWait <= now m' - startTime)%Z).
Proof.
  induction fuel as [|f IH]; intros last check m Hfuel Hpos; [lia|].
  cbn [poll]; cbv zeta. unfold bindM at 1. unfold Date_now, read at 1.
  destruct (Z.ltb_spec (now m - startTime) maxWait) as [Hlt|Hge].
  2:{ exists Elapsed, m. split; [reflexivity|]. intros _. lia. }
  assert (Hrest : forall last' m1, (now m <= now m1)%Z ->
    exists exit m',
      ((if (S check mod 10 =? 0)%nat then checkPageStateAndRetrigger else ret tt) ;;
       waitFor 1000 ;; poll f startTime maxWait last' (S check))%machine m1
      = (Returns exit, m') /\
      (exit = Elapsed -> (maxWait <= now m' - startTime)%Z)).
  { intros last' m1 Hm1. unfold bindM at 1.
    assert (Hchk : exists m2,
      (if (S check mod 10 =? 0)%nat then checkPageStateAndRetrigger else ret tt) m1
      = (Returns tt, m2) /\ (now m1 <= now m2)%Z).
    { destruct (S check mod 10 =? 0)%nat.
      - apply checkPageStateAndRetrigger_returns.
      - exists m1. split; [reflexivity | lia]. }
    destruct Hchk as (m2 & -> & Hm2).
    unfold bindM at 1. rewrite waitFor_eq.
    apply IH.
    - rewrite now_advance. cbn [now record_call set_calls]. lia.
    - lia. }
  unfold bindM at 1. unfold captured, read at 1.
  destruct (last <? List.length (interceptedData (this m)))%nat.
  - unfold bindM at 1. unfold log, update at 1.
    unfold bindM at 1. rewrite waitFor_eq.
    unfold bindM at 1. unfold read at 1.
    match goal with |- context [advance 3000 ?x] => set (m1 := advance 3000 x) end.
    destruct (List.length (interceptedData (this m1)) =? _)%nat.
    + exists Stabilized. eexists. split; [reflexivity | discriminate].
    + apply Hrest. subst m1. rewrite now_advance.
      cbn [now record_call set_calls say set_console]. lia.
  - apply Hrest. lia.
Qed.

Lemma fuel_for_enough (maxWait : Z) :
  (maxWait <= 1000 * (Z.of_nat (fuel_for maxWait) - 1))%Z /\ 1 <= fuel_for maxWait.
Proof.
  unfold fuel_for. split; [|lia].
  destruct (Z.le_gt_cases 0 maxWait) as [H|H].
  - rewrite !Nat2Z.inj_succ, Z2Nat.id by (apply Z.div_pos; lia).
    pose proof (Z.mul_succ_div_gt maxWait 1000). lia.
  - lia.
Qed.

(** ** The completion detector at the end of its budget *)

Lemma set_console_same (m : Machine) : set_console (console m) m = m.
Proof. now destruct m. Qed.

Lemma fold_say (f : FailedRequestRecord -> log_entry)
  (l : list FailedRequestRecord) (m : Machine) :
  fold_left (fun m req => say (f req) m) l m =
  set_console (console m ++ map f l) m.
Proof.
  revert m. induction l as [|r l IH]; intros m; simpl.
  - now rewrite app_nil_r, set_console_same.
  - rewrite IH. unfold say, set_console. simpl. now rewrite <- app_assoc.
Qed.

Lemma after_timeout_eq (m : Machine) :
  after_timeout m =
  (if (List.length (interceptedData (this m)) =? 0)%nat
   then Throws (Js.Error no_data_message) else Returns tt,
   set_console (console m ++ failure_log (failedRequests (this m))) m).
Proof.
  unfold after_timeout, failure_log, captured, log, bindM, read, update, throw, ret.
  destruct (failedRequests (this m)) as [[|r rs]|] eqn:F.
  - rewrite app_nil_r, set_console_same. now destruct (_ =? _)%nat.
  - rewrite fold_say. unfold say, set_console. cbn [this console].
    rewrite <- app_assoc. now destruct (_ =? _)%nat.
  - rewrite app_nil_r, set_console_same. now destruct (_ =? _)%nat.
Qed.

(** C3, as amended.  [waitForSearchResults] always ends: its loop is left
    by stabilisation or because the budget [maxWait] has elapsed.  In the
    second case it first writes the accumulated failure records to the
    console (they stay in [this.failedRequests]; the instance is not
    changed), and then, with no capture, throws an [Error] whose message is
    a fixed text that carries none of them, and, with at least one capture,
    returns normally. *)
Theorem waitForSearchResults_at_timeout (maxWait : Z) (m : Machine) :
  exists exit m1,
    poll (fuel_for maxWait) (now m) maxWait 0 0 (say LogWaiting m)
      = (Returns exit, m1) /\
    match exit with
    | Stabilized => waitForSearchResults maxWait m = (Returns tt, m1)
    | Elapsed =>
        (maxWait <= now m1 - now m)%Z /\
        let m2 := set_console
                    (console m1 ++ failure_log (failedRequests (this m1))) m1 in
        this m2 = this m1 /\
        (interceptedData (this m1) = [] ->
         waitForSearchResults maxWait m =
           (Throws (Js.Error no_data_message), m2)) /\
        (interceptedData (this m1) <> [] ->
         waitForSearchResults maxWait m = (Returns tt, m2))
    end.
Proof.
  destruct (fuel_for_enough maxWait) as [Hfuel Hpos].
  destruct (poll_returns (now m) maxWait (fuel_for maxWait) 0 0 (say LogWaiting m))
    as (exit & m1 & Hpoll & Hel); auto.
  { cbn [now say set_console]. lia. }
  exists exit, m1. split; [exact Hpoll|].
  assert (Hrun : waitForSearchResults maxWait m =
                 match exit with
                 | Stabilized => (Returns tt, m1)
                 | Elapsed => after_timeout m1
                 end).
  { unfold waitForSearchResults, log, Date_now.
    unfold bindM at 1. unfold update at 1.
    unfold bindM at 1. unfold read at 1.
    unfold bindM at 1. cbn [now say set_console].
    change (mkMachine (this m) (now m) (console m ++ [LogWaiting]) (calls m)
              (network m) (listening m) (reading m) (gotos m))
      with (say LogWaiting m).
    rewrite Hpoll. now destruct exit. }
  destruct exit; [exact Hrun|].
  cbn [now say set_console] in Hel.
  split; [auto|]. cbv zeta. split; [reflexivity|].
  rewrite Hrun, after_timeout_eq.
  split; intros H.
  - now rewrite H.
  - destruct (interceptedData (this m1)); [congruence|reflexivity].
Qed.

(** ** The navigation retrier *)

(** An attempt that fails with an exception: the last one throws the
    navigation error, any other waits [2000 * attempt] ms and goes on. *)
Lemma navigation_attempt_throws (url : string) (attempt maxRetries : nat)
  (m : Machine) (e : Js.error) :
  attempt_throws (S (gotos m)) = Some e ->
  exists m',
    navigation_attempt url attempt maxRetries m =
      (if (attempt =? maxRetries)%nat
       then Throws (navigation_error maxRetries e)
       else Returns false, m') /\
    gotos m' = S (gotos m) /\
    calls m' = (calls m ++
                failed_attempt_calls url (S (gotos m)) attempt maxRetries)%list.
Proof.
  unfold attempt_throws, failed_attempt_calls, navigation_attempt, try_catch,
    page_goto, page_title, waitFor, log, update, read, bindM, lift.
  simpl. intros H.
  destruct (goto_result B (S (gotos m))) as [[]|e1] eqn:G; simpl.
  - rewrite gotos_advance. simpl.
    destruct (title_result B (S (gotos m))) as [title|e2]; [discriminate|].
    injection H as ->. simpl.
    destruct (attempt =? maxRetries)%nat; simpl;
      (eexists; split; [reflexivity|]); frame; split; auto;
      now rewrite <- !app_assoc.
  - injection H as ->.
    destruct (attempt =? maxRetries)%nat; simpl;
      (eexists; split; [reflexivity|]); frame; split; auto;
      now rewrite <- !app_assoc.
Qed.

Lemma navigate_from_exhausted (url : string) (N g0 : nat)
  (errs : nat -> Js.error) :
  forall (remaining attempt : nat) (m : Machine),
    attempt + remaining = S N -> 1 <= remaining ->
    gotos m + 1 = g0 + attempt ->
    (forall k, attempt <= k <= N -> attempt_throws (g0 + k) = Some (errs k)) ->
    exists m',
      navigate_from url N remaining attempt m =
        (Throws (navigation_error N (errs N)), m') /\
      gotos m' = g0 + N /\
      calls m' =
        (calls m ++
         flat_map (fun k => failed_attempt_calls url (g0 + k) k N)
                  (seq attempt remaining))%list.
Proof.
  induction remaining as [|r IH]; intros attempt m Hsum Hrem Hg Herr; [lia|].
  assert (Hcur : attempt_throws (S (gotos m)) = Some (errs attempt)).
  { replace (S (gotos m)) with (g0 + attempt) by lia. apply Herr. lia. }
  destruct (navigation_attempt_throws url attempt N m _ Hcur)
    as (m1 & Hrun & Hg1 & Hc1).
  cbn [navigate_from]. unfold bindM at 1. rewrite Hrun.
  replace (S (gotos m)) with (g0 + attempt) in Hc1 by lia.
  destruct (Nat.eqb_spec attempt N) as [->|Hne].
  - assert (r = 0) by lia. subst r.
    exists m1. repeat split; [lia|]. simpl. now rewrite app_nil_r.
  - destruct (IH (S attempt) m1) as (m' & Hrun' & Hg' & Hc'); try lia.
    + intros k Hk. apply Herr. lia.
    + exists m'. repeat split; auto.
      rewrite Hc', Hc1. cbn [seq flat_map]. now rewrite <- app_assoc.
Qed.


(** ** The browser session *)

Lemma finishes_navigate_from (url : string) (maxRetries remaining attempt : nat) :
  finishes (navigate_from url maxRetries remaining attempt).
Proof.
  revert attempt. induction remaining as [|r IH]; intros attempt; cbn [navigate_from].
  - finish.
  - apply finishes_bind.
    + unfold navigation_attempt, page_goto, page_title.
      finish; auto using finishes_log, finishes_waitFor.
    + intros []; [finish | apply IH].
Qed.

Lemma finishes_waitForSearchResults (maxWait : Z) :
  finishes (waitForSearchResults maxWait).
Proof.
  intros m.
  destruct (fuel_for_enough maxWait) as [Hfuel Hpos].
  destruct (poll_returns (now m) maxWait (fuel_for maxWait) 0 0 (say LogWaiting m))
    as (exit & m1 & Hpoll & _); auto.
  { cbn [now say set_console]. lia. }
  unfold waitForSearchResults, log, Date_now.
  unfold bindM at 1. unfold update at 1.
  unfold bindM at 1. unfold read at 1.
  unfold bindM at 1. cbn [now say set_console].
  change (mkMachine (this m) (now m) (console m ++ [LogWaiting]) (calls m)
            (network m) (listening m) (reading m) (gotos m))
    with (say LogWaiting m).
  rewrite Hpoll. destruct exit; [discriminate|].
  rewrite after_timeout_eq. now destruct (_ =? _)%nat.
Qed.

Lemma finishes_url_session (searchURL : string) :
  finishes
    (host NewPage ;; setupAntiDetection ;; host SetRequestInterception ;;
     setupInterception ;; navigateWithRetry searchURL 3 ;;
     waitForSearchResults 60000 ;; parse_now).
Proof.
  unfold setupAntiDetection, setupInterception, navigateWithRetry, parse_now,
    Date_now.
  finish;
    auto using finishes_host, finishes_navigate_from, finishes_waitForSearchResults.
Qed.

Lemma extends_calls_refl (m : Machine) : extends_calls m m.
Proof. exists []. now rewrite app_nil_r. Qed.

Lemma extends_calls_trans (a b c : Machine) :
  extends_calls a b -> extends_calls b c -> extends_calls a c.
Proof.
  intros [x Hx] [y Hy]. exists (x ++ y)%list. now rewrite Hy, Hx, app_assoc.
Qed.

Ltac calls_frame :=
  intros;
  first [ exists []; rewrite ?calls_advance; simpl; now rewrite app_nil_r
        | eexists; reflexivity ].

Lemma extends_calls_url_session (searchURL : string) :
  preserves extends_calls
    (host NewPage ;; setupAntiDetection ;; host SetRequestInterception ;;
     setupInterception ;; navigateWithRetry searchURL 3 ;;
     waitForSearchResults 60000 ;; parse_now).
Proof.
  apply (preserves_url_session extends_calls extends_calls_refl
           extends_calls_trans); calls_frame.
Qed.

Lemma finishes_form_body :
  finishes
    (host NewPage ;; setupAntiDetection ;; host SetRequestInterception ;;
     setupInterception ;; page_goto "https://www.united.com" ;; waitFor 3000 ;;
     host FillForm ;; host SubmitForm ;; waitForSearchResults 60000 ;; parse_now).
Proof.
  unfold setupAntiDetection, setupInterception, page_goto, parse_now, Date_now.
  finish;
    auto using finishes_host, finishes_waitFor, finishes_waitForSearchResults.
Qed.

Lemma extends_calls_form_body :
  preserves extends_calls
    (host NewPage ;; setupAntiDetection ;; host SetRequestInterception ;;
     setupInterception ;; page_goto "https://www.united.com" ;; waitFor 3000 ;;
     host FillForm ;; host SubmitForm ;; waitForSearchResults 60000 ;; parse_now).
Proof.
  apply (preserves_form_body extends_calls extends_calls_refl
           extends_calls_trans); calls_frame.
Qed.

Lemma host_eq (c : host_call) (m : Machine) :
  host c m =
  (match reply B c with Ok _ => Returns tt | Throw e => Throws e end,
   record_call c m).
Proof. unfold host, bindM, update, lift. destruct (reply B c) as [[]|e]; reflexivity. Qed.

(** What [try { c } finally { await browser.close() }] adds to the trace:
    the calls of [c], then [Close], however [c] ends. *)
Lemma try_finally_close {A} (c : M A) (m : Machine) :
  finishes c -> preserves extends_calls c ->
  fst (try_finally c (host Close) m) <> Unfinished /\
  exists mid,
    calls (snd (try_finally c (host Close) m)) = (calls m ++ mid ++ [Close])%list.
Proof.
  intros Hf Hp. specialize (Hf m). destruct (Hp m) as [mid Hmid].
  unfold try_finally, host, bindM, update, lift.
  destruct (c m) as [[a|e|] m1]; simpl in *; try congruence;
    (split; [destruct (reply B Close); simpl; discriminate|]);
    exists mid; destruct (reply B Close); simpl;
    now rewrite Hmid, <- app_assoc.
Qed.

(** A session: the launch, then a body scoped by [try]/[finally].  It
    ends; after a successful launch its last call is [Close]; after a
    failed launch there is no session and the exception goes out. *)
Lemma session_released {A} (body : M A) (m : Machine) :
  finishes body -> preserves extends_calls body ->
  fst ((host Launch ;; try_finally body (host Close)) m) <> Unfinished /\
  match reply B Launch with
  | Ok _ =>
      exists mid,
        calls (snd ((host Launch ;; try_finally body (host Close)) m)) =
          (calls m ++ Launch :: mid ++ [Close])%list
  | Throw e =>
      fst ((host Launch ;; try_finally body (host Close)) m) = Throws e /\
      calls (snd ((host Launch ;; try_finally body (host Close)) m)) =
        (calls m ++ [Launch])%list
  end.
Proof.
  intros Hf Hp. unfold bindM. rewrite host_eq.
  destruct (reply B Launch) as [[]|e].
  - destruct (try_finally_close body (record_call Launch m) Hf Hp)
      as (Hfin & mid & Hmid).
    split; [exact Hfin|]. exists mid. rewrite Hmid.
    cbn [calls record_call set_calls]. now rewrite <- app_assoc.
  - cbn [fst snd]. repeat split; try discriminate; auto.
Qed.

(** C8.  [searchByURL] always ends, and when the launch succeeds the last
    call it issues, after everything else and however the stages in between
    end (a result, or an exception of any stage), is [browser.close()];
    when the launch fails there is no session and its exception goes out.
    The same holds of the part of [searchByFormInteraction] that launches
    the browser and works in it; [searchByFormInteraction] itself exits
    before that part, having issued no call, with no session to release. *)
Theorem browser_session_released (searchURL : string) (m : Machine) :
  (fst (searchByURL searchURL m) <> Unfinished /\
   match reply B Launch with
   | Ok _ =>
       exists mid,
         calls (snd (searchByURL searchURL m)) =
           (calls m ++ Launch :: mid ++ [Close])%list
   | Throw e =>
       fst (searchByURL searchURL m) = Throws e /\
       calls (snd (searchByURL searchURL m)) = (calls m ++ [Launch])%list
   end) /\
  (fst (form_session m) <> Unfinished /\
   match reply B Launch with
   | Ok _ =>
       exists mid,
         calls (snd (form_session m)) = (calls m ++ Launch :: mid ++ [Close])%list
   | Throw e =>
       fst (form_session m) = Throws e /\
       calls (snd (form_session m)) = (calls m ++ [Launch])%list
   end) /\
  fst (searchByFormInteraction m) <> Unfinished /\
  calls (snd (searchByFormInteraction m)) = calls m.
Proof.
  split; [|split; [|split; [discriminate | reflexivity]]].
  - assert (E : searchByURL searchURL m =
                (host Launch ;;
                 try_finally
                   (host NewPage ;; setupAntiDetection ;;
                    host SetRequestInterception ;; setupInterception ;;
                    navigateWithRetry searchURL 3 ;;
                    waitForSearchResults 60000 ;; parse_now)
                   (host Close))%machine (say (LogNavigating searchURL) m))
      by reflexivity.
    rewrite E.
    apply (session_released _ (say (LogNavigating searchURL) m)
             (finishes_url_session searchURL)
             (extends_calls_url_session searchURL)).
  - apply (session_released _ m finishes_form_body extends_calls_form_body).
Qed.

(** ** The capture list *)

(** A handler run leaves the capture list as it is or appends one capture
    stamped with the current instant. *)
Lemma handle_captures (ev : net_event) (m : Machine) :
  exists added,
    interceptedData (this (handle ev m)) = (interceptedData (this m) ++ added)%list /\
    List.length added <= 1 /\
    Forall (fun c => timestamp c = now m) added.
Proof.
  assert (Hsame : forall m', interceptedData (this m') = interceptedData (this m) ->
    exists added,
      interceptedData (this m') = (interceptedData (this m) ++ added)%list /\
      List.length added <= 1 /\ Forall (fun c => timestamp c = now m) added).
  { intros m' E. exists []. rewrite app_nil_r. repeat split; auto. }
  unfold handle. destruct (listening m); [|now apply Hsame].
  destruct ev as [u t|r|id body].
  - unfold onRequestFailed. destruct (_ || _); now apply Hsame.
  - unfold onResponse. destruct (includes _ "/api/"), (isFetchFlightsAPI _);
      try destruct (_ =? _)%Z; now apply Hsame.
  - unfold onBodyRead. destruct (take_reader id (reading m)) as [[r rest]|];
      [|now apply Hsame].
    unfold resume, parse_failed.
    destruct body as [text|e]; [|destruct e; now apply Hsame].
    destruct (_ || _); [now apply Hsame|].
    destruct (JSON_parse text) as [payload|e]; [|now apply Hsame].
    eexists [_]. repeat split; auto.
Qed.

(** The response handler appends exactly one capture for a response whose
    body has been read, is not blank and parses. *)
Lemma handle_body_parsed (id : nat) (r : Response) (rest : list Response)
  (text : string) (payload : value) (m : Machine) :
  listening m = true ->
  take_reader id (reading m) = Some (r, rest) ->
  is_empty text || is_empty (trim text) = false ->
  JSON_parse text = Ok payload ->
  interceptedData (this (handle (BodyRead id (Ok text)) m)) =
    (interceptedData (this m) ++
     [mkCapture (response_url r) (now m) (response_status r)
                (response_headers r) payload (String.length text)])%list.
Proof.
  intros L T E P. unfold handle, onBodyRead, resume. now rewrite L, T, E, P.
Qed.

Lemma extends_captures_refl (m : Machine) : extends_captures m m.
Proof. exists []. now rewrite app_nil_r. Qed.

Lemma extends_captures_trans (a b c : Machine) :
  extends_captures a b -> extends_captures b c -> extends_captures a c.
Proof.
  intros [x Hx] [y Hy]. exists (x ++ y)%list. now rewrite Hy, Hx, app_assoc.
Qed.

Lemma extends_captures_same (m m' : Machine) :
  interceptedData (this m') = interceptedData (this m) -> extends_captures m m'.
Proof. intros E. exists []. now rewrite app_nil_r. Qed.

Lemma run_due_extends (deadline : Z) (evs : list (Z * net_event)) (m : Machine) :
  extends_captures m (run_due deadline evs m).
Proof.
  revert m. induction evs as [|[te ev] evs IH]; intros m; simpl.
  - now apply extends_captures_same.
  - destruct (te <=? deadline)%Z; [|now apply extends_captures_same].
    eapply extends_captures_trans; [|apply IH].
    destruct (handle_captures ev (set_now (Z.max te (now m)) m)) as (added & E & _).
    exists added. exact E.
Qed.

Lemma strongly_sorted_snoc (l : list Z) (a : Z) :
  StronglySorted Z.le l -> Forall (fun x => (x <= a)%Z) l ->
  StronglySorted Z.le (l ++ [a]).
Proof.
  induction l as [|x l IH]; intros Hs Hle; simpl.
  - repeat constructor.
  - inversion Hs; subst. inversion Hle; subst. constructor; auto.
    apply Forall_app. split; auto.
Qed.

Lemma chronological_later (m : Machine) (t : Z) :
  (now m <= t)%Z -> chronological m -> chronological (set_now t m).
Proof.
  intros Ht [Hs Hf]. split; [exact Hs|]. simpl.
  eapply Forall_impl; [|exact Hf]. simpl. intros; lia.
Qed.

Lemma handle_chronological (ev : net_event) (m : Machine) :
  chronological m -> chronological (handle ev m).
Proof.
  intros [Hs Hf].
  destruct (handle_captures ev m) as (added & E & Hlen & Hnow).
  destruct (handle_frame ev m) as (_ & _ & Hn & _).
  unfold chronological. rewrite E, Hn.
  destruct added as [|c [|c' added]]; simpl in Hlen; try lia.
  - now rewrite app_nil_r.
  - inversion Hnow as [|? ? Hc _]; subst. split.
    + rewrite map_app. simpl. apply strongly_sorted_snoc; auto.
      rewrite Forall_map, Hc. exact Hf.
    + apply Forall_app. split; auto. constructor; auto. lia.
Qed.

Lemma run_due_chronological (deadline : Z) (evs : list (Z * net_event))
  (m : Machine) :
  chronological m -> chronological (run_due deadline evs m).
Proof.
  revert m. induction evs as [|[te ev] evs IH]; intros m H; simpl.
  - exact H.
  - destruct (te <=? deadline)%Z; [|exact H].
    apply IH, handle_chronological, chronological_later; auto. lia.
Qed.

Lemma advance_extends (ms : Z) (m : Machine) : extends_captures m (advance ms m).
Proof.
  destruct (run_due_extends (now m + Z.max 0 ms) (network m) m) as [added E].
  exists added. rewrite <- E. reflexivity.
Qed.

Lemma advance_chronological (ms : Z) (m : Machine) :
  chronological m -> chronological (advance ms m).
Proof.
  intros H.
  pose proof (run_due_chronological (now m + Z.max 0 ms) (network m) m H) as H'.
  destruct (run_due_frame (now m + Z.max 0 ms) (network m) m) as (_ & _ & _ & Hn & _).
  assert (E : advance ms m =
              set_now (now m + Z.max 0 ms)
                      (run_due (now m + Z.max 0 ms) (network m) m)) by reflexivity.
  rewrite E. apply chronological_later; auto. apply Hn. lia.
Qed.

Lemma stays_chronological_same (m m' : Machine) :
  interceptedData (this m') = interceptedData (this m) -> now m' = now m ->
  stays_chronological m m'.
Proof. unfold stays_chronological, chronological. intros -> ->. auto. Qed.

Lemma stays_chronological_refl (m : Machine) : stays_chronological m m.
Proof. intros H. exact H. Qed.

Lemma stays_chronological_trans (a b c : Machine) :
  stays_chronological a b -> stays_chronological b c -> stays_chronological a c.
Proof. unfold stays_chronological. auto. Qed.

Ltac captures_frame :=
  first [ exact extends_captures_refl
        | exact extends_captures_trans
        | exact stays_chronological_refl
        | exact stays_chronological_trans
        | intros;
          first [ apply advance_extends
                | exact (advance_chronological _ _)
                | apply extends_captures_same; reflexivity
                | apply stays_chronological_same; reflexivity ] ].

(** C7, as amended.  The capture list only ever grows at its end: a handler
    run appends at most one capture; the response handler appends exactly
    one for a qualifying response whose body has been read, is not blank
    and parses; and no method other than [clearData] (delays, navigation,
    the completion detector, the two searches) removes or reorders
    captures.  The order of the list is the order in which the bodies
    finished being read, which is the order of the captures' timestamps;
    it is the order in which the responses arrived only when their bodies
    are read in that order. *)
Theorem capture_list_append_only :
  (forall ev m,
     exists added,
       interceptedData (this (handle ev m)) =
         (interceptedData (this m) ++ added)%list /\
       List.length added <= 1) /\
  (forall id r rest text payload m,
     listening m = true ->
     take_reader id (reading m) = Some (r, rest) ->
     is_empty text || is_empty (trim text) = false ->
     JSON_parse text = Ok payload ->
     interceptedData (this (handle (BodyRead id (Ok text)) m)) =
       (interceptedData (this m) ++
        [mkCapture (response_url r) (now m) (response_status r)
                   (response_headers r) payload (String.length text)])%list) /\
  (forall ms, preserves extends_captures (waitFor ms)) /\
  (forall url n, preserves extends_captures (navigateWithRetry url n)) /\
  (forall maxWait, preserves extends_captures (waitForSearchResults maxWait)) /\
  (forall url, preserves extends_captures (searchByURL url)) /\
  preserves extends_captures searchByFormInteraction /\
  (forall ms m, chronological m -> chronological (advance ms m)) /\
  (forall url, preserves stays_chronological (searchByURL url)).
Proof.
  split; [|split; [|split; [|split; [|split; [|split; [|split; [|split]]]]]]].
  - intros ev m. destruct (handle_captures ev m) as (added & E & Hlen & _). eauto.
  - apply handle_body_parsed.
  - intros ms. apply preserves_waitFor; captures_frame.
  - intros url n. apply preserves_navigateWithRetry; captures_frame.
  - intros maxWait. apply preserves_waitForSearchResults; captures_frame.
  - intros url. apply preserves_searchByURL; captures_frame.
  - apply preserves_searchByFormInteraction; captures_frame.
  - apply advance_chronological.
  - intros url. apply preserves_searchByURL; captures_frame.
Qed.

(** ** The completion detector, tick by tick *)

Lemma poll_elapsed (f : nat) (s w : Z) (last check : nat) (m : Machine) :
  (w <= now m - s)%Z ->
  poll (S f) s w last check m = (Returns Elapsed, m).
Proof.
  intros H. cbn [poll]; cbv zeta. unfold bindM at 1. unfold Date_now, read at 1.
  destruct (Z.ltb_spec (now m - s) w); [lia | reflexivity].
Qed.

(** A tick that sees no new capture waits a second. *)
Lemma poll_idle (f : nat) (s w : Z) (last check : nat) (m : Machine) :
  (now m - s < w)%Z ->
  List.length (interceptedData (this m)) <= last ->
  (S check mod 10 =? 0)%nat = false ->
  poll (S f) s w last check m =
  poll f s w last (S check) (advance 1000 (record_call (WaitFor 1000) m)).
Proof.
  intros Ht Hn Hc. cbn [poll]; cbv zeta. unfold bindM at 1. unfold Date_now, read at 1.
  destruct (Z.ltb_spec (now m - s) w); [|lia].
  unfold bindM at 1. unfold captured, read at 1.
  destruct (Nat.ltb_spec last (List.length (interceptedData (this m)))); [lia|].
  rewrite Hc. reflexivity.
Qed.

(** A tick that sees new captures waits out the stabilisation window: with
    no further capture in the window it declares completion... *)
Lemma poll_stable (f : nat) (s w : Z) (last check n : nat) (m : Machine) :
  List.length (interceptedData (this m)) = n ->
  (now m - s < w)%Z -> last < n ->
  List.length
    (interceptedData
       (this (advance 3000 (record_call (WaitFor 3000) (say (LogReceived n) m)))))
    = n ->
  poll (S f) s w last check m =
  (Returns Stabilized,
   say LogCompleted
     (advance 3000 (record_call (WaitFor 3000) (say (LogReceived n) m)))).
Proof.
  intros Hm Ht Hn Hs. cbn [poll]; cbv zeta.
  unfold bindM at 1. unfold Date_now, read at 1.
  destruct (Z.ltb_spec (now m - s) w); [|lia].
  unfold bindM at 1. unfold captured, read at 1. rewrite Hm.
  destruct (Nat.ltb_spec last n); [|lia].
  unfold bindM at 1. unfold log, update at 1.
  unfold bindM at 1. rewrite waitFor_eq.
  unfold bindM at 1. unfold read at 1.
  rewrite Hs, Nat.eqb_refl. reflexivity.
Qed.

(** ... and with a further capture in the window it goes on to the next
    tick, a second later, where the growth is seen anew. *)
Lemma poll_unstable (f : nat) (s w : Z) (last check n : nat) (m : Machine) :
  List.length (interceptedData (this m)) = n ->
  (now m - s < w)%Z -> last < n ->
  List.length
    (interceptedData
       (this (advance 3000 (record_call (WaitFor 3000) (say (LogReceived n) m)))))
    <> n ->
  (S check mod 10 =? 0)%nat = false ->
  poll (S f) s w last check m =
  poll f s w n (S check)
       (advance 1000
          (record_call (WaitFor 1000)
             (advance 3000 (record_call (WaitFor 3000) (say (LogReceived n) m))))).
Proof.
  intros Hm Ht Hn Hs Hc. cbn [poll]; cbv zeta.
  unfold bindM at 1. unfold Date_now, read at 1.
  destruct (Z.ltb_spec (now m - s) w); [|lia].
  unfold bindM at 1. unfold captured, read at 1. rewrite Hm.
  destruct (Nat.ltb_spec last n); [|lia].
  unfold bindM at 1. unfold log, update at 1.
  unfold bindM at 1. rewrite waitFor_eq.
  unfold bindM at 1. unfold read at 1.
  match goal with |- context [(?x =? n)%nat] =>
    destruct (Nat.eqb_spec x n); [congruence|] end.
  rewrite Hc. reflexivity.
Qed.

(** ** What a delay lets the detector see *)

Lemma advance_eq (ms : Z) (m : Machine) :
  advance ms m =
  set_now (now m + Z.max 0 ms) (run_due (now m + Z.max 0 ms) (network m) m).
Proof. reflexivity. Qed.

Lemma handle_response_capturable (r : Response) (m : Machine) :
  listening m = true ->
  isFetchFlightsAPI (response_url r) = true -> response_status r = 200%Z ->
  reading (handle (ResponseReceived r) m) = (reading m ++ [r])%list /\
  interceptedData (this (handle (ResponseReceived r) m)) = interceptedData (this m).
Proof.
  intros Hl Hq Hs. unfold handle, onResponse. rewrite Hl, Hq, Hs.
  destruct (includes (response_url r) "/api/"); split; reflexivity.
Qed.

Lemma handle_body_reading (id : nat) (r : Response) (rest : list Response)
  (text : string) (payload : value) (m : Machine) :
  listening m = true ->
  take_reader id (reading m) = Some (r, rest) ->
  is_empty text || is_empty (trim text) = false ->
  JSON_parse text = Ok payload ->
  reading (handle (BodyRead id (Ok text)) m) = rest.
Proof.
  intros L T E P. unfold handle, onBodyRead, resume. now rewrite L, T, E, P.
Qed.

(** A capturable response and the reading of its body, both due: one more
    capture. *)
Lemma run_due_capture (d a : Z) (r : Response) (body : string)
  (rest : list (Z * net_event)) (m : Machine) :
  (a <= d)%Z -> listening m = true -> reading m = [] ->
  capturable trim JSON_parse r body ->
  exists m1,
    run_due d ((a, ResponseReceived r) ::
               (a, BodyRead (response_id r) (Ok body)) :: rest) m
      = run_due d rest m1 /\
    listening m1 = true /\ reading m1 = [] /\
    List.length (interceptedData (this m1)) =
      S (List.length (interceptedData (this m))).
Proof.
  intros Ha Hl Hr (Hq & Hs & Hb & payload & Hp).
  cbn [run_due]. destruct (Z.leb_spec a d); [|lia].
  eexists. split; [reflexivity|].
  set (m1 := handle (ResponseReceived r) (set_now (Z.max a (now m)) m)).
  assert (Hl1 : listening m1 = true).
  { subst m1. destruct (handle_frame (ResponseReceived r)
                          (set_now (Z.max a (now m)) m)) as (_ & _ & _ & -> & _).
    exact Hl. }
  destruct (handle_response_capturable r (set_now (Z.max a (now m)) m) Hl Hq Hs)
    as [Hr1 Hc1].
  fold m1 in Hr1, Hc1. cbn [reading this set_now] in Hr1, Hc1. rewrite Hr in Hr1.
  set (m2 := set_now (Z.max a (now m1)) m1).
  assert (Ht : take_reader (response_id r) (reading m2) = Some (r, [])).
  { subst m2. cbn [reading set_now]. rewrite Hr1. cbn. now rewrite Nat.eqb_refl. }
  assert (Hl2 : listening m2 = true) by exact Hl1.
  split; [|split].
  - destruct (handle_frame (BodyRead (response_id r) (Ok body)) m2)
      as (_ & _ & _ & -> & _). exact Hl2.
  - apply (handle_body_reading _ r [] body payload m2); auto.
  - rewrite (handle_body_parsed _ r [] body payload m2); auto.
    rewrite length_app. subst m2. cbn [this set_now]. rewrite Hc1. cbn. lia.
Qed.

Lemma run_due_later (d te : Z) (ev : net_event) (rest : list (Z * net_event))
  (m : Machine) :
  (d < te)%Z ->
  run_due d ((te, ev) :: rest) m = set_network ((te, ev) :: rest) m.
Proof. intros H. cbn [run_due]. destruct (Z.leb_spec te d); [lia | reflexivity]. Qed.

Lemma observes_say (e : log_entry) (m : Machine) t n net :
  observes m t n net -> observes (say e m) t n net.
Proof. intros H. exact H. Qed.

Lemma observes_record_call (c : host_call) (m : Machine) t n net :
  observes m t n net -> observes (record_call c m) t n net.
Proof. intros H. exact H. Qed.

(** A delay that ends before the next event shows nothing new. *)
Lemma advance_sees_nothing (ms : Z) (m : Machine) t n net :
  observes m t n net -> (0 <= ms)%Z ->
  match net with
  | [] => True
  | (te, _) :: _ => (t + ms < te)%Z
  end ->
  observes (advance ms m) (t + ms) n net.
Proof.
  intros (Hn & Hl & Hr & Hc & Hnet) Hms Hnext.
  rewrite advance_eq, Hnet, Hn, Z.max_r by lia.
  destruct net as [|[te ev] rest].
  - cbn. unfold observes. cbn. auto.
  - rewrite run_due_later by lia. unfold observes. cbn. auto.
Qed.

(** A delay that covers one capturable response, read at [a], and ends
    before the next event shows one more capture. *)
Lemma advance_sees_one (ms a : Z) (r : Response) (body : string)
  (m : Machine) t n rest :
  observes m t n ((a, ResponseReceived r) ::
                  (a, BodyRead (response_id r) (Ok body)) :: rest) ->
  capturable trim JSON_parse r body ->
  (0 <= ms)%Z -> (a <= t + ms)%Z ->
  match rest with
  | [] => True
  | (te, _) :: _ => (t + ms < te)%Z
  end ->
  observes (advance ms m) (t + ms) (S n) rest.
Proof.
  intros (Hn & Hl & Hr & Hc & Hnet) Hcap Hms Ha Hnext.
  rewrite advance_eq, Hnet, Hn, Z.max_r by lia.
  destruct (run_due_capture (t + ms) a r body rest m Ha Hl Hr Hcap)
    as (m1 & -> & Hl1 & Hr1 & Hc1).
  destruct rest as [|[te ev] rest].
  - cbn. unfold observes. cbn. rewrite Hc1, Hc. auto.
  - rewrite run_due_later by lia. unfold observes. cbn. rewrite Hc1, Hc. auto.
Qed.

(** A delay that covers two capturable responses, the last events to come,
    shows two more captures. *)
Lemma advance_sees_two (ms a b : Z) (r1 r2 : Response) (body1 body2 : string)
  (m : Machine) t n :
  observes m t n [(a, ResponseReceived r1);
                  (a, BodyRead (response_id r1) (Ok body1));
                  (b, ResponseReceived r2);
                  (b, BodyRead (response_id r2) (Ok body2))] ->
  capturable trim JSON_parse r1 body1 ->
  capturable trim JSON_parse r2 body2 ->
  (0 <= ms)%Z -> (a <= t + ms)%Z -> (b <= t + ms)%Z ->
  observes (advance ms m) (t + ms) (S (S n)) [].
Proof.
  intros (Hn & Hl & Hr & Hc & Hnet) Hcap1 Hcap2 Hms Ha Hb.
  rewrite advance_eq, Hnet, Hn, Z.max_r by lia.
  destruct (run_due_capture (t + ms) a r1 body1
              [(b, ResponseReceived r2); (b, BodyRead (response_id r2) (Ok body2))]
              m Ha Hl Hr Hcap1)
    as (m1 & -> & Hl1 & Hr1 & Hc1).
  destruct (run_due_capture (t + ms) b r2 body2 [] m1 Hb Hl1 Hr1 Hcap2)
    as (m2 & -> & Hl2 & Hr2 & Hc2).
  cbn. unfold observes. cbn. rewrite Hc2, Hc1, Hc. auto.
Qed.

(** ** Two captures *)

Lemma waitForSearchResults_eq (maxWait : Z) (m : Machine) :
  waitForSearchResults maxWait m =
  match poll (fuel_for maxWait) (now m) maxWait 0 0 (say LogWaiting m) with
  | (Returns Stabilized, m1) => (Returns tt, m1)
  | (Returns Elapsed, m1) => after_timeout m1
  | (Throws e, m1) => (Throws e, m1)
  | (Unfinished, m1) => (Unfinished, m1)
  end.
Proof.
  unfold waitForSearchResults, log, Date_now.
  unfold bindM at 1. unfold update at 1.
  unfold bindM at 1. unfold read at 1.
  unfold bindM at 1. cbn [now say set_console].
  change (mkMachine (this m) (now m) (console m ++ [LogWaiting]) (calls m)
            (network m) (listening m) (reading m) (gotos m))
    with (say LogWaiting m).
  destruct (poll _ _ _ _ _ _) as [[[]|e|] m1]; reflexivity.
Qed.

(** ** Completion is declared after a quiet window *)

Lemma stays_chronological_checkPageStateAndRetrigger :
  preserves stays_chronological checkPageStateAndRetrigger.
Proof. apply preserves_checkPageStateAndRetrigger; captures_frame. Qed.

(** When the loop is left by stabilisation, every capture is at least
    three seconds old. *)
Lemma poll_stabilized_quiet (s w : Z) :
  forall (fuel last check : nat) (m m' : Machine),
    chronological m ->
    poll fuel s w last check m = (Returns Stabilized, m') ->
    Forall (fun c => (timestamp c + 3000 <= now m')%Z) (interceptedData (this m')).
Proof.
  induction fuel as [|f IH]; intros last check m m' Hm Hrun; [discriminate|].
  revert Hrun. cbn [poll]; cbv zeta. unfold bindM at 1. unfold Date_now, read at 1.
  destruct (now m - s <? w)%Z; [|discriminate].
  assert (Hrest : forall last' m1, chronological m1 ->
    ((if (S check mod 10 =? 0)%nat then checkPageStateAndRetrigger else ret tt) ;;
     waitFor 1000 ;; poll f s w last' (S check))%machine m1
    = (Returns Stabilized, m') ->
    Forall (fun c => (timestamp c + 3000 <= now m')%Z) (interceptedData (this m'))).
  { intros last' m1 Hm1. unfold bindM at 1.
    assert (Hchk : exists m2,
      (if (S check mod 10 =? 0)%nat then checkPageStateAndRetrigger else ret tt) m1
      = (Returns tt, m2) /\ chronological m2).
    { destruct (S check mod 10 =? 0)%nat.
      - destruct (checkPageStateAndRetrigger_returns m1) as (m2 & E & _).
        exists m2. split; [exact E|].
        pose proof (stays_chronological_checkPageStateAndRetrigger m1) as H.
        rewrite E in H. exact (H Hm1).
      - exists m1. split; [reflexivity | exact Hm1]. }
    destruct Hchk as (m2 & -> & Hm2).
    unfold bindM at 1. rewrite waitFor_eq.
    apply IH. apply advance_chronological. exact Hm2. }
  unfold bindM at 1. unfold captured, read at 1.
  destruct (last <? List.length (interceptedData (this m)))%nat.
  - unfold bindM at 1. unfold log, update at 1.
    unfold bindM at 1. rewrite waitFor_eq.
    unfold bindM at 1. unfold read at 1.
    remember (advance 3000
                (record_call (WaitFor 3000)
                   (say (LogReceived (List.length (interceptedData (this m)))) m)))
      as m1 eqn:E1.
    assert (Hm1 : chronological m1)
      by (rewrite E1; apply advance_chronological; exact Hm).
    assert (Hn : now m1 = (now m + 3000)%Z)
      by (rewrite E1, now_advance; reflexivity).
    assert (Hadd : extends_captures m m1)
      by (rewrite E1; apply (advance_extends 3000
            (record_call (WaitFor 3000)
               (say (LogReceived (List.length (interceptedData (this m)))) m)))).
    clear E1.
    destruct (Nat.eqb_spec (List.length (interceptedData (this m1)))
                           (List.length (interceptedData (this m)))) as [E|_].
    + intros Hrun. injection Hrun as <-.
      change (Forall (fun c => (timestamp c + 3000 <= now m1)%Z)
                     (interceptedData (this m1))).
      destruct Hadd as [added Hadd].
      rewrite Hadd, length_app in E.
      assert (added = []) by (destruct added; [reflexivity | simpl in E; lia]).
      subst added. rewrite app_nil_r in Hadd. rewrite Hadd, Hn.
      destruct Hm as [_ Hle].
      eapply Forall_impl; [|exact Hle]. simpl. intros; lia.
    + apply Hrest. exact Hm1.
  - apply Hrest. exact Hm.
Qed.

(** X2 (with C5).  Whenever [waitForSearchResults] ends because the capture
    list has stabilised, at least three seconds have passed since the last
    capture: completion is never declared earlier than the last arrival
    plus the stabilisation window. *)
Theorem stabilized_completion_is_quiet (maxWait : Z) (m m' : Machine) :
  chronological m ->
  poll (fuel_for maxWait) (now m) maxWait 0 0 (say LogWaiting m)
    = (Returns Stabilized, m') ->
  waitForSearchResults maxWait m = (Returns tt, m') /\
  Forall (fun c => (timestamp c + 3000 <= now m')%Z) (interceptedData (this m')).
Proof.
  intros Hm Hrun. split.
  - rewrite waitForSearchResults_eq, Hrun. reflexivity.
  - apply (poll_stabilized_quiet _ _ _ _ _ (say LogWaiting m) _ Hm Hrun).
Qed.

(** C5, as amended.  Two capturable responses are read at the instants [a]
    and [b], and nothing else happens; the detector starts at [now m].
    When the first capture is there at the tick one second in and the
    second arrives within the following three seconds (as for arrivals at
    1 s and 2 s), the stabilisation window of the first capture sees the
    second one, the growth is seen anew at the next tick, five seconds in,
    and completion is declared after a second window, eight seconds in,
    after delays of 1, 3, 1 and 3 seconds.  Completion is declared five
    seconds in when both captures arrive between the ticks at one and two
    seconds, so that the same tick sees them both.  In both cases it is not
    declared earlier than three seconds after the second capture. *)
Theorem completion_after_two_captures (a b : Z) (r1 r2 : Response)
  (body1 body2 : string) (m : Machine) :
  observes m (now m) 0
    [(a, ResponseReceived r1); (a, BodyRead (response_id r1) (Ok body1));
     (b, ResponseReceived r2); (b, BodyRead (response_id r2) (Ok body2))] ->
  capturable trim JSON_parse r1 body1 ->
  capturable trim JSON_parse r2 body2 ->
  ((a <= now m + 1000 /\ now m + 1000 < b <= now m + 4000)%Z ->
   exists m',
     waitForSearchResults 60000 m = (Returns tt, m') /\
     now m' = (now m + 8000)%Z /\
     (b + 3000 <= now m')%Z /\
     List.length (interceptedData (this m')) = 2 /\
     calls m' = (calls m ++ [WaitFor 1000; WaitFor 3000;
                             WaitFor 1000; WaitFor 3000])%list) /\
  ((now m + 1000 < a /\ a <= b <= now m + 2000)%Z ->
   exists m',
     waitForSearchResults 60000 m = (Returns tt, m') /\
     now m' = (now m + 5000)%Z /\
     (b + 3000 <= now m')%Z /\
     List.length (interceptedData (this m')) = 2 /\
     calls m' = (calls m ++ [WaitFor 1000; WaitFor 1000; WaitFor 3000])%list).
Proof.
  intros Hobs Hcap1 Hcap2.
  assert (Hfuel : fuel_for 60000 = 62) by reflexivity.
  pose proof (observes_say LogWaiting m _ _ _ Hobs) as H1.
  rewrite waitForSearchResults_eq, Hfuel.
  remember (now m) as t0 eqn:Et0.
  remember (say LogWaiting m) as m1 eqn:E1.
  assert (C1 : calls m1 = calls m) by (now rewrite E1).
  clear E1 Hobs.
  pose proof H1 as (H1t & _ & _ & H1n & _).
  rewrite (poll_idle 61 t0 60000 0 0 m1); [| lia | lia | reflexivity].
  pose proof (observes_record_call (WaitFor 1000) m1 _ _ _ H1) as H1'.
  remember (advance 1000 (record_call (WaitFor 1000) m1)) as m2 eqn:E2.
  assert (C2 : calls m2 = (calls m ++ [WaitFor 1000])%list).
  { rewrite E2, calls_advance. cbn [calls record_call set_calls]. now rewrite C1. }
  split; intros Hab.
  - (* the tick one second in sees the first capture *)
    assert (H2 : observes m2 (t0 + 1000) 1
                   [(b, ResponseReceived r2); (b, BodyRead (response_id r2) (Ok body2))]).
    { rewrite E2. apply (advance_sees_one 1000 a r1 body1); auto; lia. }
    clear E2 H1 H1'.
    pose proof H2 as (H2t & _ & _ & H2n & _).
    (* its stabilisation window sees the second *)
    pose proof (observes_record_call (WaitFor 3000) _ _ _ _
                  (observes_say (LogReceived 1) m2 _ _ _ H2)) as H2'.
    remember (advance 3000 (record_call (WaitFor 3000) (say (LogReceived 1) m2)))
      as m3 eqn:E3.
    assert (C3 : calls m3 = (calls m ++ [WaitFor 1000; WaitFor 3000])%list).
    { rewrite E3, calls_advance. cbn [calls record_call set_calls say set_console].
      now rewrite C2, <- app_assoc. }
    assert (H3 : observes m3 (t0 + 1000 + 3000) 2 []).
    { rewrite E3. apply (advance_sees_one 3000 b r2 body2); auto; lia. }
    pose proof H3 as (H3t & _ & _ & H3n & _).
    rewrite (poll_unstable 60 t0 60000 0 1 1 m2); rewrite <- ?E3;
      [| exact H2n | lia | lia | lia | reflexivity].
    clear E3 H2 H2'.
    (* the next tick, five seconds in, sees the growth anew *)
    pose proof (observes_record_call (WaitFor 1000) _ _ _ _ H3) as H3'.
    remember (advance 1000 (record_call (WaitFor 1000) m3)) as m4 eqn:E4.
    assert (C4 : calls m4 = (calls m ++ [WaitFor 1000; WaitFor 3000; WaitFor 1000])%list).
    { rewrite E4, calls_advance. cbn [calls record_call set_calls].
      now rewrite C3, <- app_assoc. }
    assert (H4 : observes m4 (t0 + 1000 + 3000 + 1000) 2 []).
    { rewrite E4. apply advance_sees_nothing; auto; lia. }
    clear E4 H3 H3'.
    pose proof H4 as (H4t & _ & _ & H4n & _).
    pose proof (observes_record_call (WaitFor 3000) _ _ _ _
                  (observes_say (LogReceived 2) m4 _ _ _ H4)) as H4'.
    remember (advance 3000 (record_call (WaitFor 3000) (say (LogReceived 2) m4)))
      as m5 eqn:E5.
    assert (C5 : calls m5 = (calls m ++ [WaitFor 1000; WaitFor 3000;
                                         WaitFor 1000; WaitFor 3000])%list).
    { rewrite E5, calls_advance. cbn [calls record_call set_calls say set_console].
      now rewrite C4, <- app_assoc. }
    assert (H5 : observes m5 (t0 + 1000 + 3000 + 1000 + 3000) 2 []).
    { rewrite E5. apply advance_sees_nothing; auto; lia. }
    pose proof H5 as (H5t & _ & _ & H5n & _).
    rewrite (poll_stable 59 t0 60000 1 2 2 m4); rewrite <- ?E5;
      [| exact H4n | lia | lia | lia].
    clear E5 H4 H4'.
    exists (say LogCompleted m5). split; [reflexivity|].
    change (now (say LogCompleted m5)) with (now m5).
    split; [lia|]. split; [lia|]. split; [exact H5n | exact C5].
  - (* the tick one second in sees nothing *)
    assert (H2 : observes m2 (t0 + 1000) 0
                   [(a, ResponseReceived r1); (a, BodyRead (response_id r1) (Ok body1));
                    (b, ResponseReceived r2); (b, BodyRead (response_id r2) (Ok body2))]).
    { rewrite E2. apply advance_sees_nothing; auto; lia. }
    clear E2 H1 H1'.
    pose proof H2 as (H2t & _ & _ & H2n & _).
    rewrite (poll_idle 60 t0 60000 0 1 m2); [| lia | lia | reflexivity].
    (* the tick two seconds in sees both captures *)
    pose proof (observes_record_call (WaitFor 1000) _ _ _ _ H2) as H2'.
    remember (advance 1000 (record_call (WaitFor 1000) m2)) as m3 eqn:E3.
    assert (C3 : calls m3 = (calls m ++ [WaitFor 1000; WaitFor 1000])%list).
    { rewrite E3, calls_advance. cbn [calls record_call set_calls].
      now rewrite C2, <- app_assoc. }
    assert (H3 : observes m3 (t0 + 1000 + 1000) 2 []).
    { rewrite E3. apply (advance_sees_two 1000 a b r1 r2 body1 body2); auto; lia. }
    clear E3 H2 H2'.
    pose proof H3 as (H3t & _ & _ & H3n & _).
    pose proof (observes_record_call (WaitFor 3000) _ _ _ _
                  (observes_say (LogReceived 2) m3 _ _ _ H3)) as H3'.
    remember (advance 3000 (record_call (WaitFor 3000) (say (LogReceived 2) m3)))
      as m4 eqn:E4.
    assert (C4 : calls m4 = (calls m ++ [WaitFor 1000; WaitFor 1000; WaitFor 3000])%list).
    { rewrite E4, calls_advance. cbn [calls record_call set_calls say set_console].
      now rewrite C3, <- app_assoc. }
    assert (H4 : observes m4 (t0 + 1000 + 1000 + 3000) 2 []).
    { rewrite E4. apply advance_sees_nothing; auto; lia. }
    pose proof H4 as (H4t & _ & _ & H4n & _).
    rewrite (poll_stable 59 t0 60000 0 2 2 m3); rewrite <- ?E4;
      [| exact H3n | lia | lia | lia].
    clear E4 H3 H3'.
    exists (say LogCompleted m4). split; [reflexivity|].
    change (now (say LogCompleted m4)) with (now m4).
    split; [lia|]. split; [lia|]. split; [exact H4n | exact C4].
Qed.

(** ** The navigation retrier, attempt by attempt *)

(** An attempt that succeeds: the load, the settle delay, the title. *)
Lemma navigation_attempt_succeeds (url : string) (attempt maxRetries : nat)
  (m : Machine) :
  attempt_succeeds (S (gotos m)) = true ->
  exists m',
    navigation_attempt url attempt maxRetries m = (Returns true, m') /\
    gotos m' = S (gotos m) /\
    calls m' = (calls m ++ [Goto url; WaitFor 3000; Title])%list.
Proof.
  unfold attempt_succeeds, good_title, navigation_attempt, try_catch,
    page_goto, page_title, waitFor, log, update, read, bindM, lift.
  simpl. intros H.
  destruct (goto_result B (S (gotos m))) as [[]|e1]; [|discriminate]. simpl.
  rewrite gotos_advance. simpl.
  destruct (title_result B (S (gotos m))) as [title|e2]; [|discriminate]. simpl.
  rewrite H. simpl.
  eexists; split; [reflexivity|]. frame. split; auto.
  now rewrite <- !app_assoc.
Qed.

(** An attempt that neither succeeds nor throws (the title does not pass
    the test) goes on to the next attempt at once. *)
Lemma navigation_attempt_bad_title (url : string) (attempt maxRetries : nat)
  (m : Machine) :
  attempt_succeeds (S (gotos m)) = false ->
  attempt_throws (S (gotos m)) = None ->
  exists m',
    navigation_attempt url attempt maxRetries m = (Returns false, m') /\
    gotos m' = S (gotos m).
Proof.
  unfold attempt_succeeds, attempt_throws, good_title, navigation_attempt,
    try_catch, page_goto, page_title, waitFor, log, update, read, bindM, lift.
  simpl. intros H T.
  destruct (goto_result B (S (gotos m))) as [[]|e1]; [|discriminate]. simpl.
  rewrite gotos_advance. simpl.
  destruct (title_result B (S (gotos m))) as [title|e2]; [|discriminate]. simpl.
  rewrite H. simpl.
  eexists; split; [reflexivity|]. frame. reflexivity.
Qed.

Lemma attempt_throws_not_succeeds (n : nat) (e : Js.error) :
  attempt_throws n = Some e -> attempt_succeeds n = false.
Proof.
  unfold attempt_throws, attempt_succeeds.
  destruct (goto_result B n) as [[]|]; [|reflexivity].
  destruct (title_result B n); [discriminate | reflexivity].
Qed.

(** Every attempt loads the page once and ends in one of three ways. *)
Lemma navigation_attempt_cases (url : string) (attempt maxRetries : nat)
  (m : Machine) :
  exists m',
    gotos m' = S (gotos m) /\
    navigation_attempt url attempt maxRetries m =
      (match attempt_throws (S (gotos m)) with
       | Some e => if (attempt =? maxRetries)%nat
                   then Throws (navigation_error maxRetries e)
                   else Returns false
       | None => Returns (attempt_succeeds (S (gotos m)))
       end, m').
Proof.
  destruct (attempt_throws (S (gotos m))) as [e|] eqn:T.
  - destruct (navigation_attempt_throws url attempt maxRetries m e T)
      as (m' & E & G & _). exists m'. auto.
  - destruct (attempt_succeeds (S (gotos m))) eqn:S.
    + destruct (navigation_attempt_succeeds url attempt maxRetries m S)
        as (m' & E & G & _). exists m'. auto.
    + destruct (navigation_attempt_bad_title url attempt maxRetries m S T)
        as (m' & E & G). exists m'. auto.
Qed.

Lemma navigate_from_succeeds_at (url : string) (N g0 k : nat)
  (errs : nat -> Js.error) :
  forall (remaining attempt : nat) (m : Machine),
    attempt + remaining = S N -> attempt <= k <= N ->
    gotos m + 1 = g0 + attempt ->
    (forall j, attempt <= j < k -> attempt_throws (g0 + j) = Some (errs j)) ->
    attempt_succeeds (g0 + k) = true ->
    exists m',
      navigate_from url N remaining attempt m = (Returns tt, m') /\
      gotos m' = g0 + k /\
      calls m' =
        (calls m ++
         flat_map (fun j => failed_attempt_calls url (g0 + j) j N)
                  (seq attempt (k - attempt)) ++
         [Goto url; WaitFor 3000; Title])%list.
Proof.
  induction remaining as [|r IH]; intros attempt m Hsum Hk Hg Herr Hok; [lia|].
  cbn [navigate_from]. unfold bindM at 1.
  destruct (Nat.eq_dec attempt k) as [->|Hne].
  - assert (Hcur : attempt_succeeds (S (gotos m)) = true).
    { replace (S (gotos m)) with (g0 + k) by lia. exact Hok. }
    destruct (navigation_attempt_succeeds url k N m Hcur) as (m1 & -> & Hg1 & Hc1).
    exists m1. repeat split; [lia|].
    rewrite Nat.sub_diag. exact Hc1.
  - assert (Hcur : attempt_throws (S (gotos m)) = Some (errs attempt)).
    { replace (S (gotos m)) with (g0 + attempt) by lia. apply Herr. lia. }
    destruct (navigation_attempt_throws url attempt N m _ Hcur)
      as (m1 & -> & Hg1 & Hc1).
    replace (S (gotos m)) with (g0 + attempt) in Hc1 by lia.
    destruct (Nat.eqb_spec attempt N) as [->|_]; [lia|].
    destruct (IH (S attempt) m1) as (m' & Hrun' & Hg' & Hc'); try lia.
    + intros j Hj. apply Herr. lia.
    + exact Hok.
    + exists m'. repeat split; auto.
      rewrite Hc', Hc1.
      replace (k - attempt) with (S (k - S attempt)) by lia.
      cbn [seq flat_map]. now rewrite <- !app_assoc.
Qed.


Lemma navigate_from_outcome (url : string) (N g0 : nat) :
  forall (remaining attempt : nat) (m : Machine),
    attempt + remaining = S N -> gotos m + 1 = g0 + attempt ->
    exists m',
      (exists k, attempt <= k <= N /\
         (forall j, attempt <= j < k -> attempt_succeeds (g0 + j) = false) /\
         attempt_succeeds (g0 + k) = true /\
         navigate_from url N remaining attempt m = (Returns tt, m') /\
         gotos m' = g0 + k) \/
      ((forall j, attempt <= j <= N -> attempt_succeeds (g0 + j) = false) /\
       gotos m + remaining = gotos m' /\
       navigate_from url N remaining attempt m =
         (match attempt_throws (g0 + N) with
          | Some e => if (remaining =? 0)%nat then Returns tt
                      else Throws (navigation_error N e)
          | None => Returns tt
          end, m')).
Proof.
  induction remaining as [|r IH]; intros attempt m Hsum Hg.
  - exists m. right. split; [intros; lia|]. split; [lia|].
    cbn. now destruct (attempt_throws (g0 + N)).
  - cbn [navigate_from]. unfold bindM.
    destruct (navigation_attempt_cases url attempt N m) as (m1 & Hg1 & ->).
    replace (S (gotos m)) with (g0 + attempt) by lia.
    destruct (attempt_throws (g0 + attempt)) as [e|] eqn:T.
    + pose proof (attempt_throws_not_succeeds _ _ T) as Hns.
      destruct (Nat.eqb_spec attempt N) as [->|Hne].
      * exists m1. right. assert (r = 0) by lia. subst r.
        split; [intros j Hj; replace j with N by lia; exact Hns|].
        split; [lia|]. now rewrite T.
      * destruct (IH (S attempt) m1) as (m' & [H|H]); try lia.
        -- destruct H as (k & Hk & Hbefore & Hok & Hrun & Hgk).
           exists m'. left. exists k. repeat split; auto; try lia.
           intros j Hj. destruct (Nat.eq_dec j attempt) as [->|]; auto.
           apply Hbefore. lia.
        -- destruct H as (Hnone & Hgk & Hrun).
           exists m'. right. split; [|split].
           ++ intros j Hj. destruct (Nat.eq_dec j attempt) as [->|]; auto.
              apply Hnone. lia.
           ++ lia.
           ++ rewrite Hrun. destruct r; [lia|]. reflexivity.
    + destruct (attempt_succeeds (g0 + attempt)) eqn:Hs.
      * exists m1. left. exists attempt. repeat split; auto; try lia; intros; lia.
      * destruct (IH (S attempt) m1) as (m' & [H|H]); try lia.
        -- destruct H as (k & Hk & Hbefore & Hok & Hrun & Hgk).
           exists m'. left. exists k. repeat split; auto; try lia.
           intros j Hj. destruct (Nat.eq_dec j attempt) as [->|]; auto.
           apply Hbefore. lia.
        -- destruct H as (Hnone & Hgk & Hrun).
           exists m'. right. split; [|split].
           ++ intros j Hj. destruct (Nat.eq_dec j attempt) as [->|]; auto.
              apply Hnone. lia.
           ++ lia.
           ++ rewrite Hrun. destruct r; [|reflexivity].
              assert (attempt = N) by lia. subst attempt. now rewrite T.
Qed.

(** X4.  What [navigateWithRetry] does, for every browser: it returns at
    the first attempt that succeeds, after as many loads; when no attempt
    succeeds it loads the page [maxRetries] times and then throws the
    navigation error with the message of the last attempt's exception if
    that attempt threw one, and returns normally otherwise.  It never loads
    the page more than [maxRetries] times and lets no other exception
    out. *)
Theorem navigateWithRetry_outcome (url : string) (maxRetries : nat) (m : Machine) :
  exists m',
    gotos m' <= gotos m + maxRetries /\
    ((exists k, 1 <= k <= maxRetries /\
        (forall j, 1 <= j < k -> attempt_succeeds (gotos m + j) = false) /\
        attempt_succeeds (gotos m + k) = true /\
        navigateWithRetry url maxRetries m = (Returns tt, m') /\
        gotos m' = gotos m + k) \/
     ((forall j, 1 <= j <= maxRetries -> attempt_succeeds (gotos m + j) = false) /\
      gotos m' = gotos m + maxRetries /\
      navigateWithRetry url maxRetries m =
        (match attempt_throws (gotos m + maxRetries) with
         | Some e => if (maxRetries =? 0)%nat then Returns tt
                     else Throws (navigation_error maxRetries e)
         | None => Returns tt
         end, m'))).
Proof.
  unfold navigateWithRetry.
  destruct (navigate_from_outcome url maxRetries (gotos m) maxRetries 1 m)
    as (m' & [H|H]); try lia.
  - destruct H as (k & Hk & Hbefore & Hok & Hrun & Hgk).
    exists m'. split; [lia|]. left. exists k. auto.
  - destruct H as (Hnone & Hgk & Hrun).
    exists m'. split; [lia|]. right. split; [exact Hnone|]. split; [lia | exact Hrun].
Qed.

(** ** The normaliser, trip by trip *)

Lemma searchInfo_of_returns (d : value) :
  truthy d = true -> exists info, searchInfo_of d = Ok info.
Proof.
  intros H. destruct d; try discriminate; cbn; eexists; reflexivity.
Qed.

(** The loop visits the truthy entries in order. *)
Lemma collect_all (L : list value) :
  forall fl, mapM flight_of (filter truthy L) = Ok fl -> collect L [] = (fl, None).
Proof.
  induction L as [|x L IH]; intros fl H.
  - injection H as <-. reflexivity.
  - cbn [filter collect] in *. destruct (truthy x); cbn [negb mapM Js.bind] in *.
    + destruct (flight_of x) as [f|e]; [|discriminate]. cbn [Js.bind] in H.
      destruct (mapM flight_of (filter truthy L)) as [fl'|e]; [|discriminate].
      injection H as <-. rewrite collect_acc, (IH fl' eq_refl). reflexivity.
    + apply IH. exact H.
Qed.

(** An exception ends the loop: the entries after it are not visited. *)
Lemma collect_stops (pre : list value) (bad : value) (post : list value)
  (e : Js.error) :
  forall fl,
    mapM flight_of (filter truthy pre) = Ok fl ->
    truthy bad = true -> flight_of bad = Throw e ->
    collect (pre ++ bad :: post) [] = (fl, Some e).
Proof.
  induction pre as [|x pre IH]; intros fl H Hb He.
  - injection H as <-. cbn [app collect]. now rewrite Hb, He.
  - cbn [app filter collect] in *. destruct (truthy x); cbn [negb mapM Js.bind] in *.
    + destruct (flight_of x) as [f|e']; [|discriminate]. cbn [Js.bind] in H.
      destruct (mapM flight_of (filter truthy pre)) as [fl'|e']; [|discriminate].
      injection H as <-. rewrite collect_acc, (IH fl' eq_refl Hb He). reflexivity.
    + apply IH; assumption.
Qed.

(** X5.  When every non-null entry of the trip list [L] of an object
    payload is extracted without an exception, [extractFlightInfo] returns
    one flight per such entry, in the order of [L] (falsy entries are
    skipped), with the search information of the payload, the payload
    itself as [rawData], and no [error]. *)
Theorem extractFlightInfo_keeps_trip_order (d : value) (L : list value)
  (fl : list FlightOption) :
  truthy d = true -> typeof_object d = true ->
  locate_trips d = Ok (VArr L) ->
  mapM flight_of (filter truthy L) = Ok fl ->
  exists info,
    searchInfo_of d = Ok info /\
    extractFlightInfo d = mkResult fl None (Some info) (Some d) None.
Proof.
  intros Ht Ho Hloc Hall.
  destruct (searchInfo_of_returns d Ht) as [info Hinfo].
  exists info. split; [exact Hinfo|].
  unfold extractFlightInfo. rewrite Ht, Ho, Hloc. cbn [negb orb Js.bind iterate].
  now rewrite (collect_all L fl Hall), Hinfo.
Qed.

(** X6.  A trip whose extraction throws ends the extraction: the result
    keeps the flights of the trips before it, drops the trips after it
    (well-formed or not), has no [searchInfo], and its [error] is
    ["Failed to parse flight data: "] followed by the message of the
    exception. *)
Theorem extractFlightInfo_stops_at_malformed_trip (d : value)
  (pre : list value) (bad : value) (post : list value)
  (fl : list FlightOption) (e : Js.error) :
  truthy d = true -> typeof_object d = true ->
  locate_trips d = Ok (VArr (pre ++ bad :: post)) ->
  mapM flight_of (filter truthy pre) = Ok fl ->
  truthy bad = true -> flight_of bad = Throw e ->
  extractFlightInfo d =
    mkResult fl (Some ("Failed to parse flight data: " ++ message e))
             None (Some d) None.
Proof.
  intros Ht Ho Hloc Hpre Hb He.
  unfold extractFlightInfo. rewrite Ht, Ho, Hloc. cbn [negb orb Js.bind iterate].
  now rewrite (collect_stops pre bad post e fl Hpre Hb He).
Qed.

Lemma parse_failure_shape (fl : list FlightOption) (d : value) (e : Js.error) :
  let r := parse_failure fl d e in
  rawData r = Some d /\ metadata r = None /\ searchInfo r = None /\
  (exists msg, error r = Some msg) /\ error r <> Some "Invalid response data".
Proof.
  cbn. repeat split; [eexists; reflexivity | discriminate].
Qed.

Lemma extractFlightInfo_rawData (d : value) :
  rawData (extractFlightInfo d) = Some d.
Proof.
  unfold extractFlightInfo.
  destruct (negb (truthy d) || negb (typeof_object d)); [reflexivity|].
  destruct (Js.bind (locate_trips d) _) as [trips|e]; [|reflexivity].
  destruct (collect trips []) as [fl [e|]]; [reflexivity|].
  destruct (searchInfo_of d); reflexivity.
Qed.

(** X7.  The shape of every result of [extractFlightInfo]: [rawData] is
    the payload, there is no [metadata], and exactly one of [error] and
    [searchInfo] is present.  The error is ["Invalid response data"]
    exactly for a payload that is falsy or not an object, and then there
    are no flights. *)
Theorem extractFlightInfo_error_xor_searchInfo (d : value) :
  let r := extractFlightInfo d in
  rawData r = Some d /\ metadata r = None /\
  ((error r = None /\ exists info, searchInfo r = Some info) \/
   (searchInfo r = None /\ exists msg, error r = Some msg)) /\
  (error r = Some "Invalid response data" <->
   truthy d = false \/ typeof_object d = false) /\
  (error r = Some "Invalid response data" -> flights r = []).
Proof.
  cbv zeta. unfold extractFlightInfo.
  destruct (negb (truthy d) || negb (typeof_object d)) eqn:Hd.
  - cbn. repeat split; auto.
    + right. split; [reflexivity | eexists; reflexivity].
    + intros _. apply Bool.orb_true_iff in Hd.
      destruct Hd as [H|H]; apply Bool.negb_true_iff in H; auto.
  - assert (Hno : ~ (truthy d = false \/ typeof_object d = false)).
    { apply Bool.orb_false_iff in Hd. destruct Hd as [H1 H2].
      apply Bool.negb_false_iff in H1, H2. intros [H|H]; congruence. }
    assert (Hfail : forall fl e,
      let r := parse_failure fl d e in
      rawData r = Some d /\ metadata r = None /\
      ((error r = None /\ exists info, searchInfo r = Some info) \/
       (searchInfo r = None /\ exists msg, error r = Some msg)) /\
      (error r = Some "Invalid response data" <->
       truthy d = false \/ typeof_object d = false) /\
      (error r = Some "Invalid response data" -> flights r = [])).
    { intros fl e. destruct (parse_failure_shape fl d e) as (H1 & H2 & H3 & H4 & H5).
      cbv zeta. repeat split; auto; try tauto. }
    destruct (Js.bind (locate_trips d) _) as [trips|e]; [|apply Hfail].
    destruct (collect trips []) as [fl [e|]]; [apply Hfail|].
    destruct (searchInfo_of d) as [info|e]; [|apply Hfail].
    cbn. repeat split; auto; try discriminate; try tauto.
    left. split; [reflexivity | eexists; reflexivity].
Qed.

(** ** The page check *)

(** The page check, case by case of what the browser answers. *)
Lemma page_check_cases (m : Machine) :
  exists m' added,
    checkPageStateAndRetrigger m = (Returns tt, m') /\
    calls m' = (calls m ++ added)%list /\
    (In Click added <-> finds_both (now m) = true) /\
    (In (Query SearchButton) added <->
     query_result B ErrorElements (now m) = Ok true) /\
    (now m' = now m \/ now m' = (now m + 2000)%Z /\ In Click added) /\
    (finds_both (now m) = false ->
     now m' = now m /\ this m' = this m /\ network m' = network m /\
     reading m' = reading m /\ listening m' = listening m).
Proof.
  unfold checkPageStateAndRetrigger, finds_both, try_catch, page_query, host,
    log, Date_now, update, read, bindM, lift, ret, throw.
  repeat (cbn; rewrite ?now_advance;
          first [ destruct (query_result B _ _) as [[]|?]
                | destruct (click_result B _) as [[]|?]
                | destruct (reply B _) as [[]|?]
                | destruct (navigation_type B _) as [[?|]|?] ]);
    (eexists; eexists; (split; [reflexivity|]); frame;
     (split; [rewrite <- ?app_assoc; reflexivity|]); cbn [In app];
     repeat split; auto; try discriminate;
     try (right; split; [lia | tauto]);
     try (intuition discriminate)).
Qed.

(** X12.  [checkPageStateAndRetrigger] always returns normally.  It clicks
    the search button exactly when both the error-element query and the
    search-button query answer with an element: on a page without error
    element, reading [length] of [null] throws into the outer [catch], and
    the button is not even looked for.  Without the click the check takes no
    time and changes neither the instance nor the pending events; with it,
    it takes 2000 ms at most. *)
Theorem checkPageStateAndRetrigger_outcome (m : Machine) :
  exists m' added,
    checkPageStateAndRetrigger m = (Returns tt, m') /\
    calls m' = (calls m ++ added)%list /\
    (In Click added <-> finds_both (now m) = true) /\
    (In (Query SearchButton) added <->
     query_result B ErrorElements (now m) = Ok true) /\
    (now m' = now m \/ now m' = (now m + 2000)%Z /\ In Click added) /\
    (finds_both (now m) = false ->
     now m' = now m /\ this m' = this m /\ network m' = network m /\
     reading m' = reading m /\ listening m' = listening m).
Proof.
  destruct (page_check_cases m)
    as (m' & added & Hrun & Hcalls & Hclick & Hbutton & Htime & Hframe).
  exists m', added. split; [exact Hrun|]. split; [exact Hcalls|].
  split; [exact Hclick|]. split; [exact Hbutton|]. split; [exact Htime|].
  exact Hframe.
Qed.

(** ** How long the completion detector takes *)

Lemma checkPageStateAndRetrigger_duration (m : Machine) :
  exists m', checkPageStateAndRetrigger m = (Returns tt, m') /\
             (now m <= now m' <= now m + 2000)%Z.
Proof.
  destruct (page_check_cases m) as (m' & added & E & _ & _ & _ & H & _).
  exists m'. split; [exact E|]. destruct H as [->|[-> _]]; lia.
Qed.

(** An iteration of the loop lasts six seconds at most: the stabilisation
    window, the page check and the tick. *)
Lemma poll_bounded (s w bound : Z) :
  (s + w + 5999 <= bound)%Z ->
  forall (fuel last check : nat) (m : Machine),
    (now m <= bound)%Z ->
    (now (snd (poll fuel s w last check m)) <= bound)%Z.
Proof.
  intros Hb. induction fuel as [|f IH]; intros last check m Hm; [exact Hm|].
  cbn [poll]; cbv zeta. unfold bindM at 1. unfold Date_now, read at 1.
  destruct (Z.ltb_spec (now m - s) w) as [Hlt|Hge]; [|exact Hm].
  assert (Hrest : forall last' m1, (now m1 <= now m + 3000)%Z ->
    (now (snd (((if (S check mod 10 =? 0)%nat
                 then checkPageStateAndRetrigger else ret tt) ;;
                waitFor 1000 ;; poll f s w last' (S check))%machine m1))
     <= bound)%Z).
  { intros last' m1 Hm1. unfold bindM at 1.
    assert (Hchk : exists m2,
      (if (S check mod 10 =? 0)%nat then checkPageStateAndRetrigger else ret tt) m1
      = (Returns tt, m2) /\ (now m2 <= now m1 + 2000)%Z).
    { destruct (S check mod 10 =? 0)%nat.
      - destruct (checkPageStateAndRetrigger_duration m1) as (m2 & E & H).
        exists m2. split; [exact E | lia].
      - exists m1. split; [reflexivity | lia]. }
    destruct Hchk as (m2 & -> & Hm2).
    unfold bindM at 1. rewrite waitFor_eq.
    apply IH. rewrite now_advance. cbn [now record_call set_calls]. lia. }
  unfold bindM at 1. unfold captured, read at 1.
  destruct (last <? List.length (interceptedData (this m)))%nat.
  - unfold bindM at 1. unfold log, update at 1.
    unfold bindM at 1. rewrite waitFor_eq.
    unfold bindM at 1. unfold read at 1.
    remember (advance 3000
                (record_call (WaitFor 3000)
                   (say (LogReceived (List.length (interceptedData (this m)))) m)))
      as m1 eqn:E1.
    assert (Hn : now m1 = (now m + 3000)%Z)
      by (rewrite E1, now_advance; reflexivity).
    clear E1.
    destruct (List.length (interceptedData (this m1)) =?
              List.length (interceptedData (this m)))%nat.
    + cbn. lia.
    + apply Hrest. lia.
  - apply Hrest. lia.
Qed.

(** X11.  [waitForSearchResults] always ends, and it ends less than six
    seconds after its budget: an iteration that starts within the budget
    may still wait out a stabilisation window (3000 ms), a page check (up
    to 2000 ms) and a tick (1000 ms). *)
Theorem waitForSearchResults_duration (maxWait : Z) (m : Machine) :
  fst (waitForSearchResults maxWait m) <> Unfinished /\
  (now m <= now (snd (waitForSearchResults maxWait m))
         < now m + Z.max 0 maxWait + 6000)%Z.
Proof.
  split; [apply finishes_waitForSearchResults|]. split.
  - apply (preserves_waitForSearchResults later); unfold later; intros; frame; lia.
  - pose proof (poll_bounded (now m) maxWait (now m + Z.max 0 maxWait + 5999)
                  ltac:(lia) (fuel_for maxWait) 0 0 (say LogWaiting m)
                  ltac:(cbn; lia)) as H.
    rewrite waitForSearchResults_eq.
    destruct (poll _ _ _ _ _ _) as [[[]|e|] m1]; cbn [snd] in *; try lia.
    rewrite after_timeout_eq. cbn. lia.
Qed.

(** ** A search that returns has data *)

Lemma poll_stabilized_has_data (s w : Z) :
  forall (fuel last check : nat) (m m' : Machine),
    poll fuel s w last check m = (Returns Stabilized, m') ->
    interceptedData (this m') <> [].
Proof.
  induction fuel as [|f IH]; intros last check m m' Hrun; [discriminate|].
  revert Hrun. cbn [poll]; cbv zeta. unfold bindM at 1. unfold Date_now, read at 1.
  destruct (now m - s <? w)%Z; [|discriminate].
  assert (Hrest : forall last' m1,
    ((if (S check mod 10 =? 0)%nat then checkPageStateAndRetrigger else ret tt) ;;
     waitFor 1000 ;; poll f s w last' (S check))%machine m1
    = (Returns Stabilized, m') ->
    interceptedData (this m') <> []).
  { intros last' m1. unfold bindM at 1.
    assert (Hchk : exists m2,
      (if (S check mod 10 =? 0)%nat then checkPageStateAndRetrigger else ret tt) m1
      = (Returns tt, m2)).
    { destruct (S check mod 10 =? 0)%nat.
      - destruct (checkPageStateAndRetrigger_returns m1) as (m2 & E & _). exists m2. exact E.
      - exists m1. reflexivity. }
    destruct Hchk as (m2 & ->).
    unfold bindM at 1. rewrite waitFor_eq. apply IH. }
  unfold bindM at 1. unfold captured, read at 1.
  destruct (Nat.ltb_spec last (List.length (interceptedData (this m)))) as [Hlt|_].
  - unfold bindM at 1. unfold log, update at 1.
    unfold bindM at 1. rewrite waitFor_eq.
    unfold bindM at 1. unfold read at 1.
    remember (advance 3000
                (record_call (WaitFor 3000)
                   (say (LogReceived (List.length (interceptedData (this m)))) m)))
      as m1 eqn:E1.
    clear E1.
    destruct (Nat.eqb_spec (List.length (interceptedData (this m1)))
                           (List.length (interceptedData (this m)))) as [E|_].
    + intros Hrun. injection Hrun as <-.
      change (interceptedData (this m1) <> []).
      intros Hnil. rewrite Hnil in E. cbn in E. lia.
    + apply Hrest.
  - apply Hrest.
Qed.

(** The detector returns normally only with a capture in the list. *)
Lemma waitForSearchResults_returns_with_data (maxWait : Z) (m m' : Machine) :
  waitForSearchResults maxWait m = (Returns tt, m') ->
  interceptedData (this m') <> [].
Proof.
  rewrite waitForSearchResults_eq.
  destruct (poll _ _ _ _ _ _) as [[[]|e|] m1] eqn:Hpoll; try discriminate.
  - intros H. injection H as <-. exact (poll_stabilized_has_data _ _ _ _ _ _ _ Hpoll).
  - rewrite after_timeout_eq.
    destruct (interceptedData (this m1)) eqn:Hd; [discriminate|].
    intros H. injection H as <-. cbn [this set_console]. rewrite Hd. discriminate.
Qed.

Lemma bindM_returns {A C} (c : M A) (k : A -> M C) (m m' : Machine) (b : C) :
  bindM c k m = (Returns b, m') ->
  exists a m1, c m = (Returns a, m1) /\ k a m1 = (Returns b, m').
Proof.
  unfold bindM. destruct (c m) as [[a|e|] m1]; try discriminate. eauto.
Qed.

Lemma try_finally_returns {A} (c : M A) (f : M unit) (m m' : Machine) (a : A) :
  try_finally c f m = (Returns a, m') ->
  exists m1, c m = (Returns a, m1) /\ f m1 = (Returns tt, m').
Proof.
  unfold try_finally. destruct (c m) as [[a'|e|] m1]; try discriminate;
    destruct (f m1) as [[[]|e'|] m2] eqn:F; try discriminate;
    intros H; injection H as <- <-; eauto.
Qed.

(** X8.  A result that [searchByURL] returns is never the
    ["No data intercepted"] result of [parseInterceptedData]: when the
    method returns, the capture list is not empty and the result is the
    normalised payload of one of its captures, with the metadata of that
    capture.  (With an empty list the completion detector has thrown
    instead.) *)
Theorem searchByURL_returns_with_data (searchURL : string) (m m' : Machine)
  (r : NormalizedResult) :
  searchByURL searchURL m = (Returns r, m') ->
  interceptedData (this m') <> [] /\
  r = parseInterceptedData (this m') (now m') /\
  error r <> Some "No data intercepted" /\
  exists c, In c (interceptedData (this m')) /\
            rawData r = Some (data c) /\
            metadata r = Some (MetaCapture (List.length (interceptedData (this m')))
                                 (timestamp c) (size c) (url c) (now m')).
Proof.
  unfold searchByURL. intros H.
  apply bindM_returns in H. destruct H as (_ & m1 & _ & H).
  apply bindM_returns in H. destruct H as (_ & m2 & _ & H).
  apply try_finally_returns in H. destruct H as (m3 & H & Hclose).
  do 5 (apply bindM_returns in H; destruct H as (_ & ? & _ & H)).
  apply bindM_returns in H. destruct H as ([] & m4 & Hwait & H).
  apply waitForSearchResults_returns_with_data in Hwait.
  unfold parse_now, Date_now, bindM, read, ret in H. injection H as <- <-.
  assert (Hthis : this m' = this m4 /\ now m' = now m4).
  { unfold host, bindM, update, lift in Hclose.
    destruct (reply B Close) as [[]|e]; [|discriminate].
    injection Hclose as <-. split; reflexivity. }
  destruct Hthis as [-> ->].
  split; [exact Hwait|]. split; [reflexivity|].
  unfold parseInterceptedData.
  destruct (interceptedData (this m4)) as [|first rest] eqn:Hd; [congruence|].
  cbv zeta.
  pose proof (extractFlightInfo_rawData (data (fold_left larger rest first)))
    as Hraw.
  split.
  - cbn [error set_metadata].
    destruct (error (extractFlightInfo (data (fold_left larger rest first))))
      as [msg|] eqn:He; [|discriminate].
    intros Hmsg. injection Hmsg as ->.
    unfold extractFlightInfo in He.
    destruct (negb _ || negb _); [discriminate|].
    destruct (Js.bind _ _) as [trips|e]; [|discriminate].
    destruct (collect trips []) as [fl [e|]]; [discriminate|].
    destruct (searchInfo_of _); discriminate.
  - exists (fold_left larger rest first). split; [|split].
    + clear. revert first. induction rest as [|x rest IH]; intros first.
      * left. reflexivity.
      * cbn [fold_left]. destruct (IH (larger first x)) as [E|E].
        -- unfold larger in E at 1. destruct (Nat.ltb _ _).
           ++ right. left. exact E.
           ++ left. exact E.
        -- right. right. exact E.
    + cbn [rawData set_metadata]. exact Hraw.
    + reflexivity.
Qed.

(** ** The detector when nothing arrives *)

Lemma set_network_same (m : Machine) : set_network (network m) m = m.
Proof. now destruct m. Qed.

(** A delay during which no event is due only moves the clock. *)
Lemma advance_quiet (ms : Z) (m : Machine) :
  (0 <= ms)%Z -> quiet_until (now m + ms) m ->
  advance ms m = set_now (now m + ms) m.
Proof.
  unfold quiet_until. intros Hms Hq. rewrite advance_eq, Z.max_r by lia.
  destruct (network m) as [|[te ev] rest] eqn:Hnet.
  - cbn [run_due]. now rewrite <- Hnet, set_network_same.
  - rewrite run_due_later by lia. now rewrite <- Hnet, set_network_same.
Qed.

(** X9.  Captures that the instance already holds when the wait starts
    count as new data: if the list is not empty and no event is due within
    the next three seconds, [waitForSearchResults] declares completion
    after exactly 3000 ms, with the list as it was (none of its captures
    need come from this search). *)
Theorem stale_captures_end_the_wait (maxWait : Z) (m : Machine) :
  interceptedData (this m) <> [] -> (0 < maxWait)%Z ->
  quiet_until (now m + 3000) m ->
  exists m',
    waitForSearchResults maxWait m = (Returns tt, m') /\
    now m' = (now m + 3000)%Z /\ this m' = this m /\
    calls m' = (calls m ++ [WaitFor 3000])%list.
Proof.
  intros Hdata Hw Hq.
  assert (Hadv : advance 3000
            (record_call (WaitFor 3000)
               (say (LogReceived (List.length (interceptedData (this m))))
                  (say LogWaiting m)))
          = set_now (now m + 3000)
              (record_call (WaitFor 3000)
                 (say (LogReceived (List.length (interceptedData (this m))))
                    (say LogWaiting m)))).
  { rewrite advance_quiet; [reflexivity | lia | exact Hq]. }
  eexists. split; [|split; [|split]].
  - rewrite waitForSearchResults_eq. unfold fuel_for.
    rewrite (poll_stable _ (now m) maxWait 0 0
               (List.length (interceptedData (this m))) (say LogWaiting m)).
    + reflexivity.
    + reflexivity.
    + cbn [now say set_console]. lia.
    + destruct (interceptedData (this m)); [congruence | cbn; lia].
    + rewrite Hadv. reflexivity.
  - rewrite Hadv. reflexivity.
  - rewrite Hadv. reflexivity.
  - rewrite Hadv. reflexivity.
Qed.

Lemma ticks_step (d : Z) : (0 < d)%Z -> ticks d = (1 + ticks (d - 1000))%Z.
Proof. unfold ticks. intros H. Z.to_euclidean_division_equations. lia. Qed.

Lemma ticks_done (d : Z) : (d <= 0)%Z -> ticks d = 0%Z.
Proof. unfold ticks. intros H. Z.to_euclidean_division_equations. lia. Qed.

(** With no capture, no event to come and a page check that never clicks,
    the loop ticks once a second until the budget has elapsed. *)
Lemma poll_idle_until_timeout (s w : Z) :
  (forall t, finds_both t = false) ->
  forall (fuel last check : nat) (m : Machine),
    interceptedData (this m) = [] -> network m = [] ->
    (w - (now m - s) <= 1000 * (Z.of_nat fuel - 1))%Z -> 1 <= fuel ->
    exists m',
      poll fuel s w last check m = (Returns Elapsed, m') /\
      now m' = (now m + 1000 * ticks (w - (now m - s)))%Z /\
      this m' = this m /\ network m' = [].
Proof.
  intros Hquiet.
  induction fuel as [|f IH]; intros last check m Hdata Hnet Hfuel Hpos; [lia|].
  destruct (Z.ltb_spec (now m - s) w) as [Hlt|Hge].
  2:{ exists m. rewrite poll_elapsed by lia. rewrite ticks_done by lia.
      repeat split; auto; lia. }
  cbn [poll]; cbv zeta. unfold bindM at 1. unfold Date_now, read at 1.
  destruct (Z.ltb_spec (now m - s) w); [|lia].
  unfold bindM at 1. unfold captured, read at 1. rewrite Hdata.
  cbn [List.length Nat.ltb Nat.leb].
  unfold bindM at 1.
  assert (Hchk : exists m2,
    (if (S check mod 10 =? 0)%nat then checkPageStateAndRetrigger else ret tt) m
    = (Returns tt, m2) /\ now m2 = now m /\ this m2 = this m /\
    network m2 = network m).
  { destruct (S check mod 10 =? 0)%nat.
    - destruct (page_check_cases m)
        as (m2 & added & E & _ & _ & _ & _ & Hsame).
      destruct (Hsame (Hquiet _)) as (Hn & Ht & Hnw & _).
      exists m2. repeat split; auto.
    - exists m. repeat split; reflexivity. }
  destruct Hchk as (m2 & -> & Hn2 & Ht2 & Hnw2).
  unfold bindM at 1. rewrite waitFor_eq.
  assert (Hadv : advance 1000 (record_call (WaitFor 1000) m2)
                 = set_now (now m2 + 1000) (record_call (WaitFor 1000) m2)).
  { rewrite advance_quiet; [reflexivity | lia |]. unfold quiet_until.
    cbn [network record_call set_calls]. now rewrite Hnw2, Hnet. }
  rewrite Hadv.
  destruct (IH last (S check)
              (set_now (now m2 + 1000) (record_call (WaitFor 1000) m2)))
    as (m' & Hrun & Hn' & Ht' & Hnw').
  - cbn. now rewrite Ht2.
  - cbn. now rewrite Hnw2.
  - cbn [now set_now]. destruct f; lia.
  - destruct f; [|lia]. lia.
  - exists m'. split; [exact Hrun|]. cbn [now set_now this network record_call
      set_calls] in Hn', Ht'.
    rewrite (ticks_step (w - (now m - s))) by lia.
    split; [|split; [congruence | exact Hnw']].
    rewrite Hn', Hn2. replace (w - (now m + 1000 - s))%Z with (w - (now m - s) - 1000)%Z by lia.
    lia.
Qed.


(** ** Where the captures and the failure records come from *)

Lemma captured_between_widen (a b a' b' : Z) (c : CapturedResponse) :
  (a' <= a)%Z -> (b <= b')%Z -> captured_between a b c -> captured_between a' b' c.
Proof. unfold captured_between. intuition lia. Qed.

Lemma failed_between_widen (a b a' b' : Z) (r : FailedRequestRecord) :
  (a' <= a)%Z -> (b <= b')%Z -> failed_between a b r -> failed_between a' b' r.
Proof. unfold failed_between. intuition lia. Qed.

Lemma records_own_refl (m : Machine) : records_own m m.
Proof.
  unfold records_own. split; [lia|]. split; [auto|]. split; [|auto].
  exists []. rewrite app_nil_r. split; [reflexivity | constructor].
Qed.

Lemma records_own_trans (a b c : Machine) :
  records_own a b -> records_own b c -> records_own a c.
Proof.
  intros (Hn1 & Hr1 & (x & Ex & Hx) & Hf1) (Hn2 & Hr2 & (y & Ey & Hy) & Hf2).
  unfold records_own. split; [lia|]. split; [auto|]. split.
  - exists (x ++ y)%list. split; [now rewrite Ey, Ex, app_assoc|].
    intros Ha. apply Forall_app. split.
    + eapply Forall_impl; [|exact (Hx Ha)].
      intros c0. apply captured_between_widen; lia.
    + eapply Forall_impl; [|exact (Hy (Hr1 Ha))].
      intros c0. apply captured_between_widen; lia.
  - intros r Hr. destruct (Hf2 r Hr) as [Hb|Hb].
    + destruct (Hf1 r Hb) as [Ha|Ha]; [left; exact Ha|].
      right. revert Ha. apply failed_between_widen; lia.
    + right. revert Hb. apply failed_between_widen; lia.
Qed.

(** A step that touches neither the instance nor the suspended handlers,
    and does not turn the clock back. *)
Lemma records_own_same (m m' : Machine) :
  this m' = this m -> reading m' = reading m -> (now m <= now m')%Z ->
  records_own m m'.
Proof.
  intros Ht Hr Hn. unfold records_own, failures. rewrite Ht, Hr.
  split; [exact Hn|]. split; [auto|]. split; [|auto].
  exists []. rewrite app_nil_r. split; [reflexivity | constructor].
Qed.

Lemma take_reader_Forall (P : Response -> Prop) (id : nat) :
  forall (rs : list Response) (r : Response) (rest : list Response),
    take_reader id rs = Some (r, rest) -> Forall P rs -> P r /\ Forall P rest.
Proof.
  induction rs as [|x rs IH]; intros r rest H HP; [discriminate|].
  cbn [take_reader] in H. inversion HP as [|? ? Hx Hrs]; subst.
  destruct (response_id x =? id)%nat.
  - injection H as <- <-. auto.
  - destruct (take_reader id rs) as [[y rest']|]; [|discriminate].
    injection H as <- <-. destruct (IH y rest' eq_refl Hrs). auto.
Qed.

Lemma text_or_not_empty (o : option string) (d : string) :
  d <> "" -> text_or o d <> "".
Proof.
  intros Hd. unfold text_or. destruct o as [t|]; [|exact Hd].
  destruct t; [exact Hd | discriminate].
Qed.

Lemma handle_records_own (ev : net_event) (m : Machine) :
  records_own m (handle ev m).
Proof.
  unfold handle. destruct (listening m); [|apply records_own_refl].
  destruct ev as [u t|r|id body].
  - unfold onRequestFailed.
    destruct (includes u "/api/" || includes u "FetchFlights") eqn:Hu;
      [|apply records_own_refl].
    unfold records_own, failures, push_failed.
    cbn [now this reading say set_console set_this set_failedRequests
         interceptedData failedRequests].
    split; [lia|]. split; [auto|]. split.
    + exists []. rewrite app_nil_r. split; [reflexivity | constructor].
    + intros r Hr. apply in_app_or in Hr. destruct Hr as [Hr|[<-|[]]].
      * left. exact Hr.
      * right. unfold failed_between. cbn [failed_url failed_error failed_timestamp].
        split; [exact Hu|]. split; [|lia].
        apply text_or_not_empty. discriminate.
  - unfold onResponse.
    destruct (isFetchFlightsAPI (response_url r)) eqn:Hq.
    + destruct (Z.eqb_spec (response_status r) 200) as [Hs|_].
      * destruct (includes (response_url r) "/api/");
          (unfold records_own, failures;
           cbn [now this reading say set_console set_reading];
           split; [lia|]; split;
           [intros H; apply Forall_app; split; [exact H|];
            constructor; [split; assumption | constructor]|];
           split; [|auto];
           exists []; rewrite app_nil_r; split; [reflexivity | constructor]).
      * destruct (includes (response_url r) "/api/");
          apply records_own_same; cbn; auto; lia.
    + destruct (includes (response_url r) "/api/");
        apply records_own_same; cbn; auto; lia.
  - unfold onBodyRead.
    destruct (take_reader id (reading m)) as [[r rest]|] eqn:T;
      [|apply records_own_refl].
    assert (Hdrop : forall m', this m' = this m -> reading m' = rest ->
                               now m' = now m -> records_own m m').
    { intros m' Ht Hr Hn. unfold records_own, failures. rewrite Ht, Hr, Hn.
      split; [lia|]. split.
      - intros H. exact (proj2 (take_reader_Forall _ _ _ _ _ T H)).
      - split; [|auto]. exists []. rewrite app_nil_r.
        split; [reflexivity | constructor]. }
    unfold resume, parse_failed.
    destruct body as [text|e].
    2:{ destruct e as [n msg]. apply Hdrop; reflexivity. }
    destruct (is_empty text || is_empty (trim text)) eqn:He;
      [apply Hdrop; reflexivity|].
    destruct (JSON_parse text) as [payload|e]; [|apply Hdrop; reflexivity].
    unfold records_own, failures, push_capture.
    cbn [now this reading say set_console set_this set_reading
         set_interceptedData interceptedData failedRequests].
    split; [lia|]. split.
    + intros H. exact (proj2 (take_reader_Forall _ _ _ _ _ T H)).
    + split; [|auto]. eexists. split; [reflexivity|].
      intros H. destruct (take_reader_Forall _ _ _ _ _ T H) as [[Hq Hs] _].
      constructor; [|constructor].
      unfold captured_between. cbn [url status size timestamp].
      repeat split; auto; try lia.
      destruct text; [discriminate | cbn; lia].
Qed.

Lemma run_due_records_own (deadline : Z) (evs : list (Z * net_event)) (m : Machine) :
  records_own m (run_due deadline evs m).
Proof.
  revert m. induction evs as [|[te ev] evs IH]; intros m; cbn [run_due].
  - apply records_own_same; cbn; auto; lia.
  - destruct (te <=? deadline)%Z; [|apply records_own_same; cbn; auto; lia].
    eapply records_own_trans; [|apply IH].
    eapply records_own_trans; [|apply handle_records_own].
    apply records_own_same; cbn; auto; lia.
Qed.

Lemma advance_records_own (ms : Z) (m : Machine) : records_own m (advance ms m).
Proof.
  rewrite advance_eq.
  eapply records_own_trans; [apply run_due_records_own|].
  destruct (run_due_frame (now m + Z.max 0 ms) (network m) m) as (_ & _ & _ & Hn & _).
  apply records_own_same; cbn; auto. apply Hn. lia.
Qed.

Lemma install_records_own (m : Machine) :
  records_own m (set_this (set_failedRequests (Some []) (this m))
                          (set_reading [] (set_listening true m))).
Proof.
  unfold records_own, failures. cbn. split; [lia|]. split; [constructor|].
  split; [|intros r []]. exists []. rewrite app_nil_r.
  split; [reflexivity | constructor].
Qed.

Lemma preserves_records_own_searchByURL (searchURL : string) :
  preserves records_own (searchByURL searchURL).
Proof.
  apply (preserves_searchByURL records_own records_own_refl records_own_trans).
  - intros e m. apply records_own_same; cbn; auto; lia.
  - intros c m. apply records_own_same; cbn; auto; lia.
  - intros n m. apply records_own_same; cbn; auto; lia.
  - apply advance_records_own.
  - apply install_records_own.
Qed.

(** X13.  What [searchByURL] leaves in the instance is its own: started
    with no response handler waiting for a body, it only appends to the
    capture list, and every capture it appends is of a response whose URL
    satisfies [isFetchFlightsAPI], with status 200, a body of at least one
    character, and a timestamp between the start and the end of the search;
    and every failure record in the failure list at the end either was
    there at the start or is of a request whose URL contains ["/api/"] or
    ["FetchFlights"], with an error text that is not empty, recorded during
    the search. *)
Theorem searchByURL_records_are_its_own (searchURL : string) (m : Machine) :
  reading m = [] ->
  (exists added,
     interceptedData (this (snd (searchByURL searchURL m))) =
       (interceptedData (this m) ++ added)%list /\
     Forall (captured_between (now m) (now (snd (searchByURL searchURL m)))) added) /\
  (forall r, In r (failures (snd (searchByURL searchURL m))) ->
             In r (failures m) \/
             failed_between (now m) (now (snd (searchByURL searchURL m))) r).
Proof.
  intros Hr.
  destruct (preserves_records_own_searchByURL searchURL m)
    as (_ & _ & (added & E & Hadd) & Hf).
  split; [|exact Hf]. exists added. split; [exact E|].
  apply Hadd. rewrite Hr. constructor.
Qed.

(** ** Troubleshooting *)

Lemma filter_nonempty_iff {A} (f : A -> bool) (l : list A) :
  (0 <? List.length (filter f l))%nat = true <-> exists x, In x l /\ f x = true.
Proof.
  rewrite Nat.ltb_lt. split.
  - intros H. destruct (filter f l) as [|x rest] eqn:E; [cbn in H; lia|].
    exists x. apply filter_In. rewrite E. left. reflexivity.
  - intros (x & Hx & Hf).
    assert (Hin : In x (filter f l)) by (apply filter_In; auto).
    destruct (filter f l); [destruct Hin | cbn; lia].
Qed.

(** X14.  [getTroubleshootingInfo] reports the HTTP/2 issue exactly when
    some failure record of the instance has an error text containing
    ["ERR_HTTP2_PROTOCOL_ERROR"], and the missing-responses issue exactly
    when the capture list is empty; it gives three recommendations for each
    issue it reports.  In particular it reports nothing for an instance
    that holds a capture and whose failures are all of other kinds, however
    many there are. *)
Theorem getTroubleshootingInfo_issues (this : UnitedFlightSearcher) :
  let info := getTroubleshootingInfo this in
  (In http2_issue (possibleIssues info) <->
   exists req, In req (summary_failedRequests (getSummary this)) /\
               is_http2_error req = true) /\
  (In no_response_issue (possibleIssues info) <-> interceptedData this = []) /\
  List.length (recommendations info) = 3 * List.length (possibleIssues info) /\
  (possibleIssues info = [] <->
   interceptedData this <> [] /\
   forall req, In req (summary_failedRequests (getSummary this)) ->
               is_http2_error req = false).
Proof.
  cbv zeta. unfold getTroubleshootingInfo.
  set (failed := summary_failedRequests (getSummary this)).
  assert (Hcount : failedRequestCount (getSummary this) = List.length failed)
    by reflexivity.
  assert (Htotal : totalResponses (getSummary this) =
                   List.length (interceptedData this)) by reflexivity.
  rewrite Hcount, Htotal. clear Hcount Htotal.
  pose proof (filter_nonempty_iff is_http2_error failed) as Hf.
  assert (Hnone : (0 <? List.length failed)%nat = false ->
                  ~ exists req, In req failed /\ is_http2_error req = true).
  { intros H0 (req & Hin & _). apply Nat.ltb_ge in H0.
    destruct failed; [destruct Hin | cbn in H0; lia]. }
  assert (Hall : (~ exists req, In req failed /\ is_http2_error req = true) <->
                 forall req, In req failed -> is_http2_error req = false).
  { split.
    - intros H req Hin. destruct (is_http2_error req) eqn:E; [|reflexivity].
      exfalso. apply H. eauto.
    - intros H (req & Hin & E). rewrite (H req Hin) in E. discriminate. }
  assert (Hempty : (List.length (interceptedData this) =? 0)%nat = true <->
                   interceptedData this = []).
  { rewrite Nat.eqb_eq. destruct (interceptedData this); cbn; split;
      congruence || discriminate || auto. }
  destruct (0 <? List.length failed)%nat eqn:H0;
    [destruct (0 <? List.length (filter is_http2_error failed))%nat eqn:H1|];
    destruct (List.length (interceptedData this) =? 0)%nat eqn:H2;
    cbn [fst snd app possibleIssues recommendations List.length In];
    (split; [|split; [|split; [reflexivity|]]]).
  all: try (split; [intros _; apply Hf; reflexivity | auto]).
  all: try (split; [intros _; apply Hempty; reflexivity | auto]).
  all: try (split; [discriminate | intros [H _]; exfalso; apply H, Hempty; reflexivity]).
  all: try (split; [intros [H|[H|[]]]; discriminate H
                   | intros H; apply Hempty in H; discriminate]).
  all: try (split; [intros [H|[]]; discriminate H
                   | intros H; apply Hempty in H; discriminate]).
  all: try (split; [intros []
                   | intros H; apply Hempty in H; discriminate]).
  all: try (split; [intros [H|[]]; discriminate H
                   | intros H; exfalso; first [ apply Hnone; [reflexivity | exact H]
                                              | apply Hf in H; congruence ]]).
  all: try (split; [intros []
                   | intros H; exfalso; first [ apply (Hnone eq_refl); exact H
                                              | apply Hf in H; congruence ]]).
  all: try (split; [discriminate
                   | intros [_ H]; apply Hall in H; exfalso; apply H, Hf; reflexivity]).
  all: try (split; [intros _; split;
                    [intros H; apply Hempty in H; discriminate
                    | apply Hall; first [ apply (Hnone eq_refl)
                                        | intros H; apply Hf in H; congruence ]]
                   | reflexivity]).
Qed.

(** ** The test driver *)

Lemma finishes_searchByURL (searchURL : string) : finishes (searchByURL searchURL).
Proof.
  unfold searchByURL.
  apply finishes_bind; [apply finishes_log | intros _].
  apply finishes_bind; [apply finishes_host | intros _].
  apply finishes_try_finally; [apply finishes_url_session | apply finishes_host].
Qed.

(** The fallback of lines 902-933: it ends in the error of line 931. *)
Lemma form_fallback_throws (H : Host) (name : result value) (m : Machine) :
  try_catch
    (lift name ;;
     formResults <- searchByFormInteraction ;;
     lift (displayResults H formResults) ;;
     ret formResults)
    (fun formError => throw both_failed) m =
  (Throws both_failed,
   match name with
   | Ok _ => say LogTryingForm m
   | Throw _ => m
   end).
Proof. unfold try_catch, bindM. destruct name as [name|e]; reflexivity. Qed.

(** The control flow of [testWithURL], with the fallback resolved. *)
Lemma testWithURL_eq (H : Host) (searchURL : string) (options : value)
  (m : Machine) :
  testWithURL H searchURL options m =
  match (if fs_existsSync H then Ok tt else fs_mkdirSync H) with
  | Throw e => (Throws e, set_this test_searcher m)
  | Ok _ =>
      match filename_of options with
      | Throw _ => (Throws both_failed, set_this test_searcher m)
      | Ok _ =>
          match searchByURL searchURL (set_this test_searcher m) with
          | (Returns r, m1) =>
              match displayResults H r with
              | Ok _ => (Returns r, m1)
              | Throw _ => (Throws both_failed, say LogTryingForm m1)
              end
          | (Throws _, m1) => (Throws both_failed, say LogTryingForm m1)
          | (Unfinished, m1) => (Unfinished, m1)
          end
      end
  end.
Proof.
  unfold testWithURL, new_test_searcher.
  set (fallback := fun error : Js.error => try_catch _ _).
  assert (Hfb : forall e m0, fallback e m0 =
            (Throws both_failed,
             match filename_of options with
             | Ok _ => say LogTryingForm m0
             | Throw _ => m0
             end))
    by (intros; apply form_fallback_throws).
  clearbody fallback.
  unfold bindM at 1. unfold bindM at 1. unfold update at 1.
  destruct (fs_existsSync H); [|destruct (fs_mkdirSync H) as [[]|efs]];
    cbn [ret lift throw]; try reflexivity.
  all: unfold try_catch, bindM;
    destruct (filename_of options) as [name|eopt]; cbn [lift ret throw];
    [|apply Hfb].
  all: destruct (searchByURL searchURL (set_this test_searcher m)) as [[r|e|] m1];
    [|apply Hfb | reflexivity].
  all: destruct (displayResults H r) as [[]|ed];
    cbn [lift ret throw]; [reflexivity | apply Hfb].
Qed.

(** X15.  [testWithURL] returns a result only when [searchByURL], run on a
    new instance, returns it and [displayResults] prints it without an
    exception; the result and the state are then those of [searchByURL].
    In every other case (the constructor's [mkdirSync] apart) it throws the
    fixed error of line 931, whatever went wrong: the form fallback never
    produces a result and never calls the browser, since
    [searchByFormInteraction] throws before launching one.  An exception
    of [displayResults] after a search that returned has the same effect. *)
Theorem testWithURL_outcome (H : Host) (searchURL : string) (options : value)
  (m : Machine) :
  let start := set_this test_searcher m in
  let run := testWithURL H searchURL options m in
  fst run <> Unfinished /\
  (forall r,
     fst run = Returns r <->
     (fs_existsSync H = true \/ fs_mkdirSync H = Ok tt) /\
     (exists name, filename_of options = Ok name) /\
     fst (searchByURL searchURL start) = Returns r /\
     displayResults H r = Ok tt) /\
  (forall r, fst run = Returns r -> snd run = snd (searchByURL searchURL start)) /\
  (forall e,
     fst run = Throws e ->
     e = both_failed \/ fs_existsSync H = false /\ fs_mkdirSync H = Throw e) /\
  (calls (snd run) = calls m \/
   calls (snd run) = calls (snd (searchByURL searchURL start))).
Proof.
  cbv zeta. rewrite testWithURL_eq.
  pose proof (finishes_searchByURL searchURL (set_this test_searcher m)) as Hfin.
  assert (Hfs : (if fs_existsSync H then Ok tt else fs_mkdirSync H) = Ok tt <->
                fs_existsSync H = true \/ fs_mkdirSync H = Ok tt).
  { destruct (fs_existsSync H); [tauto|]. split; [auto|]. intros [Hc|Hc]; congruence. }
  assert (Hfs' : forall e, (if fs_existsSync H then Ok tt else fs_mkdirSync H) = Throw e ->
                 fs_existsSync H = false /\ fs_mkdirSync H = Throw e).
  { intros e. destruct (fs_existsSync H); [discriminate | auto]. }
  destruct (if fs_existsSync H then Ok tt else fs_mkdirSync H) as [[]|efs].
  2:{ cbn [fst snd]. split; [discriminate|]. split; [|split; [|split]].
      - intros r. split; [discriminate|]. intros (Hc & _).
        apply Hfs in Hc. discriminate.
      - discriminate.
      - intros e He. injection He as <-. right. apply Hfs'. reflexivity.
      - left. reflexivity. }
  assert (Hok : fs_existsSync H = true \/ fs_mkdirSync H = Ok tt)
    by (apply Hfs; reflexivity).
  destruct (filename_of options) as [name|eopt].
  2:{ cbn [fst snd]. split; [discriminate|]. split; [|split; [|split]].
      - intros r. split; [discriminate|]. intros (_ & (n & Hn) & _). discriminate.
      - discriminate.
      - intros e He. injection He as <-. left. reflexivity.
      - left. reflexivity. }
  destruct (searchByURL searchURL (set_this test_searcher m)) as [[r|e|] m1].
  3:{ cbn [fst] in Hfin. congruence. }
  2:{ cbn [fst snd]. split; [discriminate|]. split; [|split; [|split]].
      - intros r. split; [discriminate|]. intros (_ & _ & Hr & _). discriminate.
      - discriminate.
      - intros e0 He. injection He as <-. left. reflexivity.
      - right. reflexivity. }
  destruct (displayResults H r) as [[]|ed] eqn:Hd.
  - cbn [fst snd]. split; [discriminate|]. split; [|split; [|split]].
    + intros r0. split.
      * intros Hr. injection Hr as <-. repeat split; eauto.
      * intros (_ & _ & Hr & _). exact Hr.
    + reflexivity.
    + discriminate.
    + right. reflexivity.
  - cbn [fst snd]. split; [discriminate|]. split; [|split; [|split]].
    + intros r0. split; [discriminate|]. intros (_ & _ & Hr & Hdd).
      injection Hr as <-. congruence.
    + discriminate.
    + intros e0 He. injection He as <-. left. reflexivity.
    + right. reflexivity.
Qed.

(** ** The delays of a search *)

Lemma takes_weaken {A} (d d' : Z) (c : M A) :
  takes d c -> (d <= d')%Z -> takes d' c.
Proof. intros Hc Hd m. specialize (Hc m). lia. Qed.

Lemma takes_ret {A} (a : A) : takes 0 (ret a).
Proof. intros m. cbn. lia. Qed.

Lemma takes_throw {A} (e : Js.error) : takes 0 (@throw A e).
Proof. intros m. cbn. lia. Qed.

Lemma takes_lift {A} (r : result A) : takes 0 (lift r).
Proof. intros m. destruct r; cbn; lia. Qed.

Lemma takes_read {A} (f : Machine -> A) : takes 0 (read f).
Proof. intros m. cbn. lia. Qed.

Lemma takes_update (f : Machine -> Machine) :
  (forall m, now (f m) = now m) -> takes 0 (update f).
Proof. intros Hf m. cbn. rewrite Hf. lia. Qed.

Lemma takes_bind {A C} (d1 d2 : Z) (c : M A) (k : A -> M C) :
  (0 <= d2)%Z ->
  takes d1 c -> (forall a, takes d2 (k a)) -> takes (d1 + d2) (bindM c k).
Proof.
  intros Hd Hc Hk m. unfold bindM. specialize (Hc m).
  destruct (c m) as [[a|e|] m1]; cbn [snd] in *; try lia.
  specialize (Hk a m1). lia.
Qed.

Lemma takes_try_catch {A} (d1 d2 : Z) (c : M A) (h : Js.error -> M A) :
  (0 <= d2)%Z ->
  takes d1 c -> (forall e, takes d2 (h e)) -> takes (d1 + d2) (try_catch c h).
Proof.
  intros Hd Hc Hh m. unfold try_catch. specialize (Hc m).
  destruct (c m) as [[a|e|] m1]; cbn [snd] in *; try lia.
  specialize (Hh e m1). lia.
Qed.

Lemma takes_try_finally {A} (d1 d2 : Z) (c : M A) (f : M unit) :
  takes d1 c -> takes d2 f -> takes (d1 + d2) (try_finally c f).
Proof.
  intros Hc Hf m. unfold try_finally. specialize (Hc m).
  destruct (c m) as [[a|e|] m1]; cbn [snd] in *;
    specialize (Hf m1); destruct (f m1) as [[[]|e'|] m2]; cbn [snd] in *; lia.
Qed.

Lemma takes_if {A} (d1 d2 : Z) (b : bool) (c1 c2 : M A) :
  takes d1 c1 -> takes d2 c2 -> takes (Z.max d1 d2) (if b then c1 else c2).
Proof. intros H1 H2. destruct b; eapply takes_weaken; eauto; lia. Qed.

Lemma takes_log (e : log_entry) : takes 0 (log e).
Proof. apply takes_update. reflexivity. Qed.

Lemma takes_host (c : host_call) : takes 0 (host c).
Proof.
  unfold host. apply (takes_bind 0 0); [lia | apply takes_update; reflexivity|].
  intros _. apply takes_lift.
Qed.

Lemma takes_waitFor (ms : Z) : takes (Z.max 0 ms) (waitFor ms).
Proof. intros m. rewrite waitFor_eq. cbn [snd]. rewrite now_advance. cbn. lia. Qed.

Lemma takes_page_goto (url : string) : takes 0 (page_goto url).
Proof.
  unfold page_goto. apply (takes_bind 0 0); [lia | apply takes_update; reflexivity|].
  intros _. apply (takes_bind 0 0); [lia | apply takes_read|]. intros n. apply takes_lift.
Qed.

Lemma takes_page_title : takes 0 page_title.
Proof.
  unfold page_title. apply (takes_bind 0 0); [lia | apply takes_update; reflexivity|].
  intros _. apply (takes_bind 0 0); [lia | apply takes_read|]. intros n. apply takes_lift.
Qed.

(** An attempt: the settle delay, and the back-off unless it is the last. *)
Lemma takes_navigation_attempt (url : string) (attempt maxRetries : nat) :
  takes (3000 + (if (attempt =? maxRetries)%nat then 0 else 2000 * Z.of_nat attempt))
        (navigation_attempt url attempt maxRetries).
Proof.
  unfold navigation_attempt.
  apply takes_try_catch; [destruct (attempt =? maxRetries)%nat; lia | |].
  - apply (takes_bind 0 3000); [lia | apply takes_log | intros _].
    apply (takes_bind 0 3000); [lia | apply takes_page_goto | intros _].
    apply (takes_bind 3000 0); [lia | apply (takes_waitFor 3000) | intros _].
    apply (takes_bind 0 0); [lia | apply takes_page_title | intros title].
    destruct (_ && _).
    + apply (takes_bind 0 0); [lia | apply takes_log | intros _; apply takes_ret].
    + apply takes_ret.
  - intros e. destruct (attempt =? maxRetries)%nat.
    + apply (takes_bind 0 0); [lia | apply takes_log | intros _; apply takes_throw].
    + apply (takes_bind 0 (2000 * Z.of_nat attempt));
        [lia | apply takes_log | intros _].
      eapply takes_weaken;
        [apply (takes_bind (2000 * Z.of_nat attempt) 0);
         [lia | eapply takes_weaken; [apply takes_waitFor | lia]
         | intros _; apply takes_ret]
        | lia].
Qed.

Lemma nav_delays_nonneg (maxRetries : nat) :
  forall remaining attempt, (0 <= nav_delays maxRetries remaining attempt)%Z.
Proof.
  induction remaining as [|r IH]; intros attempt; cbn [nav_delays]; [lia|].
  specialize (IH (S attempt)). destruct (attempt =? maxRetries)%nat; lia.
Qed.

Lemma takes_navigate_from (url : string) (maxRetries : nat) :
  forall remaining attempt,
    takes (nav_delays maxRetries remaining attempt)
          (navigate_from url maxRetries remaining attempt).
Proof.
  induction remaining as [|r IH]; intros attempt; cbn [navigate_from nav_delays].
  - apply takes_ret.
  - apply takes_bind; [apply nav_delays_nonneg | apply takes_navigation_attempt|].
    intros done. destruct done; [|apply IH].
    eapply takes_weaken; [apply takes_ret | apply nav_delays_nonneg].
Qed.

(** The settle delays, and the back-offs of all attempts but the last. *)
Lemma nav_delays_sum (maxRetries : nat) :
  forall remaining attempt,
    attempt + remaining = maxRetries ->
    nav_delays maxRetries (S remaining) attempt =
    (3000 * (Z.of_nat remaining + 1) +
     1000 * (Z.of_nat maxRetries * (Z.of_nat maxRetries - 1)
             - Z.of_nat attempt * (Z.of_nat attempt - 1)))%Z.
Proof.
  induction remaining as [|r IH]; intros attempt Hsum.
  - cbn [nav_delays]. replace attempt with maxRetries by lia.
    rewrite Nat.eqb_refl. lia.
  - change (nav_delays maxRetries (S (S r)) attempt)
      with (3000 + (if (attempt =? maxRetries)%nat then 0 else 2000 * Z.of_nat attempt)
            + nav_delays maxRetries (S r) (S attempt))%Z.
    rewrite IH by lia.
    destruct (Nat.eqb_spec attempt maxRetries); [lia|]. nia.
Qed.

Lemma takes_poll_loop (maxWait : Z) :
  takes (Z.max 0 maxWait + 5999) (waitForSearchResults maxWait).
Proof.
  intros m. split.
  - apply (preserves_waitForSearchResults later); unfold later; intros; frame; lia.
  - pose proof (poll_bounded (now m) maxWait (now m + Z.max 0 maxWait + 5999)
                  ltac:(lia) (fuel_for maxWait) 0 0 (say LogWaiting m)
                  ltac:(cbn; lia)) as Hb.
    rewrite waitForSearchResults_eq.
    destruct (poll _ _ _ _ _ _) as [[[]|e|] m1]; cbn [snd] in *; try lia.
    rewrite after_timeout_eq. cbn. lia.
Qed.

(** X21.  The delays that a search inserts are bounded: [navigateWithRetry]
    waits at most 3000 ms per attempt and [2000 * attempt] ms after every
    attempt but the last (15000 ms in all for the three attempts of
    [searchByURL]), and [searchByURL] as a whole waits less than 81
    seconds, the rest of its time being spent in the browser. *)
Theorem search_delays (searchURL : string) :
  (forall maxRetries,
     takes (3000 * Z.of_nat maxRetries
            + 1000 * Z.of_nat maxRetries * (Z.of_nat maxRetries - 1))
           (navigateWithRetry searchURL maxRetries)) /\
  takes 80999 (searchByURL searchURL).
Proof.
  assert (Hnav : forall maxRetries,
    takes (3000 * Z.of_nat maxRetries
           + 1000 * Z.of_nat maxRetries * (Z.of_nat maxRetries - 1))
          (navigateWithRetry searchURL maxRetries)).
  { intros [|n]; unfold navigateWithRetry.
    - cbn [navigate_from]. apply takes_ret.
    - eapply takes_weaken; [apply takes_navigate_from|].
      rewrite nav_delays_sum by lia. lia. }
  split; [exact Hnav|].
  unfold searchByURL.
  apply (takes_bind 0 80999); [lia | apply takes_log | intros _].
  apply (takes_bind 0 80999); [lia | apply takes_host | intros _].
  apply (takes_try_finally 80999 0); [|apply takes_host].
  apply (takes_bind 0 80999); [lia | apply takes_host | intros _].
  apply (takes_bind 0 80999); [lia | |].
  { unfold setupAntiDetection.
    repeat (apply (takes_bind 0 0); [lia | apply takes_host | intros _]).
    apply takes_host. }
  intros _.
  apply (takes_bind 0 80999); [lia | apply takes_host | intros _].
  apply (takes_bind 0 80999);
    [lia | unfold setupInterception; apply takes_update; reflexivity | intros _].
  apply (takes_bind 15000 65999);
    [lia | eapply takes_weaken; [apply (Hnav 3) | cbn; lia] | intros _].
  apply (takes_bind 65999 0);
    [lia | eapply takes_weaken; [apply (takes_poll_loop 60000) | cbn; lia]
    | intros _].
  unfold parse_now, Date_now.
  apply (takes_bind 0 0); [lia | apply takes_read | intros t].
  apply (takes_bind 0 0); [lia | apply takes_read | intros self]. apply takes_ret.
Qed.

(** ** Saved responses *)

Lemma replace_first_absent (pattern replacement s : string) :
  includes s pattern = false -> replace_first pattern replacement s = s.
Proof.
  induction s as [|c s IH]; cbn [includes replace_first]; intros Hi;
    apply Bool.orb_false_iff in Hi; destruct Hi as [Hs Hi]; rewrite Hs.
  - reflexivity.
  - now rewrite IH.
Qed.

(** One save that goes through: the record, then the payload on top. *)
Lemma saveResponseToFile_writes (D : Disk) (outputDir name : string)
  (item : CapturedResponse) (options : value) (t : Z) (files : Files) :
  save_name D options t = Ok name ->
  write_error D (path_join D outputDir name) = None ->
  write_error D (path_join D outputDir (simple_name name)) = None ->
  saveResponseToFile D outputDir item options t files =
  (path_join D outputDir (simple_name name), stringify_data D (data item)) ::
  (path_join D outputDir name, stringify_record D item) :: files.
Proof.
  intros Hn H1 H2. unfold saveResponseToFile, save_attempt, writeFileSync.
  now rewrite Hn, H1, H2.
Qed.

(** X22.  A file name without [".json"] loses the record: the simplified
    file gets the same name as the full one ([replace] finds nothing to
    replace), so the second write replaces the first, and the file holds
    the payload alone, without the capture's url, timestamp, status, size
    and headers. *)
Theorem name_without_json_loses_record (D : Disk) (outputDir name : string)
  (item : CapturedResponse) (options : value) (t : Z) (files : Files) :
  save_name D options t = Ok name ->
  includes name ".json" = false ->
  write_error D (path_join D outputDir name) = None ->
  saveResponseToFile D outputDir item options t files =
    (path_join D outputDir name, stringify_data D (data item)) ::
    (path_join D outputDir name, stringify_record D item) :: files /\
  file (path_join D outputDir name)
       (saveResponseToFile D outputDir item options t files)
    = Some (stringify_data D (data item)).
Proof.
  intros Hn Hj Hw.
  assert (Hs : simple_name name = name) by (apply replace_first_absent; exact Hj).
  assert (E : saveResponseToFile D outputDir item options t files =
              (path_join D outputDir name, stringify_data D (data item)) ::
              (path_join D outputDir name, stringify_record D item) :: files).
  { rewrite (saveResponseToFile_writes D outputDir name item options t files Hn);
      rewrite ?Hs; auto. }
  split; [exact E|]. rewrite E. unfold file. cbn [find fst snd].
  now rewrite String.eqb_refl.
Qed.

(** All the files are those of the given name. *)
Lemma save_all_paths (D : Disk) (outputDir name : string) (options : value)
  (captures : list CapturedResponse) :
  (forall t, save_name D options t = Ok name) ->
  forall files,
    Forall (fun f => fst f = path_join D outputDir name \/
                     fst f = path_join D outputDir (simple_name name)) files ->
    Forall (fun f => fst f = path_join D outputDir name \/
                     fst f = path_join D outputDir (simple_name name))
           (save_all D outputDir options captures files).
Proof.
  intros Hn. unfold save_all.
  induction captures as [|c rest IH]; intros files Hf; cbn [fold_left];
    [exact Hf|].
  apply IH. unfold saveResponseToFile, save_attempt, writeFileSync.
  rewrite Hn.
  destruct (write_error D (path_join D outputDir name)); cbn [snd]; [exact Hf|].
  destruct (write_error D (path_join D outputDir (simple_name name))); cbn [snd].
  - constructor; [left; reflexivity | exact Hf].
  - constructor; [right; reflexivity|].
    constructor; [left; reflexivity | exact Hf].
Qed.

Lemma file_not_written (path : string) (files : Files) :
  Forall (fun f => fst f <> path) files -> file path files = None.
Proof.
  unfold file. induction files as [|f rest IH]; intros Hf; [reflexivity|].
  inversion Hf as [|? ? Hne Hrest]; subst. cbn [find].
  destruct (String.eqb_spec (fst f) path); [contradiction|]. exact (IH Hrest).
Qed.

(** X23.  With a file name given in [options], every capture of a search
    is saved under that name, each save replacing the one before: once the
    captures of a list have been saved (on a disk that accepts the writes,
    and that held no file before), every file there is holds the record or
    the payload of the last capture, and nothing of the earlier ones,
    whichever of them [parseInterceptedData] goes by. *)
Theorem only_last_capture_is_saved (D : Disk) (outputDir name : string)
  (options : value) (captures : list CapturedResponse) (last : CapturedResponse) :
  (forall t, save_name D options t = Ok name) ->
  write_error D (path_join D outputDir name) = None ->
  write_error D (path_join D outputDir (simple_name name)) = None ->
  forall path text,
    file path (save_all D outputDir options (captures ++ [last]) []) = Some text ->
    text = stringify_record D last \/ text = stringify_data D (data last).
Proof.
  intros Hn H1 H2 path text.
  unfold save_all. rewrite fold_left_app. cbn [fold_left].
  fold (save_all D outputDir options captures []).
  rewrite (saveResponseToFile_writes D outputDir name last options
             (timestamp last) _ (Hn _) H1 H2).
  pose proof (save_all_paths D outputDir name options captures Hn []
                (Forall_nil _)) as Hpaths.
  unfold file. cbn [find fst snd].
  destruct (String.eqb_spec (path_join D outputDir (simple_name name)) path) as [E2|N2].
  - intros E. injection E as <-. right. reflexivity.
  - destruct (String.eqb_spec (path_join D outputDir name) path) as [E1|N1].
    + intros E. injection E as <-. left. reflexivity.
    + intros E. exfalso.
      assert (Hnone : file path (save_all D outputDir options captures []) = None).
      { apply file_not_written. eapply Forall_impl; [|exact Hpaths].
        intros f [Hf|Hf]; rewrite Hf; assumption. }
      unfold file in Hnone. rewrite Hnone in E. discriminate.
Qed.

(** ** Defaults *)

Lemma bind_Ok {A C} (c : result A) (k : A -> result C) (y : C) :
  Js.bind c k = Ok y -> exists a, c = Ok a /\ k a = Ok y.
Proof. destruct c as [a|e]; [eauto | discriminate]. Qed.

Lemma mapM_Forall {A C} (f : A -> result C) (P : C -> Prop) :
  (forall x y, f x = Ok y -> P y) ->
  forall xs ys, mapM f xs = Ok ys -> Forall P ys.
Proof.
  intros Hf. induction xs as [|x xs IH]; intros ys E; cbn [mapM] in E.
  - injection E as <-. constructor.
  - apply bind_Ok in E. destruct E as (y & Hy & E).
    apply bind_Ok in E. destruct E as (ys' & Hys & E). injection E as <-.
    constructor; [exact (Hf x y Hy) | exact (IH ys' Hys)].
Qed.

Lemma map_under_Forall {C} (base : value) (k1 k2 : string)
  (f : value -> result C) (P : C -> Prop) (ys : list C) :
  (forall x y, f x = Ok y -> P y) ->
  map_under base k1 k2 f = Ok ys -> Forall P ys.
Proof.
  intros Hf. unfold map_under. intros E.
  apply bind_Ok in E. destruct E as (a & _ & E).
  destruct (truthy a); [|injection E as <-; constructor].
  apply bind_Ok in E. destruct E as (b & _ & E).
  destruct (truthy b); [|injection E as <-; constructor].
  unfold array_map in E. destruct b; try discriminate.
  exact (mapM_Forall f P Hf _ _ E).
Qed.

Lemma price_of_not_nan (dest : value) (p : AirportPrice) :
  price_of dest = Ok p -> PrimFloat.is_nan (price_price p) = false.
Proof.
  unfold price_of. intros E.
  repeat (apply bind_Ok in E; destruct E as (? & _ & E)).
  injection E as <-. cbn [price_price truthy].
  match goal with |- context [PrimFloat.is_zero ?x] =>
    destruct (PrimFloat.is_zero x); destruct (PrimFloat.is_nan x) eqn:Hn end;
    cbn [orb negb]; first [exact Hn | reflexivity].
Qed.

Lemma fare_of_refundable (column : value) (f : FareOption) :
  fare_of column = Ok f ->
  truthy (fare_isRefundable f) = true \/ fare_isRefundable f = VBool false.
Proof.
  unfold fare_of. intros E.
  repeat (apply bind_Ok in E; destruct E as (? & _ & E)).
  injection E as <-. cbn [fare_isRefundable]. unfold or_else.
  match goal with |- context [if truthy ?x then _ else _] =>
    destruct (truthy x) eqn:Ht end; [left; exact Ht | right; reflexivity].
Qed.

Lemma flight_of_defaults (trip : value) (flight : FlightOption) :
  flight_of trip = Ok flight -> has_defaults flight.
Proof.
  unfold flight_of. intros E.
  do 7 (apply bind_Ok in E; destruct E as (? & _ & E)).
  apply bind_Ok in E. destruct E as (fs & Hfares & E).
  apply bind_Ok in E. destruct E as (ps & Hprices & E).
  do 3 (apply bind_Ok in E; destruct E as (? & _ & E)).
  injection E as <-. split; cbn [pricing fares].
  - exact (map_under_Forall _ _ _ _ _ _ price_of_not_nan Hprices).
  - exact (map_under_Forall _ _ _ _ _ _ fare_of_refundable Hfares).
Qed.

Lemma collect_defaults (L : list value) :
  forall acc, Forall has_defaults acc -> Forall has_defaults (fst (collect L acc)).
Proof.
  induction L as [|trip L IH]; intros acc Hacc; cbn [collect]; [exact Hacc|].
  destruct (negb (truthy trip)); [exact (IH acc Hacc)|].
  destruct (flight_of trip) as [f|e] eqn:Hf; [|exact Hacc].
  apply IH. apply Forall_app. split; [exact Hacc|].
  constructor; [exact (flight_of_defaults trip f Hf) | constructor].
Qed.

(** X24.  The defaults of [extractFlightInfo] hold in every result,
    complete or cut short by an exception: no price of a returned flight is
    NaN (an amount that does not read as a number counts as 0), every fare
    says whether it is refundable ([false] when the payload does not), and
    the warnings and errors of the search information are never missing
    (an empty list when the payload has none). *)
Theorem extractFlightInfo_defaults (d : value) :
  Forall has_defaults (flights (extractFlightInfo d)) /\
  forall info, searchInfo (extractFlightInfo d) = Some info ->
               truthy (warnings info) = true /\ truthy (errors info) = true.
Proof.
  unfold extractFlightInfo.
  destruct (negb (truthy d) || negb (typeof_object d)).
  { split; [constructor | discriminate]. }
  destruct (Js.bind (locate_trips d) _) as [trips|e].
  2:{ split; [constructor | discriminate]. }
  pose proof (collect_defaults trips [] (Forall_nil _)) as Hfl.
  destruct (collect trips []) as [fl [e|]]; cbn [fst] in Hfl.
  { split; [exact Hfl | discriminate]. }
  destruct (searchInfo_of d) as [info|e] eqn:Hinfo.
  2:{ split; [exact Hfl | discriminate]. }
  split; [exact Hfl|]. cbn [searchInfo]. intros info' E. injection E as <-.
  unfold searchInfo_of in Hinfo.
  repeat (apply bind_Ok in Hinfo; destruct Hinfo as (? & _ & Hinfo)).
  injection Hinfo as <-. cbn [warnings errors]. unfold or_else.
  split; match goal with |- context [if truthy ?x then _ else _] =>
           destruct (truthy x) eqn:Ht end; first [exact Ht | reflexivity].
Qed.

End Engine.

(* ================================================================== *)
(** * Properties of the URL builder *)

Section Builder.

Import UnitedURLBuilder.

Context (H : Builtins).

Lemma own_In {A} (table : list (string * A)) (key : string) (v : A) :
  own table key = Some v -> In (key, v) table.
Proof.
  induction table as [|[k a] rest IH]; cbn [own]; [discriminate|].
  destruct (String.eqb_spec key k) as [->|_].
  - intros E. injection E as <-. left. reflexivity.
  - intros E. right. auto.
Qed.

(** No member of [Object.prototype] is named by three letters. *)
Lemma airport_code_not_inherited (s : string) :
  is_airport_code s = true -> inherited s = false.
Proof.
  destruct s as [|a [|b [|c [|d s]]]]; try discriminate. intros _.
  unfold inherited, Object_prototype. cbn.
  assert (Hif : forall x : bool, (if x then false else false) = false)
    by (intros []; reflexivity).
  now rewrite !Hif.
Qed.

(** X16.  [formatDestination] changes nothing in a destination that it has
    formatted: a three-letter code is expanded once, and its expansion (a
    city name, with or without [" (ALL AIRPORTS)"], or the code followed by
    that suffix) is returned as it is, like every other text. *)
Theorem formatDestination_idempotent (destination useAllAirports formatted : value) :
  (forall s, is_airport_code s = true -> toUpperCase H s = s) ->
  formatDestination H destination useAllAirports = Ok formatted ->
  formatDestination H formatted useAllAirports = Ok formatted.
Proof.
  intros Hup. unfold formatDestination at 1.
  destruct destination as [| |b|n|s|items|fields]; try discriminate;
    try (intros E; injection E as <-; reflexivity).
  destruct (is_airport_code s) eqn:Hs.
  2:{ intros E. injection E as <-. cbn [formatDestination]. now rewrite Hs. }
  rewrite (Hup s Hs). unfold entry.
  rewrite (airport_code_not_inherited s Hs).
  destruct (own cityMap s) as [city|] eqn:Hc.
  - apply own_In in Hc. intros E. injection E as <-.
    cbn [In cityMap] in Hc.
    destruct (all_airports useAllAirports);
      repeat (destruct Hc as [Hc|Hc]; [injection Hc as <- <-; reflexivity|]);
      destruct Hc.
  - intros E. injection E as <-.
    destruct (all_airports useAllAirports) eqn:Ha.
    + destruct s as [|a [|b [|c [|d s]]]]; try discriminate. reflexivity.
    + cbn [formatDestination]. rewrite Hs, (Hup s Hs). unfold entry.
      now rewrite Hc, (airport_code_not_inherited s Hs), Ha.
Qed.

(** ** Cabin classes *)

(** X17.  The cabin classes ["first"] and ["premium"] give the same URL,
    whatever the other options: both stand for the code 7.  Hence the cabin
    class that [parseURL] reports is never ["premium"]: [reverseLookup]
    answers with the first key of the table that has the code. *)
Theorem premium_is_first (first premium : string) (fields : list (string * value)) :
  toLowerCase H first = "first" -> toLowerCase H premium = "premium" ->
  buildURL H (VObj (("cabinClass", VStr first) :: fields)) =
  buildURL H (VObj (("cabinClass", VStr premium) :: fields)) /\
  forall url parsed,
    parseURL H url = Ok parsed ->
    parsed_cabinClass parsed <> Some "premium" /\
    (forall class, parsed_cabinClass parsed = Some class ->
                   exists n, own cabinClasses class = Some n).
Proof.
  intros Hf Hp. split.
  - unfold buildURL, build_params. cbn [get lookup String.eqb Ascii.eqb Bool.eqb].
    cbn [cabin_key Js.bind]. rewrite Hf, Hp. reflexivity.
  - intros url parsed. unfold parseURL.
    destruct (URL_searchParams H url) as [params|e]; [|discriminate].
    intros E. injection E as <-. cbn [parsed_cabinClass].
    unfold reverseLookup, cabinClasses. cbn [find snd fst].
    repeat (destruct (same_number _ _);
            [split; [discriminate | intros class E; injection E as <-;
                                    eexists; reflexivity]|]).
    split; discriminate.
Qed.

(** ** What [params] holds in the end *)

Lemma find_filter_other (name name' : string) (params : list (string * string)) :
  String.eqb name name' = false ->
  find (has_name name) (filter (fun q => negb (has_name name' q)) params) =
  find (has_name name) params.
Proof.
  intros Hne. induction params as [|p rest IH]; [reflexivity|].
  cbn [filter find]. destruct (has_name name' p) eqn:Hp'; cbn [negb].
  - assert (Hp : has_name name p = false).
    { unfold has_name in *. apply String.eqb_eq in Hp'.
      destruct (String.eqb_spec (fst p) name) as [E|_]; [|reflexivity].
      rewrite <- Hp', E, String.eqb_refl in Hne. discriminate. }
    rewrite Hp. exact IH.
  - cbn [find]. destruct (has_name name p); [reflexivity | exact IH].
Qed.

(** [set] leaves the other names as they are... *)
Lemma param_set_other (name name' value : string) (params : list (string * string)) :
  String.eqb name name' = false ->
  param name (params_set name' value params) = param name params.
Proof.
  intros Hne. unfold param, params_set.
  destruct (existsb (has_name name') params).
  - induction params as [|p rest IH]; [reflexivity|].
    cbn [set_first find]. destruct (has_name name' p) eqn:Hp.
    + assert (Hq : has_name name p = false).
      { unfold has_name in *. apply String.eqb_eq in Hp.
        destruct (String.eqb_spec (fst p) name) as [E|_]; [|reflexivity].
        rewrite <- Hp, E, String.eqb_refl in Hne. discriminate. }
      cbn [find].
      change (has_name name (fst p, value)) with (has_name name p).
      now rewrite Hq, find_filter_other.
    + cbn [find]. destruct (has_name name p); [reflexivity | exact IH].
  - induction params as [|p rest IH]; cbn [app find].
    + unfold has_name. cbn [fst]. now rewrite String.eqb_sym, Hne.
    + destruct (has_name name p); [reflexivity | exact IH].
Qed.

(** ... and gives [name] the value. *)
Lemma param_set_same (name value : string) (params : list (string * string)) :
  param name (params_set name value params) = Some value.
Proof.
  unfold param, params_set.
  destruct (existsb (has_name name) params) eqn:Hex.
  - induction params as [|p rest IH]; [discriminate|].
    cbn [existsb] in Hex. cbn [set_first find].
    destruct (has_name name p) eqn:Hp.
    + cbn [find]. unfold has_name in *. cbn [fst]. now rewrite Hp.
    + cbn [find]. rewrite Hp. apply IH. exact Hex.
  - induction params as [|p rest IH]; cbn [app find].
    + unfold has_name. cbn [fst]. now rewrite String.eqb_refl.
    + cbn [existsb] in Hex. apply Bool.orb_false_iff in Hex.
      destruct Hex as [Hp Hex]. rewrite Hp. apply IH. exact Hex.
Qed.

Lemma flag_keeps (advanced : value) (k name' name : string)
  (params params' : list (string * string)) :
  flag advanced k name' params = Ok params' ->
  String.eqb name name' = false ->
  param name params' = param name params.
Proof.
  unfold flag. destruct (get advanced k) as [v|e]; [|discriminate].
  cbn [Js.bind]. intros E Hne. injection E as <-.
  destruct (truthy v); [now apply param_set_other | reflexivity].
Qed.

Lemma code_keeps (advanced : value) (k name' name : string)
  (params params' : list (string * string)) :
  code H advanced k name' params = Ok params' ->
  String.eqb name name' = false ->
  param name params' = param name params.
Proof.
  unfold code. destruct (get advanced k) as [v|e]; [|discriminate].
  cbn [Js.bind]. intros E Hne. injection E as <-.
  destruct (truthy v); [now apply param_set_other | reflexivity].
Qed.

Lemma addAdvancedParams_keeps (advanced : value)
  (params params' : list (string * string)) (name : string) :
  addAdvancedParams H params advanced = Ok params' ->
  existsb (String.eqb name) advanced_names = false ->
  param name params' = param name params.
Proof.
  unfold addAdvancedParams, advanced_names. cbn [existsb].
  intros E Hn.
  repeat (apply Bool.orb_false_iff in Hn; destruct Hn as [? Hn]).
  destruct (flag advanced "flexibleDates" "fd" params) as [p1|] eqn:E1;
    [|discriminate]. cbn [Js.bind] in E.
  destruct (flag advanced "nonstopOnly" "ns" p1) as [p2|] eqn:E2;
    [|discriminate]. cbn [Js.bind] in E.
  destruct (get advanced "timeOfDay") as [tod|]; [|discriminate].
  cbn [Js.bind] in E.
  assert (E3 : exists p3,
    (if truthy tod
     then Js.bind (lower H "advanced.timeOfDay" tod)
            (fun key => Ok (params_set "tod" (entry H (fun c => c) timeMap key "A") p2))
     else Ok p2) = Ok p3 /\ param name p3 = param name p2 /\
    Js.bind (flag advanced "awardTravel" "at" p3)
      (fun params0 =>
         Js.bind (flag advanced "refundableOnly" "rf" params0)
           (fun params1 =>
              Js.bind (flag advanced "bookWithMiles" "bwm" params1)
                (fun params2 =>
                   Js.bind (code H advanced "corporateCode" "cc" params2)
                     (fun params3 => code H advanced "promoCode" "pc" params3))))
    = Ok params').
  { destruct (truthy tod).
    - destruct (lower H "advanced.timeOfDay" tod) as [key|]; [|discriminate].
      cbn [Js.bind] in *. eexists. split; [reflexivity|].
      split; [now apply param_set_other | exact E].
    - cbn [Js.bind] in *. eexists. split; [reflexivity|]. split; [reflexivity | exact E]. }
  destruct E3 as (p3 & _ & K3 & E3). clear E.
  destruct (flag advanced "awardTravel" "at" p3) as [p4|] eqn:E4;
    [|discriminate]. cbn [Js.bind] in E3.
  destruct (flag advanced "refundableOnly" "rf" p4) as [p5|] eqn:E5;
    [|discriminate]. cbn [Js.bind] in E3.
  destruct (flag advanced "bookWithMiles" "bwm" p5) as [p6|] eqn:E6;
    [|discriminate]. cbn [Js.bind] in E3.
  destruct (code H advanced "corporateCode" "cc" p6) as [p7|] eqn:E7;
    [|discriminate]. cbn [Js.bind] in E3.
  rewrite (code_keeps _ _ _ name _ _ E3), (code_keeps _ _ _ name _ _ E7),
    (flag_keeps _ _ _ name _ _ E6), (flag_keeps _ _ _ name _ _ E5),
    (flag_keeps _ _ _ name _ _ E4), K3, (flag_keeps _ _ _ name _ _ E2),
    (flag_keeps _ _ _ name _ _ E1); auto.
Qed.

(** What [params] holds when [build_params] is through. *)
Lemma build_params_holds (options tripType returnDate : value)
  (params : list (string * string)) :
  build_params H options = Ok params ->
  get options "tripType" = Ok tripType ->
  get options "returnDate" = Ok returnDate ->
  param "tqp" params =
    Some (entry H (fun c => c) tripTypes (resolved_tripType H tripType returnDate) "O") /\
  (param "r" params = None <-> truthy returnDate = false) /\
  (exists cabinCode,
     param "ct" params = Some cabinCode /\ param "clm" params = Some cabinCode /\
     param "sc" params = Some (cabinCode ++ "," ++ cabinCode)) /\
  (exists f t d px st,
     param "f" params = Some f /\ param "t" params = Some t /\
     param "d" params = Some d /\ param "px" params = Some px /\
     param "st" params = Some st) /\
  param "taxng" params = Some "1" /\ param "newHP" params = Some "True".
Proof.
  unfold build_params, resolved_tripType. intros E Ht Hr. rewrite Ht, Hr in E.
  destruct (get options "from") as [from|]; [|discriminate].
  destruct (get options "to") as [to|]; [|discriminate].
  destruct (get options "departDate") as [departDate|]; [|discriminate].
  cbn [Js.bind] in E.
  destruct (negb (truthy from) || negb (truthy to) || negb (truthy departDate));
    [discriminate|].
  destruct (match from with VStr s => Ok (toUpperCase H s) | _ => _ end) as [f|];
    [|discriminate].
  destruct (get options "useAllAirports") as [useAll|]; [|discriminate].
  cbn [Js.bind] in E.
  destruct (formatDestination H to useAll) as [t|]; [|discriminate].
  destruct (formatDate H departDate) as [d|]; [|discriminate].
  cbn [Js.bind] in E.
  set (p3 := params_set "d" d (params_set "t" (text H t) (params_set "f" f []))) in E.
  assert (Er : exists p4,
    (if truthy returnDate
     then Js.bind (formatDate H returnDate) (fun r => Ok (params_set "r" r p3))
     else Ok p3) = Ok p4 /\
    (param "r" p4 = None <-> truthy returnDate = false) /\
    (forall name, String.eqb name "r" = false -> param name p4 = param name p3)).
  { destruct (truthy returnDate).
    - destruct (formatDate H returnDate) as [r|]; [|discriminate].
      eexists. split; [reflexivity|]. split.
      + rewrite param_set_same. split; discriminate.
      + intros name Hn. now apply param_set_other.
    - eexists. split; [reflexivity|]. split; [|reflexivity].
      split; [reflexivity|]. intros _. reflexivity. }
  destruct Er as (p4 & Er & Hr4 & Hkeep). rewrite Er in E. cbn [Js.bind] in E.
  destruct (get options "passengers") as [passengers|]; [|discriminate].
  destruct (get options "cabinClass") as [cabinClass|]; [|discriminate].
  cbn [Js.bind] in E.
  destruct (cabin_key H cabinClass) as [key|]; [|discriminate].
  destruct (get options "sortBy") as [sortBy|]; [|discriminate].
  destruct (get options "advanced") as [advanced|]; [|discriminate].
  cbn [Js.bind] in E.
  match type of E with
  | (if _ then addAdvancedParams H ?p _ else _) = _ => set (basic := p) in E
  end.
  assert (Hsame : forall name, existsb (String.eqb name) advanced_names = false ->
                               param name params = param name basic).
  { intros name Hn. destruct (truthy advanced).
    - now apply (addAdvancedParams_keeps advanced).
    - injection E as <-. reflexivity. }
  clear E.
  assert (Hp3 : param "f" p3 = Some f /\ param "t" p3 = Some (text H t) /\
                param "d" p3 = Some d).
  { subst p3. repeat split;
      repeat first [ rewrite param_set_same | rewrite param_set_other by reflexivity ];
      reflexivity. }
  destruct Hp3 as (Hf & Htt & Hd).
  subst basic.
  repeat split.
  - rewrite Hsame by reflexivity.
    repeat first [ rewrite param_set_same | rewrite param_set_other by reflexivity ].
    reflexivity.
  - intros Hnone. apply Hr4. rewrite Hsame in Hnone by reflexivity.
    repeat rewrite param_set_other in Hnone by reflexivity. exact Hnone.
  - intros Hfalse. rewrite Hsame by reflexivity.
    repeat rewrite param_set_other by reflexivity. apply Hr4. exact Hfalse.
  - eexists. repeat split; rewrite Hsame by reflexivity;
      repeat first [ rewrite param_set_same | rewrite param_set_other by reflexivity ];
      reflexivity.
  - exists f, (text H t), d. eexists. eexists.
    repeat split; rewrite Hsame by reflexivity;
      repeat first [ rewrite param_set_same | rewrite param_set_other by reflexivity ];
      rewrite ?Hkeep by reflexivity; eauto.
  - rewrite Hsame by reflexivity.
    repeat first [ rewrite param_set_same | rewrite param_set_other by reflexivity ].
    reflexivity.
  - rewrite Hsame by reflexivity.
    repeat first [ rewrite param_set_same | rewrite param_set_other by reflexivity ].
    reflexivity.
Qed.

(** X18.  The parameters that the URL carries are those that [buildURL]
    set, one by one: no later parameter, basic or advanced, replaces an
    earlier one.  The trip code [tqp] is that of the trip type option,
    else of the presence of a return date, and [O] for a type the table
    does not have; [r] is there exactly when the return date is truthy;
    [ct] and [clm] hold the same cabin code and [sc] that code twice. *)
Theorem build_params_readback (options tripType returnDate : value)
  (params : list (string * string)) :
  build_params H options = Ok params ->
  get options "tripType" = Ok tripType ->
  get options "returnDate" = Ok returnDate ->
  param "tqp" params =
    Some (entry H (fun c => c) tripTypes (resolved_tripType H tripType returnDate) "O") /\
  (param "r" params = None <-> truthy returnDate = false) /\
  (exists cabinCode,
     param "ct" params = Some cabinCode /\ param "clm" params = Some cabinCode /\
     param "sc" params = Some (cabinCode ++ "," ++ cabinCode)) /\
  (exists f t d px st,
     param "f" params = Some f /\ param "t" params = Some t /\
     param "d" params = Some d /\ param "px" params = Some px /\
     param "st" params = Some st) /\
  param "taxng" params = Some "1" /\ param "newHP" params = Some "True".
Proof.
  intros E Ht Hr.
  destruct (build_params_holds options tripType returnDate params E Ht Hr)
    as (Htqp & Hreturn & Hcabin & Hbasic & Htax & Hnew).
  split; [exact Htqp|]. split; [exact Hreturn|]. split; [exact Hcabin|].
  split; [exact Hbasic|]. split; [exact Htax | exact Hnew].
Qed.

(** ** The required parameters *)

Lemma get_not_required (v : value) (k : string) : get v k <> Throw required.
Proof. destruct v; discriminate. Qed.

Lemma bind_not_required {A C} (c : result A) (k : A -> result C) :
  c <> Throw required -> (forall a, k a <> Throw required) ->
  Js.bind c k <> Throw required.
Proof.
  intros Hc Hk. destruct c as [a|e]; cbn; [apply Hk|].
  intros E. apply Hc. injection E as ->. reflexivity.
Qed.

Lemma formatDate_not_required (v : value) : formatDate H v <> Throw required.
Proof.
  unfold formatDate, required, Error.
  destruct v; try destruct (is_iso_date _);
    try match goal with |- context [Date_iso H ?x] => destruct (Date_iso H x) end;
    cbn; discriminate.
Qed.

Lemma formatDestination_not_required (d u : value) :
  formatDestination H d u <> Throw required.
Proof.
  unfold formatDestination. destruct d; try destruct (is_airport_code _); discriminate.
Qed.

Lemma flag_not_required (advanced : value) (k name : string)
  (params : list (string * string)) :
  flag advanced k name params <> Throw required.
Proof.
  unfold flag. apply bind_not_required; [apply get_not_required | discriminate].
Qed.

Lemma code_not_required (advanced : value) (k name : string)
  (params : list (string * string)) :
  code H advanced k name params <> Throw required.
Proof.
  unfold code. apply bind_not_required; [apply get_not_required | discriminate].
Qed.

Lemma lower_not_required (what : string) (v : value) :
  lower H what v <> Throw required.
Proof. unfold lower. destruct v; discriminate. Qed.

Ltac not_required :=
  repeat first
    [ apply get_not_required
    | apply lower_not_required
    | apply formatDate_not_required
    | apply formatDestination_not_required
    | apply flag_not_required
    | apply code_not_required
    | discriminate
    | apply bind_not_required; [|intros]
    | match goal with
      | |- (if ?c then _ else _) <> _ => destruct c
      | |- (match ?v with _ => _ end) <> _ => destruct v
      end ].

Lemma addAdvancedParams_not_required (params : list (string * string))
  (advanced : value) :
  addAdvancedParams H params advanced <> Throw required.
Proof. unfold addAdvancedParams. not_required. Qed.

(** X19.  [buildURL] throws the error ["Required parameters: from, to,
    departDate"] exactly when [options] is an object (or any value other
    than [null] and [undefined]) in which one of the three is missing or
    falsy; whatever else goes wrong gives another error. *)
Theorem buildURL_required_iff (options : value) :
  buildURL H options = Throw required <->
  exists from to departDate,
    get options "from" = Ok from /\ get options "to" = Ok to /\
    get options "departDate" = Ok departDate /\
    (truthy from = false \/ truthy to = false \/ truthy departDate = false).
Proof.
  unfold buildURL, build_params. split.
  - destruct (get options "from") as [from|e] eqn:Gf.
    2:{ intros E. cbn in E. injection E as ->. now apply get_not_required in Gf. }
    destruct (get options "to") as [to|e] eqn:Gt.
    2:{ intros E. cbn in E. injection E as ->. now apply get_not_required in Gt. }
    destruct (get options "departDate") as [departDate|e] eqn:Gd.
    2:{ intros E. cbn in E. injection E as ->. now apply get_not_required in Gd. }
    cbn [Js.bind].
    destruct (truthy from) eqn:Tf;
      [|intros _; exists from, to, departDate; repeat split; auto].
    destruct (truthy to) eqn:Tt;
      [|intros _; exists from, to, departDate; repeat split; auto].
    destruct (truthy departDate) eqn:Td;
      [|intros _; exists from, to, departDate; repeat split; auto].
    cbn [negb orb]. intros E. exfalso. revert E.
    cbv zeta. unfold cabin_key.
    not_required.
  - intros (from & to & departDate & -> & -> & -> & Hfalsy). cbn [Js.bind].
    assert (negb (truthy from) || negb (truthy to) || negb (truthy departDate) = true)
      as ->; [|reflexivity].
    destruct Hfalsy as [-> | [-> | ->]]; cbn;
      rewrite ?Bool.orb_true_r; reflexivity.
Qed.

(** ** One way and round trip *)

Lemma lookup_app_own (key : string) (a b : list (string * value)) :
  existsb (fun p => String.eqb key (fst p)) a = true ->
  lookup key (a ++ b) = lookup key a.
Proof.
  induction a as [|[k v] a IH]; cbn [existsb app lookup fst]; [discriminate|].
  destruct (String.eqb key k); [reflexivity|]. exact IH.
Qed.

Lemma lookup_app_other (key : string) (a b : list (string * value)) :
  existsb (fun p => String.eqb key (fst p)) a = false ->
  lookup key (a ++ b) = lookup key b.
Proof.
  induction a as [|[k v] a IH]; cbn [existsb app lookup fst]; [reflexivity|].
  destruct (String.eqb key k); [discriminate|]. exact IH.
Qed.

Lemma lookup_not_own (key : string) (a : list (string * value)) :
  existsb (fun p => String.eqb key (fst p)) a = false -> lookup key a = VUndefined.
Proof.
  induction a as [|[k v] a IH]; cbn [existsb lookup fst]; [reflexivity|].
  destruct (String.eqb key k); [discriminate|]. exact IH.
Qed.

(** X20.  Unless [options] has a [tripType] property of its own,
    [buildOneWayURL] gives the trip code [O] and [buildRoundTripURL] the
    code [R], whatever the dates: a one-way URL carries the parameter [r]
    when [options] has a truthy [returnDate], and a round-trip URL lacks it
    when its return date is falsy (and [options] has none). *)
Theorem trip_codes (from to departDate returnDate options : value)
  (params : list (string * string)) :
  has_own options "tripType" = false ->
  (build_params H (oneWay_options from to departDate options) = Ok params ->
   buildOneWayURL H from to departDate options =
     Ok (baseUrl ++ "?" ++ URLSearchParams_toString H params) /\
   param "tqp" params = Some "O" /\
   (param "r" params = None <->
    truthy (lookup "returnDate" (spread options)) = false)) /\
  (build_params H (roundTrip_options from to departDate returnDate options)
     = Ok params ->
   buildRoundTripURL H from to departDate returnDate options =
     Ok (baseUrl ++ "?" ++ URLSearchParams_toString H params) /\
   param "tqp" params = Some "R" /\
   (has_own options "returnDate" = false ->
    (param "r" params = None <-> truthy returnDate = false))).
Proof.
  unfold has_own. intros Hno. split; intros E.
  - split; [unfold buildOneWayURL, buildURL; now rewrite E|].
    destruct (build_params_holds
                (oneWay_options from to departDate options)
                (VStr "oneway")
                (lookup "returnDate" (spread options)) params E)
      as (Htqp & Hr & _).
    + unfold oneWay_options. cbn [get]. now rewrite lookup_app_other.
    + unfold oneWay_options. cbn [get].
      destruct (existsb (fun p => String.eqb "returnDate" (fst p)) (spread options))
        eqn:Hown.
      * now rewrite lookup_app_own.
      * rewrite lookup_app_other by exact Hown.
        now rewrite (lookup_not_own _ _ Hown).
    + split; [exact Htqp | exact Hr].
  - split; [unfold buildRoundTripURL, buildURL; now rewrite E|].
    destruct (build_params_holds
                (roundTrip_options from to departDate returnDate options)
                (VStr "roundtrip")
                (lookup "returnDate"
                   (spread options ++ [("returnDate", returnDate)])) params E)
      as (Htqp & Hr & _).
    + unfold roundTrip_options. cbn [get]. now rewrite lookup_app_other.
    + unfold roundTrip_options. cbn [get].
      destruct (existsb (fun p => String.eqb "returnDate" (fst p)) (spread options))
        eqn:Hown.
      * now rewrite !lookup_app_own.
      * now rewrite !lookup_app_other by exact Hown.
    + split; [exact Htqp|]. intros Hown.
      rewrite lookup_app_other in Hr by exact Hown. exact Hr.
Qed.

(** ** The sample host *)

Lemma upper_char_capital (c : ascii) :
  is_capital c = true -> Sample.upper_char c = c.
Proof.
  unfold is_capital, Sample.upper_char. cbv zeta. intros Hc.
  apply Bool.andb_true_iff in Hc. destruct Hc as [H1 H2].
  apply Nat.leb_le in H1, H2.
  destruct (Nat.leb_spec 97 (nat_of_ascii c)); [lia | reflexivity].
Qed.

Lemma sample_toUpperCase_code (s : string) :
  is_airport_code s = true -> toUpperCase Sample.builtins s = s.
Proof.
  destruct s as [|a [|b [|c [|d s]]]]; try discriminate.
  cbn [is_airport_code]. intros Hs.
  apply Bool.andb_true_iff in Hs. destruct Hs as [Hs Hc].
  apply Bool.andb_true_iff in Hs. destruct Hs as [Ha Hb].
  cbn [toUpperCase Sample.builtins Sample.map_string].
  now rewrite !upper_char_capital.
Qed.

End Builder.

(* ================================================================== *)
(** * The program on sample inputs *)

(** C1, on captures of sizes 100, 250, 250 and 80: the metadata are those
    of the second capture. *)
Lemma parseInterceptedData_sample :
  metadata (parseInterceptedData Sample.trim Sample.parseFloat
              Sample.four_captures 50)
  = Some (MetaCapture 4 20 250
            "https://www.united.com/api/flight/FetchFlights?page=2" 50).
Proof.
  destruct (parseInterceptedData_picks_first_largest
              Sample.trim Sample.parseFloat Sample.four_captures 50)
    as [_ H]; [discriminate|].
  rewrite (H _ _ _ _ eq_refl eq_refl eq_refl eq_refl eq_refl).
  reflexivity.
Defined.

(** C2 fails as stated: a URL of the site with an [/api/] segment that is
    not [/api/flight/] does not qualify. *)
Lemma isFetchFlightsAPI_needs_flight_segment :
  ~ (isFetchFlightsAPI "https://www.united.com/api/home" = true <->
     Str.includes "https://www.united.com/api/home" "FetchFlights" = true \/
     (Str.includes "https://www.united.com/api/home" "/api/" = true /\
      Str.includes "https://www.united.com/api/home" "united.com" = true)).
Proof.
  intros [_ H].
  assert (E : isFetchFlightsAPI "https://www.united.com/api/home" = true).
  { apply H. right. split; reflexivity. }
  vm_compute in E. discriminate.
Qed.

(** C3 fails as stated: with a failure record accumulated and no capture,
    the budget elapses and the error thrown is the one thrown with no
    failure record at all; its message mentions neither the URL nor the
    reason of the record, which stays in [this.failedRequests]. *)
Lemma empty_capture_error_has_no_records :
  exists e m',
    waitForSearchResults Sample.trim Sample.JSON_parse Sample.browser 5000
      (Sample.listening_machine [Sample.failure] []) = (Throws e, m') /\
    failedRequests (this m') = Some [Sample.failure] /\
    Str.includes (message e) (failed_url Sample.failure) = false /\
    Str.includes (message e) (failed_error Sample.failure) = false /\
    fst (waitForSearchResults Sample.trim Sample.JSON_parse Sample.browser 5000
           (Sample.listening_machine [] [])) = Throws e.
Proof.
  eexists. eexists. split; [vm_compute; reflexivity|].
  repeat split; vm_compute; reflexivity.
Qed.

(** C4 is not met by the code on attempts that fail by their title: when
    each of the three attempts loads a page whose title indicates an error,
    [navigateWithRetry] throws nothing and returns normally, and between
    the attempts it has waited only the settle delay, where the attempts
    that fail with an exception end in the navigation error and are
    [2000 * attempt] ms apart. *)
Lemma navigateWithRetry_error_titles_return :
  exists m',
    navigateWithRetry Sample.trim Sample.JSON_parse Sample.error_page_browser
      "https://www.united.com/en/us/fsr/choose-flights" 3 (Sample.machine [])
      = (Returns tt, m') /\
    calls m' =
      [Goto "https://www.united.com/en/us/fsr/choose-flights"; WaitFor 3000; Title;
       Goto "https://www.united.com/en/us/fsr/choose-flights"; WaitFor 3000; Title;
       Goto "https://www.united.com/en/us/fsr/choose-flights"; WaitFor 3000; Title].
Proof.
  eexists. split; vm_compute; reflexivity.
Qed.


(** C5 fails as stated: with captures at 1 s and 2 s, completion is
    declared 8 s in, a full stabilisation window after the 5 s of the
    claim. *)
Lemma completion_at_eight_seconds :
  exists m',
    waitForSearchResults Sample.trim Sample.JSON_parse Sample.browser 60000
      (Sample.listening_machine [] (Sample.two_captures 1000 2000))
      = (Returns tt, m') /\
    now m' = 8000%Z /\
    calls m' = [WaitFor 1000; WaitFor 3000; WaitFor 1000; WaitFor 3000].
Proof.
  eexists. split; [vm_compute; reflexivity|]. split; reflexivity.
Qed.

(** C5, as amended, for the captures at 1 s and 2 s. *)
Lemma completion_after_two_captures_sample :
  exists m',
    waitForSearchResults Sample.trim Sample.JSON_parse Sample.browser 60000
      (Sample.listening_machine [] (Sample.two_captures 1000 2000))
      = (Returns tt, m') /\
    now m' = 8000%Z.
Proof.
  destruct (completion_after_two_captures Sample.trim Sample.JSON_parse
              Sample.browser 1000 2000 Sample.response_A Sample.response_B
              "{}" "[]" (Sample.listening_machine [] (Sample.two_captures 1000 2000)))
    as [H _].
  - repeat split.
  - repeat split. eexists. reflexivity.
  - repeat split. eexists. reflexivity.
  - destruct H as (m' & Hrun & Hnow & _).
    + cbn. lia.
    + exists m'. split; [exact Hrun | exact Hnow].
Defined.

(** C6 fails as stated: [clearData] leaves a failure record in place. *)
Lemma clearData_keeps_failures :
  failedRequests
    (clearData (set_failedRequests (Some [Sample.failure]) Sample.four_captures))
  = Some [Sample.failure] /\
  interceptedData
    (clearData (set_failedRequests (Some [Sample.failure]) Sample.four_captures))
  = [].
Proof. split; reflexivity. Qed.

(** C7 fails as stated: response A arrives before response B, the body of
    B is read before the body of A, and the capture of B precedes the
    capture of A in the list. *)
Lemma captures_follow_body_reading_order :
  map response_url
      (fold_right (fun ev acc => match snd ev with
                                 | ResponseReceived r => r :: acc
                                 | _ => acc
                                 end) [] Sample.overtaking)
  = [response_url Sample.response_A; response_url Sample.response_B] /\
  map url
      (interceptedData
         (this (advance Sample.trim Sample.JSON_parse 1000
                  (Sample.listening_machine [] Sample.overtaking))))
  = [response_url Sample.response_B; response_url Sample.response_A].
Proof. split; vm_compute; reflexivity. Qed.

(** C7, as amended, for a body that is read and parses. *)
Lemma capture_appended_sample :
  interceptedData
    (this (handle Sample.trim Sample.JSON_parse (BodyRead 1 (Ok "{}"))
             (set_reading [Sample.response_A]
                (set_this Sample.four_captures (Sample.listening_machine [] [])))))
  = (interceptedData Sample.four_captures ++
     [mkCapture (response_url Sample.response_A) 0 200 [] (VObj []) 2])%list.
Proof.
  destruct (capture_list_append_only Sample.trim Sample.parseFloat
              Sample.JSON_parse Sample.browser) as (_ & H & _).
  apply (H 1 Sample.response_A [] "{}" (VObj [])); reflexivity.
Defined.

(** C9 fails as stated: for the empty trip list the three payload shapes
    yield the same flight list, and it is empty. *)
Lemma empty_trip_list_yields_no_flight :
  flights (extractFlightInfo Sample.trim Sample.parseFloat
             (VObj [("Trips", VArr [])])) = [] /\
  flights (extractFlightInfo Sample.trim Sample.parseFloat
             (VObj [("data", VObj [("Trips", VArr [])])])) = [] /\
  flights (extractFlightInfo Sample.trim Sample.parseFloat (VArr [])) = [].
Proof. repeat split. Qed.

(** C9, as amended, for a trip list with one trip. *)
Lemma one_trip_yields_one_flight :
  fst (collect Sample.trim Sample.parseFloat
         [VNull; VObj [("Origin", VStr "PHL"); ("Destination", VStr "LGA")]] [])
  <> [].
Proof.
  destruct (extractFlightInfo_shapes Sample.trim Sample.parseFloat
              [VNull; VObj [("Origin", VStr "PHL"); ("Destination", VStr "LGA")]])
    as (_ & H & _).
  apply H.
  exists [VNull], (VObj [("Origin", VStr "PHL"); ("Destination", VStr "LGA")]).
  eexists. exists []. repeat split.
  constructor; [reflexivity | constructor].
Defined.

(** X2 for the captures at 1 s and 2 s. *)
Lemma stabilized_completion_is_quiet_sample :
  Forall (fun c => (timestamp c + 3000 <= 8000)%Z)
    (interceptedData
       (this (snd (poll Sample.trim Sample.JSON_parse Sample.browser (fuel_for 60000)
                     0 60000 0 0
                     (say LogWaiting
                        (Sample.listening_machine [] (Sample.two_captures 1000 2000))))))).
Proof.
  destruct (stabilized_completion_is_quiet Sample.trim Sample.JSON_parse
              Sample.browser 60000
              (Sample.listening_machine [] (Sample.two_captures 1000 2000))
              (snd (poll Sample.trim Sample.JSON_parse Sample.browser (fuel_for 60000)
                      0 60000 0 0
                      (say LogWaiting
                         (Sample.listening_machine [] (Sample.two_captures 1000 2000))))))
    as [_ H].
  - split; constructor.
  - vm_compute. reflexivity.
  - exact H.
Defined.




(** X5 on a bare array of trips with a [null] entry between two trips. *)
Lemma extractFlightInfo_keeps_trip_order_sample :
  map destination
    (flights (extractFlightInfo Sample.trim Sample.parseFloat
                (VArr [Sample.trip_to "EWR"; VNull; Sample.trip_to "JFK"])))
  = [VStr "EWR"; VStr "JFK"].
Proof.
  edestruct (extractFlightInfo_keeps_trip_order Sample.trim Sample.parseFloat
               (VArr [Sample.trip_to "EWR"; VNull; Sample.trip_to "JFK"])
               [Sample.trip_to "EWR"; VNull; Sample.trip_to "JFK"])
    as (info & _ & E); [reflexivity | reflexivity | reflexivity | reflexivity |].
  rewrite E. reflexivity.
Defined.

(** X6 on a [Trips] list whose second trip has a [null] fare column: the
    first flight is kept, the third trip is never read. *)
Lemma extractFlightInfo_stops_at_malformed_trip_sample :
  let r := extractFlightInfo Sample.trim Sample.parseFloat
             (VObj [("Trips", VArr [Sample.trip_to "EWR"; Sample.malformed_trip;
                                    Sample.trip_to "JFK"])]) in
  map destination (flights r) = [VStr "EWR"] /\
  error r = Some "Failed to parse flight data: Cannot read properties of null (reading 'Type')" /\
  searchInfo r = None.
Proof.
  cbv zeta.
  erewrite (extractFlightInfo_stops_at_malformed_trip Sample.trim Sample.parseFloat
              (VObj [("Trips", VArr [Sample.trip_to "EWR"; Sample.malformed_trip;
                                     Sample.trip_to "JFK"])])
              [Sample.trip_to "EWR"] Sample.malformed_trip [Sample.trip_to "JFK"]);
    [| reflexivity | reflexivity | reflexivity | reflexivity | reflexivity | reflexivity].
  repeat split.
Defined.


(** X8 on a search during which two responses are captured. *)
Lemma searchByURL_returns_with_data_sample :
  exists r m',
    searchByURL Sample.trim Sample.parseFloat Sample.JSON_parse
      Sample.browser "https://www.united.com/en/us/fsr/choose-flights"
      (Sample.machine (Sample.two_captures 1000 2000)) = (Returns r, m') /\
    interceptedData (this m') <> [] /\
    error r <> Some "No data intercepted".
Proof.
  eexists. eexists. split.
  - vm_compute. reflexivity.
  - refine (let H := searchByURL_returns_with_data Sample.trim Sample.parseFloat
                       Sample.JSON_parse Sample.browser
                       "https://www.united.com/en/us/fsr/choose-flights"
                       (Sample.machine (Sample.two_captures 1000 2000)) _ _ _ in
            conj (proj1 H) (proj1 (proj2 (proj2 H)))).
    vm_compute. reflexivity.
Defined.

(** X9 on an instance that still holds four captures of an earlier search:
    the wait ends three seconds in, though nothing arrives. *)
Lemma stale_captures_end_the_wait_sample :
  exists m',
    waitForSearchResults Sample.trim Sample.JSON_parse Sample.browser 60000
      (set_this Sample.four_captures (Sample.machine [])) = (Returns tt, m') /\
    now m' = 3000%Z /\ List.length (interceptedData (this m')) = 4.
Proof.
  destruct (stale_captures_end_the_wait Sample.trim Sample.JSON_parse
              Sample.browser 60000
              (set_this Sample.four_captures (Sample.machine [])))
    as (m' & Hrun & Hnow & Hthis & _).
  - discriminate.
  - lia.
  - exact I.
  - exists m'. split; [exact Hrun|]. split; [exact Hnow|]. now rewrite Hthis.
Defined.



(** X13 on a search during which two responses are captured. *)
Lemma searchByURL_records_are_its_own_sample :
  exists added,
    interceptedData
      (this (snd (searchByURL Sample.trim Sample.parseFloat Sample.JSON_parse
                    Sample.browser "https://www.united.com/en/us/fsr/choose-flights"
                    (Sample.machine (Sample.two_captures 1000 2000)))))
    = added /\
    List.length added = 2 /\
    Forall (captured_between 0 6000) added.
Proof.
  destruct (searchByURL_records_are_its_own Sample.trim Sample.parseFloat
              Sample.JSON_parse Sample.browser
              "https://www.united.com/en/us/fsr/choose-flights"
              (Sample.machine (Sample.two_captures 1000 2000)) eq_refl)
    as [(added & E & Hadd) _].
  change (interceptedData (this (Sample.machine (Sample.two_captures 1000 2000)))
            ++ added)%list with added in E.
  exists added. split; [exact E|]. split.
  - rewrite <- E. vm_compute. reflexivity.
  - exact Hadd.
Defined.


(** X16 on the code [NYC]: its expansion is formatted into itself. *)
Lemma formatDestination_idempotent_sample :
  UnitedURLBuilder.formatDestination Sample.builtins
    (VStr "NEW YORK, NY, US (ALL AIRPORTS)") VUndefined
  = Ok (VStr "NEW YORK, NY, US (ALL AIRPORTS)").
Proof.
  apply (formatDestination_idempotent Sample.builtins (VStr "NYC") VUndefined).
  - apply sample_toUpperCase_code.
  - reflexivity.
Defined.

(** X17 on the sample search, in first and in premium class. *)
Lemma premium_is_first_sample :
  UnitedURLBuilder.buildURL Sample.builtins
    (VObj [("cabinClass", VStr "First"); ("from", VStr "phl"); ("to", VStr "NYC");
           ("departDate", VStr "2025-08-15")])
  = UnitedURLBuilder.buildURL Sample.builtins
      (VObj [("cabinClass", VStr "PREMIUM"); ("from", VStr "phl"); ("to", VStr "NYC");
             ("departDate", VStr "2025-08-15")]).
Proof.
  exact (proj1 (premium_is_first Sample.builtins "First" "PREMIUM"
                  [("from", VStr "phl"); ("to", VStr "NYC");
                   ("departDate", VStr "2025-08-15")] eq_refl eq_refl)).
Defined.

(** X18 on the sample search: a round trip in business class. *)
Lemma build_params_readback_sample :
  exists params,
    UnitedURLBuilder.build_params Sample.builtins Sample.options = Ok params /\
    UnitedURLBuilder.param "tqp" params = Some "R" /\
    UnitedURLBuilder.param "ct" params = Some "3" /\
    UnitedURLBuilder.param "ns" params = Some "1".
Proof.
  eexists. split; [vm_compute; reflexivity|].
  split; [|split; vm_compute; reflexivity].
  exact (proj1 (build_params_readback Sample.builtins Sample.options
                  VUndefined (VStr "2025-08-17") _ eq_refl eq_refl eq_refl)).
Defined.

(** X20 on a one-way search whose options hold a return date: the URL is
    that of a one-way trip, with a return date. *)
Lemma trip_codes_sample :
  exists params,
    UnitedURLBuilder.build_params Sample.builtins
      (UnitedURLBuilder.oneWay_options (VStr "PHL") (VStr "LGA") (VStr "2025-08-15")
         (VObj [("returnDate", VStr "2025-08-17")])) = Ok params /\
    UnitedURLBuilder.param "tqp" params = Some "O" /\
    UnitedURLBuilder.param "r" params = Some "2025-08-17".
Proof.
  eexists. split; [vm_compute; reflexivity|].
  split; [|vm_compute; reflexivity].
  exact (proj1 (proj2 (proj1 (trip_codes Sample.builtins
                                (VStr "PHL") (VStr "LGA") (VStr "2025-08-15") VUndefined
                                (VObj [("returnDate", VStr "2025-08-17")]) _ eq_refl)
                             eq_refl))).
Defined.


(** X22 on the file name [flights]: the file holds the payload. *)
Lemma name_without_json_loses_record_sample :
  file "./flight_data/flights"
       (saveResponseToFile Sample.disk "./flight_data" (Sample.capture 1 10 100)
          (VObj [("filename", VStr "flights")]) 10 [])
  = Some "{}".
Proof.
  exact (proj2 (name_without_json_loses_record Sample.disk "./flight_data" "flights"
                  (Sample.capture 1 10 100) (VObj [("filename", VStr "flights")])
                  10 [] eq_refl eq_refl eq_refl)).
Defined.

(** X23 on two captures saved as [test.json]: the file is that of the
    second. *)
Lemma only_last_capture_is_saved_sample :
  file "./flight_data/test.json"
       (save_all Sample.disk "./flight_data" (VObj [("filename", VStr "test.json")])
          [Sample.capture 1 10 100; Sample.capture 2 20 250] [])
  = Some (stringify_record Sample.disk (Sample.capture 2 20 250)) /\
  (stringify_record Sample.disk (Sample.capture 2 20 250)
     = stringify_record Sample.disk (Sample.capture 2 20 250) \/
   stringify_record Sample.disk (Sample.capture 2 20 250)
     = stringify_data Sample.disk (data (Sample.capture 2 20 250))).
Proof.
  split; [reflexivity|].
  exact (only_last_capture_is_saved Sample.disk "./flight_data" "test.json"
           (VObj [("filename", VStr "test.json")])
           [Sample.capture 1 10 100] (Sample.capture 2 20 250)
           (fun _ => eq_refl) eq_refl eq_refl
           "./flight_data/test.json"
           (stringify_record Sample.disk (Sample.capture 2 20 250)) eq_refl).
Defined.
